(** * Secure Node.js middleware stack: blacklist guard, rate limiter, sanitizer

    A shallow embedding of the request-admission pipeline
    (middleware/ipBlacklist.js, middleware/rateLimiter.js,
    middleware/sanitizer.js) and the properties its specification states.

    Conventions of the embedding.
    - A JavaScript string is a [string]: one [ascii] per code unit, so the
      development covers strings whose code units are below 256 (this is
      exactly what Node produces for HTTP header values, which are decoded
      as Latin-1).
    - Instants and durations are milliseconds in [Z], as [Date.now()] gives.
    - [Set] objects are [gset string]; the rate store, a [Map] whose keys
      are strings or [undefined], is a [gmap (option string) clientData].
    - A function that may throw returns how the call ended together with
      the state it left. *)

From Stdlib Require Import ZArith Lia List Ascii String Bool DecimalString.
From stdpp Require Import base gmap strings list fin_maps sorting.

Set Warnings "-register-all".
Import ListNotations.

Local Open Scope string_scope.

(* ===================================================================== *)
(** ** JavaScript values and strings *)
(* ===================================================================== *)

Module Js.

(** The values a parsed request body, query or parameter object is made
    of.  [JObj] lists the own enumerable properties in the order
    [Object.entries] yields them; of the payload of [JNum] the code
    modelled here only asks whether it is zero and, in the validator,
    for the text of the number. *)
Inductive value : Type :=
| JUndefined
| JNull
| JBool (b : bool)
| JNum (n : Z)
| JStr (s : string)
| JArr (items : list value)
| JObj (props : list (string * value)).

(** Induction over values, with the hypotheses for the items of an
    array and the property values of an object. *)

Section ValueInd.
Variable P : value -> Prop.
Hypothesis Hundef : P JUndefined.
Hypothesis Hnull : P JNull.
Hypothesis Hbool : forall b, P (JBool b).
Hypothesis Hnum : forall n, P (JNum n).
Hypothesis Hstr : forall s, P (JStr s).
Hypothesis Harr : forall items, Forall P items -> P (JArr items).
Hypothesis Hobj : forall props, Forall (fun kv => P (snd kv)) props -> P (JObj props).

Fixpoint value_rect' (v : value) : P v :=
  match v with
  | JUndefined => Hundef
  | JNull => Hnull
  | JBool b => Hbool b
  | JNum n => Hnum n
  | JStr s => Hstr s
  | JArr items =>
      Harr items
        ((fix go (l : list value) : Forall P l :=
            match l with
            | [] => @List.Forall_nil _ P
            | x :: l' => @List.Forall_cons _ P x l' (value_rect' x) (go l')
            end) items)
  | JObj props =>
      Hobj props
        ((fix go (l : list (string * value)) : Forall (fun kv => P (snd kv)) l :=
            match l with
            | [] => @List.Forall_nil _ _
            | kv :: l' =>
                @List.Forall_cons _ (fun kv => P (snd kv)) kv l'
                  (value_rect' (snd kv)) (go l')
            end) props)
  end.
End ValueInd.

(** Truthiness of a string operand of [||] and [!]: only the empty
    string is falsy. *)
Definition truthy (s : string) : bool :=
  match s with
  | EmptyString => false
  | String _ _ => true
  end.

(** Truthiness of a string that may be [undefined]. *)
Definition is_truthy (a : option string) : bool :=
  match a with
  | Some s => truthy s
  | None => false
  end.

(** [a || b] on possibly-undefined strings. *)
Definition or_else (a : option string) (b : option string) : option string :=
  match a with
  | Some s => if truthy s then Some s else b
  | None => b
  end.

Definition code (c : ascii) : N := N_of_ascii c.

(** The double-quote character, code 34. *)
Definition dquote : ascii := ascii_of_N 34.

Definition in_range (lo hi c : ascii) : bool :=
  (code lo <=? code c)%N && (code c <=? code hi)%N.

(** [\d] *)
Definition is_digit (c : ascii) : bool := in_range "0" "9" c.

(** [\w] *)
Definition is_word (c : ascii) : bool :=
  in_range "a" "z" c || in_range "A" "Z" c || is_digit c || Ascii.eqb c "_".

(** [\s], and the characters [trim] strips: TAB, LF, VT, FF, CR, SP and
    NBSP are the white space and line terminators below 256. *)
Definition is_space (c : ascii) : bool :=
  existsb (N.eqb (code c)) [9; 10; 11; 12; 13; 32; 160]%N.

(** [.] excludes the line terminators. *)
Definition is_dot (c : ascii) : bool :=
  negb (existsb (N.eqb (code c)) [10; 13]%N).

(** Canonicalisation under the [i] flag, for the ASCII letters the
    patterns of this program contain. *)
Definition to_upper (c : ascii) : ascii :=
  if in_range "a" "z" c then ascii_of_N (code c - 32) else c.

Definition ci_eqb (p c : ascii) : bool := Ascii.eqb (to_upper p) (to_upper c).

(** [s.startsWith(p)] *)
Fixpoint startsWith (p s : string) : bool :=
  match p, s with
  | EmptyString, _ => true
  | String a p', String b s' => Ascii.eqb a b && startsWith p' s'
  | String _ _, EmptyString => false
  end.

(** [s.includes(p)] *)
Fixpoint includes (p s : string) : bool :=
  startsWith p s ||
  match s with
  | EmptyString => false
  | String _ s' => includes p s'
  end.

(** [s.split(',')[0]]: the text before the first comma. *)
Fixpoint first_entry (s : string) : string :=
  match s with
  | EmptyString => EmptyString
  | String c s' => if Ascii.eqb c "," then EmptyString else String c (first_entry s')
  end.

Fixpoint trim_start (s : string) : string :=
  match s with
  | EmptyString => EmptyString
  | String c s' => if is_space c then trim_start s' else s
  end.

Fixpoint rev_string (acc s : string) : string :=
  match s with
  | EmptyString => acc
  | String c s' => rev_string (String c acc) s'
  end.

Definition trim_end (s : string) : string :=
  rev_string EmptyString (trim_start (rev_string EmptyString s)).

(** [s.trim()] *)
Definition trim (s : string) : string := trim_end (trim_start s).

(** [s.replace(/c/g, by)] for a pattern that is one literal character. *)
Fixpoint replace_char (c : ascii) (by_ : string) (s : string) : string :=
  match s with
  | EmptyString => EmptyString
  | String x s' =>
      if Ascii.eqb x c then by_ +:+ replace_char c by_ s'
      else String x (replace_char c by_ s')
  end.

End Js.

(* ===================================================================== *)
(** ** The request object *)
(* ===================================================================== *)

Module Express.

(** The parts of an Express request the middleware reads.  A field that
    may be [undefined] is an [option]. *)
Record peer : Type := { peer_remoteAddress : option string }.

Record connection : Type := {
  remoteAddress : option string;
  conn_socket : option peer
}.

Record request : Type := {
  ip : option string;
  headers : gmap string string;
  req_connection : option connection;
  req_socket : option peer
}.

End Express.

(* ===================================================================== *)
(** ** Regular expressions with JavaScript's backtracking order *)
(* ===================================================================== *)

Module Regex.

Inductive regex : Type :=
| Eps
| Cls (p : ascii -> bool)
| Seq (r1 r2 : regex)
| Alt (r1 r2 : regex)
| Star (greedy : bool) (r : regex).

Definition Lit (c : ascii) : regex := Cls (Ascii.eqb c).
Definition LitCI (c : ascii) : regex := Cls (Js.ci_eqb c).
Definition NotIn (cs : list ascii) : regex :=
  Cls (fun c => negb (existsb (Ascii.eqb c) cs)).
Definition OneOf (cs : list ascii) : regex :=
  Cls (fun c => existsb (Ascii.eqb c) cs).

Fixpoint Str (s : string) : regex :=
  match s with
  | EmptyString => Eps
  | String c s' => Seq (Lit c) (Str s')
  end.

Fixpoint StrCI (s : string) : regex :=
  match s with
  | EmptyString => Eps
  | String c s' => Seq (LitCI c) (StrCI s')
  end.

Fixpoint Seqs (rs : list regex) : regex :=
  match rs with
  | [] => Eps
  | r :: rs' => Seq r (Seqs rs')
  end.

(** [r+], [r?], [r{n}], [r{0,n}], [r{lo,hi}] and [r{lo,}], all greedy. *)
Definition Plus (r : regex) : regex := Seq r (Star true r).
Definition Opt (r : regex) : regex := Alt r Eps.

Fixpoint Rep (n : nat) (r : regex) : regex :=
  match n with
  | O => Eps
  | S n' => Seq r (Rep n' r)
  end.

Fixpoint UpTo (n : nat) (r : regex) : regex :=
  match n with
  | O => Eps
  | S n' => Opt (Seq r (UpTo n' r))
  end.

Definition Range (lo hi : nat) (r : regex) : regex :=
  Seq (Rep lo r) (UpTo (hi - lo) r).

Definition AtLeast (lo : nat) (r : regex) : regex :=
  Seq (Rep lo r) (Star true r).

(** [bt r s k] matches [r] at the start of [s] and hands the rest of the
    input to the continuation [k]; alternatives are tried in the order a
    backtracking matcher tries them (a greedy star takes one more
    iteration before it tries to stop, a lazy one stops first), and an
    iteration that consumes nothing is rejected. *)
Fixpoint bt (r : regex) (s : string) (k : string -> option string)
  {struct r} : option string :=
  match r with
  | Eps => k s
  | Cls p =>
      match s with
      | String c s' => if p c then k s' else None
      | EmptyString => None
      end
  | Seq r1 r2 => bt r1 s (fun s1 => bt r2 s1 k)
  | Alt r1 r2 =>
      match bt r1 s k with
      | Some out => Some out
      | None => bt r2 s k
      end
  | Star greedy r1 =>
      (fix loop (fuel : nat) (s0 : string) {struct fuel} : option string :=
         match fuel with
         | O => k s0
         | S fuel' =>
             let again :=
               bt r1 s0 (fun s1 =>
                 if (String.length s1 <? String.length s0)%nat
                 then loop fuel' s1 else None) in
             if greedy then
               match again with
               | Some out => Some out
               | None => k s0
               end
             else
               match k s0 with
               | Some out => Some out
               | None => again
               end
         end) (S (String.length s)) s
  end.

(** The input left after the match of [r] that starts at the head of
    [s], if there is one. *)
Definition match_here (r : regex) (s : string) : option string := bt r s Some.

(** [/^r$/.test(s)] *)
Definition test_anchored (r : regex) (s : string) : bool :=
  match bt r s (fun rest => match rest with
                            | EmptyString => Some EmptyString
                            | String _ _ => None
                            end) with
  | Some _ => true
  | None => false
  end.

(** [s.replace(/r/g, by)]: scan left to right; where [r] matches, emit
    [by] and resume after the match (after one copied character when the
    match is empty); elsewhere copy one character. *)
Fixpoint replace_from (fuel : nat) (r : regex) (by_ : string) (s : string) : string :=
  match fuel with
  | O => s
  | S fuel' =>
      match match_here r s with
      | Some rest =>
          if (String.length rest <? String.length s)%nat
          then by_ +:+ replace_from fuel' r by_ rest
          else match s with
               | EmptyString => by_
               | String c s' => by_ +:+ String c (replace_from fuel' r by_ s')
               end
      | None =>
          match s with
          | EmptyString => EmptyString
          | String c s' => String c (replace_from fuel' r by_ s')
          end
      end
  end.

Definition replace_all (r : regex) (by_ : string) (s : string) : string :=
  replace_from (S (String.length s)) r by_ s.


(** The language of a regular expression: [Matches r s] when [r], taken
    as a pattern for the whole of [s], matches it. *)
Inductive Matches : regex -> string -> Prop :=
| MEps : Matches Eps ""
| MCls (p : ascii -> bool) (c : ascii) :
    p c = true -> Matches (Cls p) (String c "")
| MSeq (r1 r2 : regex) (s1 s2 : string) :
    Matches r1 s1 -> Matches r2 s2 -> Matches (Seq r1 r2) (s1 +:+ s2)
| MAltL (r1 r2 : regex) (s : string) : Matches r1 s -> Matches (Alt r1 r2) s
| MAltR (r1 r2 : regex) (s : string) : Matches r2 s -> Matches (Alt r1 r2) s
| MStarNil (greedy : bool) (r : regex) : Matches (Star greedy r) ""
| MStarApp (greedy : bool) (r : regex) (s1 s2 : string) :
    Matches r s1 -> Matches (Star greedy r) s2 -> Matches (Star greedy r) (s1 +:+ s2).

(** Every character of [s] is in the class [p]. *)
Fixpoint all_in (p : ascii -> bool) (s : string) : bool :=
  match s with
  | EmptyString => true
  | String c s' => p c && all_in p s'
  end.

(** Some character of [s] is in the class [p]. *)
Fixpoint some_in (p : ascii -> bool) (s : string) : bool :=
  match s with
  | EmptyString => false
  | String c s' => p c || some_in p s'
  end.


(** [m] is [w] up to the case of its letters. *)
Fixpoint ci_equal (w m : string) : bool :=
  match w, m with
  | EmptyString, EmptyString => true
  | String a w', String b m' => Js.ci_eqb a b && ci_equal w' m'
  | _, _ => false
  end.


(** The loop of [bt] for a star, on its own: [m] matches the body of the
    star. *)
Section StarLoop.
Variable m : string -> (string -> option string) -> option string.
Variable greedy : bool.
Variable k : string -> option string.

Fixpoint star_loop (fuel : nat) (s0 : string) {struct fuel} : option string :=
  match fuel with
  | O => k s0
  | S fuel' =>
      let again :=
        m s0 (fun s1 =>
          if (String.length s1 <? String.length s0)%nat
          then star_loop fuel' s1 else None) in
      if greedy then
        match again with
        | Some out => Some out
        | None => k s0
        end
      else
        match k s0 with
        | Some out => Some out
        | None => again
        end
  end.
End StarLoop.
End Regex.

(* ===================================================================== *)
(** ** middleware/sanitizer.js *)
(* ===================================================================== *)

Module Sanitizer.
Import Js Regex.

Definition quotes : list ascii := [dquote; "'"%char].

(** [/<script[^>]*>.*?<\/script>/gi] *)
Definition script_re : regex :=
  Seqs [Lit "<"; StrCI "script"; Star true (NotIn [">"%char]); Lit ">";
        Star false (Cls is_dot);
        Lit "<"; Lit "/"; StrCI "script"; Lit ">"].

(** The event-handler pattern: [on\w+\s*=\s*Q[^Q]*Q] with flags [gi],
    where [Q] stands for the class of the two quote characters. *)
Definition handler_re : regex :=
  Seqs [StrCI "on"; Plus (Cls is_word); Star true (Cls is_space); Lit "=";
        Star true (Cls is_space);
        OneOf quotes; Star true (NotIn quotes); OneOf quotes].

(** [/javascript:/gi] *)
Definition javascript_re : regex := Seq (StrCI "javascript") (Lit ":").

Definition remove_scripts (str : string) : string := replace_all script_re "" str.
Definition remove_handlers (str : string) : string := replace_all handler_re "" str.
Definition remove_javascript (str : string) : string := replace_all javascript_re "" str.




(** The chain of six [replace] calls that encodes HTML entities. *)
Definition encode_entities (str : string) : string :=
  replace_char "/" "&#x2F;"
    (replace_char "'" "&#x27;"
      (replace_char dquote "&quot;"
        (replace_char ">" "&gt;"
          (replace_char "<" "&lt;"
            (replace_char "&" "&amp;" str))))).

(** [sanitizeString] on a string argument. *)
Definition sanitizeString (str : string) : string :=
  let str := remove_scripts str in
  let str := remove_handlers str in
  let str := remove_javascript str in
  encode_entities str.

(** An assignment [o[k] = v] to an object that was created by [{}] and
    has only received such assignments, seen on its own properties: a
    new key is appended and an existing one keeps its place.  The key
    [__proto__] is special: the assignment reaches the accessor that
    [Object.prototype] defines for it, which replaces the prototype (or
    ignores a primitive [v]) and creates no own property. *)
Fixpoint assign (o : list (string * value)) (k : string) (v : value)
  : list (string * value) :=
  match o with
  | [] => [(k, v)]
  | (k', v') :: o' =>
      if String.eqb k' k then (k, v) :: o' else (k', v') :: assign o' k v
  end.

Definition set_property (o : list (string * value)) (k : string) (v : value)
  : list (string * value) :=
  if String.eqb k "__proto__" then o else assign o k v.

(** The test that makes [deepSanitize] skip a key. *)
Definition dangerous_key (key : string) : bool :=
  let cleanKey := sanitizeString key in
  startsWith "$" cleanKey || includes "." cleanKey || negb (String.eqb cleanKey key).

(** [deepSanitize]; the [for ... of Object.entries(obj)] loop is the
    [fold_left], its accumulator the object [sanitized]. *)
Fixpoint deepSanitize (obj : value) : value :=
  match obj with
  | JNull | JUndefined => obj
  | JArr items => JArr (List.map deepSanitize items)
  | JObj props =>
      JObj (fold_left
              (fun sanitized (entry : string * value) =>
                 let cleanKey := sanitizeString (fst entry) in
                 if dangerous_key (fst entry) then sanitized
                 else set_property sanitized cleanKey (deepSanitize (snd entry)))
              props [])
  | JStr str => JStr (sanitizeString str)
  | JBool _ | JNum _ => obj
  end.


(** Whether the character [c] occurs in [s]. *)
Fixpoint occurs (c : ascii) (s : string) : bool :=
  match s with
  | EmptyString => false
  | String x s' => Ascii.eqb x c || occurs c s'
  end.


(** A value with nothing to clean, in the words of the specification:
    no key starts with a dollar sign, no key contains a dot, and the
    string rule alters no key and no string value. *)
Definition harmless_key (k : string) : bool :=
  negb (startsWith "$" k) && negb (includes "." k)
  && String.eqb (sanitizeString k) k.

Fixpoint harmless (v : value) : bool :=
  match v with
  | JStr s => String.eqb (sanitizeString s) s
  | JArr items => forallb harmless items
  | JObj props => forallb (fun kv => harmless_key (fst kv) && harmless (snd kv)) props
  | _ => true
  end.

(** The keys of every object are pairwise distinct, as the own
    properties of an object are. *)
Fixpoint distinct (ks : list string) : bool :=
  match ks with
  | [] => true
  | k :: ks' => negb (existsb (String.eqb k) ks') && distinct ks'
  end.

Fixpoint distinct_keys (v : value) : bool :=
  match v with
  | JArr items => forallb distinct_keys items
  | JObj props =>
      distinct (List.map fst props) && forallb (fun kv => distinct_keys (snd kv)) props
  | _ => true
  end.

(** No object of the value has an own property [__proto__]. *)
Fixpoint proto_free (v : value) : bool :=
  match v with
  | JArr items => forallb proto_free items
  | JObj props =>
      forallb (fun kv => negb (String.eqb (fst kv) "__proto__")
                         && proto_free (snd kv)) props
  | _ => true
  end.

(** What [JSON.parse] makes of the text [{"__proto__": 1}] (an own
    data property). *)
Definition proto_example : value := JObj [("__proto__", JNum 1)].


(** The characters the string rule can touch: the six it encodes and the
    colon, which ends the [javascript:] prefix. *)
Definition special (c : ascii) : bool :=
  existsb (Ascii.eqb c) ["&"; "<"; ">"; dquote; "'"; "/"; ":"]%char.

(** The five characters that no output of the string rule holds. *)
Definition markup (c : ascii) : bool :=
  existsb (Ascii.eqb c) ["<"; ">"; dquote; "'"; "/"]%char.

(** The keys that [deepSanitize] copies into its result. *)
Definition kept_key (k : string) : bool :=
  negb (dangerous_key k) && negb (String.eqb k "__proto__").

(** A value as the sanitizer leaves it: no string holds a markup
    character, and no key starts with a dollar sign, holds a dot or a
    markup character, or is [__proto__]. *)
Definition safe_key (k : string) : bool :=
  negb (startsWith "$" k) && negb (includes "." k) && negb (some_in markup k)
  && negb (String.eqb k "__proto__").

Fixpoint safe_output (v : value) : bool :=
  match v with
  | JStr s => negb (some_in markup s)
  | JArr items => forallb safe_output items
  | JObj props => forallb (fun kv => safe_key (fst kv) && safe_output (snd kv)) props
  | _ => true
  end.

(** The parts of the request that the [sanitizer] middleware rewrites. *)
Record payload : Type := {
  body : value;
  query : value;
  params : value;
  req_headers : gmap string string
}.

(** [x && Object.keys(x).length > 0] *)
Definition has_keys (x : value) : bool :=
  match x with
  | JObj props => (0 <? length props)%nat
  | JArr items => (0 <? length items)%nat
  | JStr s => (0 <? String.length s)%nat
  | _ => false
  end.

Definition sanitize_part (x : value) : value :=
  if has_keys x then deepSanitize x else x.

(** [if (req.headers[header]) req.headers[header] = sanitizeString(...)] *)
Definition sanitize_header (header : string) (hs : gmap string string)
  : gmap string string :=
  match hs !! header with
  | Some v => if truthy v then <[header := sanitizeString v]> hs else hs
  | None => hs
  end.

Definition headersToSanitize : list string := ["user-agent"; "referer"; "x-forwarded-for"].

(** The request as the [sanitizer] middleware passes it on. *)
Definition sanitizer (req : payload) : payload :=
  {| body := sanitize_part (body req);
     query := sanitize_part (query req);
     params := sanitize_part (params req);
     req_headers := fold_left (fun hs header => sanitize_header header hs)
                      headersToSanitize (req_headers req) |}.

(** Whether an object has an own property [hasOwnProperty], which hides
    the method of that name. *)
Definition shadows_hasOwnProperty (props : list (string * value)) : bool :=
  existsb (fun kv => String.eqb (fst kv) "hasOwnProperty") props.

(** [customMongoSanitize].  It changes its argument in place and returns
    it; here it returns the value that the argument has become, or [None]
    when the call [payload.hasOwnProperty(key)] throws because an own
    property hides the method (the body of a non-empty object evaluates it
    first).  The [for ... in] loop visits the own keys in the order of
    [props], the indices of an array in ascending order; a visited key is
    deleted when it starts with a dollar sign or holds a dot. *)
Fixpoint customMongoSanitize (payload : value) : option value :=
  match payload with
  | JObj props =>
      match props with
      | [] => Some payload
      | _ :: _ =>
          if shadows_hasOwnProperty props then None
          else
            option_map JObj
              ((fix loop (ps : list (string * value)) : option (list (string * value)) :=
                  match ps with
                  | [] => Some []
                  | kv :: rest =>
                      if startsWith "$" (fst kv) then loop rest
                      else if includes "." (fst kv) then loop rest
                      else
                        match (match snd kv with
                               | JObj _ | JArr _ => customMongoSanitize (snd kv)
                               | JStr s => Some (JStr (sanitizeString s))
                               | other => Some other
                               end) with
                        | None => None
                        | Some v' => option_map (cons (fst kv, v')) (loop rest)
                        end
                  end) props)
      end
  | JArr items =>
      option_map JArr
        ((fix loop (xs : list value) : option (list value) :=
            match xs with
            | [] => Some []
            | x :: rest =>
                match (match x with
                       | JObj _ | JArr _ => customMongoSanitize x
                       | JStr s => Some (JStr (sanitizeString s))
                       | other => Some other
                       end) with
                | None => None
                | Some x' => option_map (cons x') (loop rest)
                end
            end) items)
  | other => Some other
  end.

(** No key, at any depth, starts with a dollar sign or holds a dot. *)
Fixpoint operator_free (v : value) : bool :=
  match v with
  | JArr items => forallb operator_free items
  | JObj props =>
      forallb (fun kv => negb (startsWith "$" (fst kv)) && negb (includes "." (fst kv))
                         && operator_free (snd kv)) props
  | _ => true
  end.
End Sanitizer.

(* ===================================================================== *)
(** ** The field validator of middleware/sanitizer.js *)
(* ===================================================================== *)

Module Validator.
Import Js Regex.

(** The keys of the [validators] table. *)
Inductive kind : Type := email | phoneNumber | alphanumeric | name.

(** One entry of [validationRules].  A missing [minLength] or
    [maxLength] is [None]; [Some 0] is present but falsy. *)
Record rules : Type := {
  required : bool;
  type : option kind;
  minLength : option nat;
  maxLength : option nat
}.

(** [/^[^\s@]+@[^\s@]+\.[^\s@]+$/] *)
Definition emailRegex : regex :=
  let part := Plus (Cls (fun c => negb (is_space c || Ascii.eqb c "@"))) in
  Seqs [part; Lit "@"; part; Lit "."; part].

(** [/^\+?[\d\s\-\(\)]{10,}$/] *)
Definition phoneRegex : regex :=
  Seq (Opt (Lit "+"))
      (AtLeast 10 (Cls (fun c => is_digit c || is_space c ||
                                 existsb (Ascii.eqb c) ["-"; "("; ")"]%char))).

(** [/^[a-zA-Z0-9]+$/] *)
Definition alphanumericRegex : regex :=
  Plus (Cls (fun c => in_range "a" "z" c || in_range "A" "Z" c || is_digit c)).

(** [/^[a-zA-Z\s]{2,50}$/] *)
Definition nameRegex : regex :=
  Range 2 50 (Cls (fun c => in_range "a" "z" c || in_range "A" "Z" c || is_space c)).

Definition validators (k : kind) (v : string) : bool :=
  match k with
  | email => test_anchored emailRegex v
  | phoneNumber => test_anchored phoneRegex v
  | alphanumeric => test_anchored alphanumericRegex v
  | name => test_anchored nameRegex v
  end.

(** A number spliced into a template literal. *)
Definition show_nat (n : nat) : string := NilZero.string_of_uint (Nat.to_uint n).

(** Truthiness of an optional numeric rule. *)
Definition positive_rule (o : option nat) : option nat :=
  match o with
  | Some (S n) => Some (S n)
  | _ => None
  end.

(** Two conversions of the language that the validator reaches on values
    that are not strings, and whose definition is long, are taken as
    given: the text of a number ([Number::toString]), and the comparisons
    [w < n] and [w > n] of a JSON value [w] with a number, which convert
    [w] to a number first and are [None] when that conversion throws.
    What is proved about the validator holds for all of them.  A number
    that is not integral has no [JNum] of its own; what is proved covers
    it through any [JNum n], [n] not zero, whose text [number_text] is
    taken to be the text of that number. *)
Record conversions : Type := {
  number_text : Z -> string;
  below : value -> nat -> option bool;
  above : value -> nat -> option bool
}.

(** The first property with the key [k]. *)
Fixpoint find_key {A : Type} (k : string) (props : list (string * A)) : option A :=
  match props with
  | [] => None
  | (k', v) :: rest => if String.eqb k' k then Some v else find_key k rest
  end.

(** The properties every object inherits from [Object.prototype]: the
    methods with the number of their parameters (their [length]), and
    the accessor [__proto__], which yields the prototype itself. *)
Definition prototype_members : list (string * option nat) :=
  [("constructor", Some 1%nat); ("hasOwnProperty", Some 1%nat);
   ("isPrototypeOf", Some 1%nat); ("propertyIsEnumerable", Some 1%nat);
   ("toLocaleString", Some 0%nat); ("toString", Some 0%nat); ("valueOf", Some 0%nat);
   ("__defineGetter__", Some 2%nat); ("__defineSetter__", Some 2%nat);
   ("__lookupGetter__", Some 1%nat); ("__lookupSetter__", Some 1%nat);
   ("__proto__", None)].

(** What [req.body[field]] evaluates to: [undefined], the value of an own
    property, or a member inherited from [Object.prototype]. *)
Inductive looked : Type :=
| Absent
| Own (v : value)
| Member (member : string) (arity : option nat).

(** [req.body[field]], for a body that is an object with the own
    properties [body] and the prototype [Object.prototype] (what
    [express.json] and [express.urlencoded] build). *)
Definition lookup_field (body : list (string * value)) (field : string) : looked :=
  match find_key field body with
  | Some v => Own v
  | None =>
      match find_key field prototype_members with
      | Some arity => Member field arity
      | None => Absent
      end
  end.

(** Truthiness of a value ([ToBoolean]). *)
Definition to_boolean (value : looked) : bool :=
  match value with
  | Absent => false
  | Own JUndefined | Own JNull => false
  | Own (JBool b) => b
  | Own (JNum n) => negb (n =? 0)%Z
  | Own (JStr s) => truthy s
  | Own (JArr _) | Own (JObj _) => true
  | Member _ _ => true
  end.

(** The text a value is converted to when a regular expression is tested
    on it ([ToString]); [None] when the conversion throws a [TypeError].
    An array is joined with commas, [null] and [undefined] elements being
    empty; an object has the text of [Object.prototype.toString] unless
    an own property hides that method, and then cannot be converted. *)
Fixpoint value_text (js : conversions) (v : value) : option string :=
  match v with
  | JUndefined => Some "undefined"
  | JNull => Some "null"
  | JBool b => Some (if b then "true" else "false")
  | JNum n => Some (number_text js n)
  | JStr s => Some s
  | JArr items =>
      (fix join (xs : list value) : option string :=
         match xs with
         | [] => Some ""
         | x :: rest =>
             match (match x with
                    | JUndefined | JNull => Some ""
                    | _ => value_text js x
                    end) with
             | None => None
             | Some a =>
                 match rest with
                 | [] => Some a
                 | _ :: _ =>
                     match join rest with
                     | None => None
                     | Some b => Some (a +:+ "," +:+ b)
                     end
                 end
             end
         end) items
  | JObj props =>
      match find_key "toString" props with
      | Some _ => None
      | None => Some "[object Object]"
      end
  end.

(** The text of an inherited member: the source text of a built-in
    function, or of the prototype object. *)
Definition member_text (member : string) (arity : option nat) : string :=
  match arity with
  | Some _ =>
      "function " +:+ (if String.eqb member "constructor" then "Object" else member)
      +:+ "() { [native code] }"
  | None => "[object Object]"
  end.

Definition looked_text (js : conversions) (value : looked) : option string :=
  match value with
  | Absent => Some "undefined"
  | Own v => value_text js v
  | Member member arity => Some (member_text member arity)
  end.

(** [value.length < n] and [value.length > n] for a truthy value.  A
    string and an array have a length, a function has the number of its
    parameters; an object has the one an own property gives it; for any
    other value [value.length] is [undefined] and both comparisons are
    false. *)
Definition length_below (js : conversions) (value : looked) (n : nat) : option bool :=
  match value with
  | Own (JStr s) => Some (String.length s <? n)%nat
  | Own (JArr items) => Some (length items <? n)%nat
  | Own (JObj props) =>
      match find_key "length" props with
      | Some w => below js w n
      | None => Some false
      end
  | Member _ (Some arity) => Some (arity <? n)%nat
  | _ => Some false
  end.

Definition length_above (js : conversions) (value : looked) (n : nat) : option bool :=
  match value with
  | Own (JStr s) => Some (n <? String.length s)%nat
  | Own (JArr items) => Some (n <? length items)%nat
  | Own (JObj props) =>
      match find_key "length" props with
      | Some w => above js w n
      | None => Some false
      end
  | Member _ (Some arity) => Some (n <? arity)%nat
  | _ => Some false
  end.

(** The three checks that follow the [required] check, each an [if]
    that may push one message; [None] when the check throws. *)
Definition check_format (js : conversions) (field : string) (r : rules) (value : looked)
  : option (list string) :=
  if to_boolean value then
    match type r with
    | Some k =>
        text ← looked_text js value;
        Some (if validators k text then [] else [field +:+ " has invalid format"])
    | None => Some []
    end
  else Some [].

Definition check_minLength (js : conversions) (field : string) (r : rules) (value : looked)
  : option (list string) :=
  if to_boolean value then
    match positive_rule (minLength r) with
    | Some n =>
        short ← length_below js value n;
        Some (if short : bool
              then [field +:+ " must be at least " +:+ show_nat n +:+ " characters"]
              else [])
    | None => Some []
    end
  else Some [].

Definition check_maxLength (js : conversions) (field : string) (r : rules) (value : looked)
  : option (list string) :=
  if to_boolean value then
    match positive_rule (maxLength r) with
    | Some n =>
        long ← length_above js value n;
        Some (if long : bool
              then [field +:+ " must be no more than " +:+ show_nat n +:+ " characters"]
              else [])
    | None => Some []
    end
  else Some [].

(** [!value || value.trim() === '']: [None] when [value] is truthy and
    has no method [trim], which only strings have. *)
Definition is_blank (value : looked) : option bool :=
  if negb (to_boolean value) then Some true
  else
    match value with
    | Own (JStr s) => Some (String.eqb (trim s) "")
    | _ => None
    end.

(** The three later checks, run one after the other: the format, the
    minimum length, the maximum length. *)
Definition later_checks (js : conversions) (field : string) (r : rules) (value : looked)
  : option (list string) :=
  format ← check_format js field r value;
  short ← check_minLength js field r value;
  long ← check_maxLength js field r value;
  Some (format ++ short ++ long)%list.

(** The body of the loop for one field: the messages it pushes, or
    [None] when it throws. *)
Definition check_field (js : conversions) (field : string) (r : rules) (value : looked)
  : option (list string) :=
  blank ← (if required r then is_blank value else Some false);
  if blank : bool then Some [field +:+ " is required"]
  else later_checks js field r value.

(** The [errors] array once the loop over
    [Object.entries(validationRules)] has ended, or [None] when an
    iteration has thrown.  [body] holds the own properties of
    [req.body]. *)
Fixpoint collect (js : conversions) (validationRules : list (string * rules))
  (body : list (string * value)) (errors : list string) : option (list string) :=
  match validationRules with
  | [] => Some errors
  | (field, r) :: rest =>
      pushed ← check_field js field r (lookup_field body field);
      collect js rest body (errors ++ pushed)%list
  end.

Inductive outcome : Type :=
| Next
| Status400 (errors : list string)
| Threw.                        (* TypeError, passed to the error handler *)

(** The middleware [createValidator(validationRules)] returns. *)
Definition createValidator (js : conversions) (validationRules : list (string * rules))
  (body : list (string * value)) : outcome :=
  match collect js validationRules body [] with
  | None => Threw
  | Some errors => if (0 <? length errors)%nat then Status400 errors else Next
  end.

(** The rule set [{name: {required: true, minLength: 2}}]. *)
Definition name_rule : list (string * rules) :=
  [("name", {| required := true; type := None;
               minLength := Some 2%nat; maxLength := None |})].

(** A rule set whose second field can fail the three later checks at
    once:
    [{name: {required: true, minLength: 2},
      code: {required: true, type: 'alphanumeric', minLength: 5, maxLength: 2}}]. *)
Definition code_rule : list (string * rules) :=
  name_rule ++
  [("code", {| required := true; type := Some alphanumeric;
               minLength := Some 5%nat; maxLength := Some 2%nat |})].

(** What a rule asks of the value of its field.  A required field must
    be a string that is not blank.  A truthy value must, as text, pass
    the validator of the rule's type, and have a length of at least
    [minLength] and at most [maxLength]; a missing rule, or one that is
    zero, asks nothing. *)
Definition field_ok (js : conversions) (r : rules) (value : looked) : Prop :=
  (required r = true -> exists s, value = Own (JStr s) /\ trim s <> "")
  /\ (to_boolean value = true ->
      (forall k, type r = Some k ->
         exists text, looked_text js value = Some text /\ validators k text = true)
      /\ (forall n, minLength r = Some (S n) -> length_below js value (S n) = Some false)
      /\ (forall n, maxLength r = Some (S n) -> length_above js value (S n) = Some false)).

(** When the check of a field throws: the value is truthy and either the
    field is required and the value is not a string (it has no [trim]),
    or the required check passes and one of the later checks cannot
    convert the value. *)
Definition field_throws (js : conversions) (r : rules) (value : looked) : Prop :=
  to_boolean value = true
  /\ ((required r = true /\ forall s, value <> Own (JStr s))
      \/ ((required r = true -> exists s, value = Own (JStr s) /\ trim s <> "")
          /\ ((exists k, type r = Some k /\ looked_text js value = None)
              \/ (exists n, minLength r = Some (S n)
                            /\ length_below js value (S n) = None)
              \/ (exists n, maxLength r = Some (S n)
                            /\ length_above js value (S n) = None)))).

(** The rules of the contact form ([POST /api/contact]). *)
Definition contactValidation : list (string * rules) :=
  [("name", {| required := true; type := Some name;
               minLength := Some 2%nat; maxLength := Some 50%nat |});
   ("email", {| required := true; type := Some email;
                minLength := None; maxLength := None |});
   ("message", {| required := true; type := None;
                  minLength := Some 10%nat; maxLength := Some 1000%nat |})].
End Validator.

(* ===================================================================== *)
(** ** middleware/ipBlacklist.js *)
(* ===================================================================== *)

Module IpBlacklist.
Import Js Express Regex.

(** The operands of the [||] chain of [getClientIP], in order. *)
Definition forwarded_for (req : request) : option string :=
  (fun h => trim (first_entry h)) <$> (headers req !! "x-forwarded-for").

Definition real_ip (req : request) : option string := headers req !! "x-real-ip".

Definition connection_address (req : request) : option string :=
  req_connection req ≫= remoteAddress.

Definition socket_address (req : request) : option string :=
  req_socket req ≫= peer_remoteAddress.

Definition connection_socket_address (req : request) : option string :=
  (req_connection req ≫= conn_socket) ≫= peer_remoteAddress.

Definition getClientIP (req : request) : string :=
  default "0.0.0.0"
    (or_else (ip req)
    (or_else (forwarded_for req)
    (or_else (real_ip req)
    (or_else (connection_address req)
    (or_else (socket_address req)
    (or_else (connection_socket_address req)
             (Some "0.0.0.0"))))))).

(** The two module-level sets. *)
Record store : Type := {
  blacklistedIPs : gset string;
  whitelistedIPs : gset string
}.

Definition initial : store := {|
  blacklistedIPs := {["192.168.1.100"; "10.0.0.5"; "127.0.0.2"]};
  whitelistedIPs := {["127.0.0.1"; "::1"; "::ffff:127.0.0.1"]}
|}.

Inductive verdict : Type :=
| Next            (* the request goes on to the next middleware *)
| Forbidden.      (* status 403 with the message Access denied *)

Definition ipBlacklist (st : store) (req : request) : verdict :=
  let clientIP := getClientIP req in
  if decide (clientIP ∈ whitelistedIPs st) then Next
  else if decide (clientIP ∈ blacklistedIPs st) then Forbidden
  else Next.

(** The three errors the administrative functions throw. *)
Inductive error : Type :=
| InvalidAddress          (* Invalid IP address *)
| InvalidAddressFormat    (* Invalid IP address format *)
| WhitelistConflict.      (* Cannot blacklist whitelisted IP *)

Definition message (e : error) : string :=
  match e with
  | InvalidAddress => "Invalid IP address"
  | InvalidAddressFormat => "Invalid IP address format"
  | WhitelistConflict => "Cannot blacklist whitelisted IP"
  end.

(** [/^(\d{1,3}\.){3}\d{1,3}$/] *)
Definition ipv4Regex : regex :=
  Seq (Rep 3 (Seq (Range 1 3 (Cls is_digit)) (Lit ".")))
      (Range 1 3 (Cls is_digit)).

(** [/^[0-9a-fA-F:]+$/] *)
Definition ipv6Regex : regex :=
  Plus (Cls (fun c => is_digit c || in_range "a" "f" c || in_range "A" "F" c
                      || Ascii.eqb c ":")).

(** The format check of [addToBlacklist]. *)
Definition well_formed (a : string) : bool :=
  test_anchored ipv4Regex a || test_anchored ipv6Regex a.

(** [!ip || typeof ip !== 'string'] leaves only the non-empty strings. *)
Definition as_address (ip : value) : option string :=
  match ip with
  | JStr s => if truthy s then Some s else None
  | _ => None
  end.

(** How a call of an administrative function ends. *)
Inductive result : Type :=
| Throws (e : error)
| Returns (b : bool).

(** Both functions give the way the call ends and the store after it. *)
Definition addToBlacklist (ip : value) (st : store) : result * store :=
  match as_address ip with
  | None => (Throws InvalidAddress, st)
  | Some a =>
      if negb (test_anchored ipv4Regex a) && negb (test_anchored ipv6Regex a)
      then (Throws InvalidAddressFormat, st)
      else if decide (a ∈ whitelistedIPs st) then (Throws WhitelistConflict, st)
      else
        let wasAdded := bool_decide (a ∉ blacklistedIPs st) in
        (Returns wasAdded,
         {| blacklistedIPs := blacklistedIPs st ∪ {[a]};
            whitelistedIPs := whitelistedIPs st |})
  end.

Definition removeFromBlacklist (ip : value) (st : store) : result * store :=
  match as_address ip with
  | None => (Throws InvalidAddress, st)
  | Some a =>
      let wasRemoved := bool_decide (a ∈ blacklistedIPs st) in
      (Returns wasRemoved,
       {| blacklistedIPs := blacklistedIPs st ∖ {[a]};
          whitelistedIPs := whitelistedIPs st |})
  end.

Definition isBlacklisted (a : string) (st : store) : bool :=
  bool_decide (a ∈ blacklistedIPs st).

(** The operands of [getClientIP] as a list, most preferred first. *)
Definition candidates (req : request) : list (option string) :=
  [ip req; forwarded_for req; real_ip req; connection_address req;
   socket_address req; connection_socket_address req].

(** The first operand that is not [undefined]. *)
Fixpoint first_defined (cs : list (option string)) : option string :=
  match cs with
  | [] => None
  | Some s :: _ => Some s
  | None :: cs' => first_defined cs'
  end.

(** A request behind a proxy whose forwarded-for header starts with a
    blank entry. *)
Definition blank_forwarded : request :=
  {| ip := None;
     headers := {[ "x-forwarded-for" := " ,10.0.0.1"; "x-real-ip" := "9.9.9.9" ]};
     req_connection := None;
     req_socket := None |}.


(** The order in which [sort()] without a comparator puts strings: by
    code units, a proper prefix first. *)
Definition string_le (a b : string) : Prop := String.leb a b = true.

#[global] Instance string_le_dec : RelDecision string_le.
Proof. intros a b. unfold string_le. apply _. Defined.

(** [getBlacklistedIPs]: the members of the set, sorted.  The result of
    sorting distinct strings does not depend on the order in which the set
    yields them. *)
Definition getBlacklistedIPs (st : store) : list string :=
  merge_sort string_le (elements (blacklistedIPs st)).

(** [clearBlacklist]: the number of addresses removed and the store left. *)
Definition clearBlacklist (st : store) : nat * store :=
  (size (blacklistedIPs st),
   {| blacklistedIPs := ∅; whitelistedIPs := whitelistedIPs st |}).

(** The calls that change the sets. *)
Inductive command : Type :=
| CallAdd (ip : value)
| CallRemove (ip : value)
| CallClear.

Definition execute (st : store) (c : command) : store :=
  match c with
  | CallAdd ip => snd (addToBlacklist ip st)
  | CallRemove ip => snd (removeFromBlacklist ip st)
  | CallClear => snd (clearBlacklist st)
  end.

(** The store after a series of calls made on the sets the module starts
    with. *)
Definition after (cs : list command) : store := fold_left execute cs initial.

(** What the administrative calls keep true of the two sets: the
    whitelist is the one the module starts with, no address is in both
    sets, and every blacklisted address passes the format check. *)
Definition consistent (st : store) : Prop :=
  whitelistedIPs st = whitelistedIPs initial
  /\ blacklistedIPs st ## whitelistedIPs st
  /\ forall a, a ∈ blacklistedIPs st -> well_formed a = true.

(** One to three decimal digits. *)
Definition digit_group (g : string) : Prop :=
  (1 <= String.length g <= 3)%nat /\ all_in is_digit g = true.

(** The characters of the second format pattern: hexadecimal digits and
    the colon. *)
Definition hex_or_colon (c : ascii) : bool :=
  is_digit c || in_range "a" "f" c || in_range "A" "F" c || Ascii.eqb c ":".
End IpBlacklist.

(* ===================================================================== *)
(** ** middleware/rateLimiter.js *)
(* ===================================================================== *)

Module RateLimiter.
Import Js Express.

(** The fields of [RATE_LIMIT_CONFIG] the algorithm reads. *)
Record config : Type := {
  windowMs : Z;
  maxRequests : nat
}.

Definition RATE_LIMIT_CONFIG : config :=
  {| windowMs := 10 * 60 * 1000; maxRequests := 1000 |}.

Record clientData : Type := {
  requests : list Z;
  count : nat;
  resetTime : Z
}.

(** The headers and the body details of a response. *)
Record limited : Type := {
  limit : nat;
  reset : Z;            (* X-RateLimit-Reset, as an instant *)
  retryAfter : Z        (* Retry-After and details.retryAfter *)
}.

Record passed : Type := {
  passed_limit : nat;
  remaining : Z;
  passed_reset : Z
}.

Inductive outcome : Type :=
| Threw                         (* TypeError: property of undefined *)
| TooManyRequests (r : limited) (* status 429 *)
| Next (h : passed).

(** [Math.ceil(a / b)] on integers, [b] positive. *)
Definition ceil_div (a b : Z) : Z := (- ((- a) / b))%Z.

(** [req.ip || req.connection.remoteAddress || req.socket.remoteAddress]:
    [None] when reading a property of an undefined object throws, else
    the key, which may itself be [undefined]. *)
Definition client_key (req : request) : option (option string) :=
  if is_truthy (ip req) then Some (ip req)
  else
    c ← req_connection req;
    if is_truthy (remoteAddress c) then Some (remoteAddress c)
    else
      p ← req_socket req;
      Some (peer_remoteAddress p).

(** The timestamps the filter keeps: those after [windowStart]. *)
Definition in_window (cfg : config) (now : Z) (ts : list Z) : list Z :=
  filter (λ timestamp, (now - windowMs cfg < timestamp)%Z) ts.

(** [data.requests.length === 0 || Math.max(...data.requests) < cutoff] *)
Definition stale (cutoff : Z) (data : clientData) : bool :=
  match requests data with
  | [] => true
  | t :: ts => (fold_left Z.max ts t <? cutoff)%Z
  end.

(** [cleanupOldEntries], run at the instant [now]. *)
Definition cleanupOldEntries (cfg : config) (now : Z)
  (rateStore : gmap (option string) clientData) : gmap (option string) clientData :=
  let cutoff := (now - windowMs cfg)%Z in
  filter (λ entry, stale cutoff (snd entry) = false) rateStore.

(** One call of the middleware.  [now] is the value of [Date.now()];
    [sweep] is [Some t] when the random draw falls below 0.01, [t] being
    the value of [Date.now()] inside [cleanupOldEntries]. *)
Definition rateLimiter (cfg : config) (req : request) (now : Z) (sweep : option Z)
  (rateStore : gmap (option string) clientData)
  : gmap (option string) clientData * outcome :=
  match client_key req with
  | None => (rateStore, Threw)
  | Some clientIP =>
      let windowStart := (now - windowMs cfg)%Z in
      let created :=
        match rateStore !! clientIP with
        | Some data => data
        | None => {| requests := []; count := 0;
                     resetTime := (now + windowMs cfg)%Z |}
        end in
      let kept := in_window cfg now (requests created) in
      let purged := {| requests := kept; count := length kept;
                       resetTime := resetTime created |} in
      let rateStore := <[clientIP := purged]> rateStore in
      if (maxRequests cfg <=? count purged)%nat then
        let resetTime := ceil_div (windowStart + windowMs cfg - now) 1000 in
        (rateStore,
         TooManyRequests {| limit := maxRequests cfg;
                            reset := (windowStart + windowMs cfg)%Z;
                            retryAfter := resetTime |})
      else
        let pushed := {| requests := kept ++ [now];
                         count := length (kept ++ [now]);
                         resetTime := resetTime created |} in
        let rateStore := <[clientIP := pushed]> rateStore in
        let remaining :=
          Z.max 0 (Z.of_nat (maxRequests cfg) - Z.of_nat (count pushed)) in
        let rateStore :=
          match sweep with
          | Some t => cleanupOldEntries cfg t rateStore
          | None => rateStore
          end in
        (rateStore,
         Next {| passed_limit := maxRequests cfg; remaining := remaining;
                 passed_reset := (windowStart + windowMs cfg)%Z |})
  end.

(** [resetRateLimit] *)
Definition resetRateLimit (k : string)
  (rateStore : gmap (option string) clientData)
  : bool * gmap (option string) clientData :=
  (bool_decide (is_Some (rateStore !! Some k)), delete (Some k) rateStore).

(** What happens to the rate store over time. *)
Inductive event : Type :=
| Call (req : request) (now : Z) (sweep : option Z)
| Reset (k : string).

Definition step (cfg : config) (rateStore : gmap (option string) clientData)
  (e : event) : gmap (option string) clientData :=
  match e with
  | Call req now sweep => fst (rateLimiter cfg req now sweep rateStore)
  | Reset k => snd (resetRateLimit k rateStore)
  end.

(** The store after a history that starts with the empty store. *)
Definition run (cfg : config) (history : list event)
  : gmap (option string) clientData :=
  fold_left (step cfg) history ∅.

(** A request whose only address is [req.ip]. *)
Definition from_ip (a : string) : request :=
  {| ip := Some a; headers := ∅; req_connection := None; req_socket := None |}.

(** A thousand requests of one client at the same instant, under the
    configuration of the source. *)
Definition burst_instant : Z := 1700000000000.

Definition burst : list event :=
  repeat (Call (from_ip "203.0.113.7") burst_instant None) 1000.

(** The timestamps a record holds when the middleware reads it; a
    missing record is created empty. *)
Definition held (rateStore : gmap (option string) clientData) (k : option string)
  : list Z :=
  match rateStore !! k with
  | Some d => requests d
  | None => []
  end.

(** A small configuration: two requests per second. *)
Definition two_per_second : config := {| windowMs := 1000; maxRequests := 2 |}.

(** Every record holds at most [maxRequests] timestamps, and [count] is
    their number. *)
Definition bounded (cfg : config) (rateStore : gmap (option string) clientData) : Prop :=
  forall k d, rateStore !! k = Some d ->
    (length (requests d) <= maxRequests cfg)%nat /\ count d = length (requests d).


(** The responses the middleware gives along a history, one for each
    call, in order. *)
Fixpoint outcomes (cfg : config) (rateStore : gmap (option string) clientData)
  (history : list event) : list outcome :=
  match history with
  | [] => []
  | Call req now sweep :: rest =>
      snd (rateLimiter cfg req now sweep rateStore)
      :: outcomes cfg (fst (rateLimiter cfg req now sweep rateStore)) rest
  | Reset k :: rest => outcomes cfg (snd (resetRateLimit k rateStore)) rest
  end.

Definition is_next (o : outcome) : bool :=
  match o with
  | Next _ => true
  | _ => false
  end.

(** The calls of one client: the instants and the sweeps. *)
Definition calls_of (req : request) (calls : list (Z * option Z)) : list event :=
  List.map (fun c => Call req (fst c) (snd c)) calls.

(** Whether an event is a call of the client with key [k] or a reset of
    that key. *)
Definition concerns (k : option string) (e : event) : bool :=
  match e with
  | Call req _ _ => bool_decide (client_key req = Some k)
  | Reset k' => bool_decide (Some k' = k)
  end.

(** The responses to the calls of the client with key [k] along a
    history. *)
Fixpoint responses_to (k : option string) (cfg : config)
  (rateStore : gmap (option string) clientData) (history : list event) : list outcome :=
  match history with
  | [] => []
  | Call req now sweep :: rest =>
      (if bool_decide (client_key req = Some k)
       then [snd (rateLimiter cfg req now sweep rateStore)] else [])
      ++ responses_to k cfg (fst (rateLimiter cfg req now sweep rateStore)) rest
  | Reset k' :: rest => responses_to k cfg (snd (resetRateLimit k' rateStore)) rest
  end.

(** The clock does not run backwards along a history: every call comes
    no earlier than [t], the latest instant read so far. *)
Fixpoint clock_from (t : Z) (history : list event) : Prop :=
  match history with
  | [] => True
  | Call _ now sweep :: rest =>
      (t <= now)%Z
      /\ clock_from (match sweep with
                     | Some u => Z.max now u
                     | None => now
                     end) rest
  | Reset _ :: rest => clock_from t rest
  end.

(** Two stores give the client with key [k] the same window at every
    instant from [t] on. *)
Definition same_window (cfg : config) (k : option string) (t : Z)
  (s1 s2 : gmap (option string) clientData) : Prop :=
  forall now, (t <= now)%Z ->
    in_window cfg now (held s1 k) = in_window cfg now (held s2 k).
End RateLimiter.

(* ===================================================================== *)
(** ** middleware/auth.js *)
(* ===================================================================== *)

Module Auth.
Import Js Express.

(** [s.split(sep)] for a separator of one character: the fields between
    the separators, at least one. *)
Fixpoint split_on (sep : ascii) (s : string) : list string :=
  match s with
  | EmptyString => [EmptyString]
  | String c s' =>
      if Ascii.eqb c sep then EmptyString :: split_on sep s'
      else match split_on sep s' with
           | f :: fs => String c f :: fs
           | [] => [String c EmptyString]
           end
  end.

(** [fields.join(sep)] *)
Fixpoint join (sep : ascii) (fields : list string) : string :=
  match fields with
  | [] => EmptyString
  | [f] => f
  | f :: fs => f +:+ String sep (join sep fs)
  end.

(** [process.env.ADMIN_API_KEY || 'admin-secret-key-2024'] *)
Definition ADMIN_API_KEY (env : option string) : string :=
  default "admin-secret-key-2024" (or_else env (Some "admin-secret-key-2024")).

Inductive admin_verdict : Type :=
| HeaderRequired     (* 401, Authorization header required *)
| InvalidFormat      (* 401, Invalid authorization format *)
| InvalidKey         (* 403, Invalid API key *)
| Granted.           (* req.isAdmin = true; next() *)

(** [requireAdmin], given the key and [req.headers.authorization]. *)
Definition requireAdmin (key : string) (authHeader : option string) : admin_verdict :=
  match authHeader with
  | None => HeaderRequired
  | Some h =>
      if negb (truthy h) then HeaderRequired
      else
        match split_on " " h !! 1%nat with
        | None => InvalidFormat
        | Some token =>
            if negb (truthy token) then InvalidFormat
            else if String.eqb token key then Granted
            else InvalidKey
        end
  end.

Definition ADMIN_RATE_LIMIT : nat := 50.
Definition ADMIN_WINDOW : Z := 60 * 60 * 1000.

Inductive admin_rate_verdict : Type :=
| AdminLimitExceeded   (* 429, Admin rate limit exceeded *)
| AdminNext.

(** [adminRateLimit]: the map [adminRequests] before and after, keyed by
    [req.ip], which may be undefined. *)
Definition adminRateLimit (req : request) (now : Z)
  (adminRequests : gmap (option string) (list Z))
  : gmap (option string) (list Z) * admin_rate_verdict :=
  let ip := ip req in
  let windowStart := (now - ADMIN_WINDOW)%Z in
  let ipData := default [] (adminRequests !! ip) in
  let ipData := filter (λ timestamp, (windowStart < timestamp)%Z) ipData in
  if (ADMIN_RATE_LIMIT <=? length ipData)%nat then (adminRequests, AdminLimitExceeded)
  else (<[ip := (ipData ++ [now])%list]> adminRequests, AdminNext).

(** The map after a series of requests, each with its instant. *)
Definition admin_run (history : list (request * Z)) : gmap (option string) (list Z) :=
  fold_left (fun m e => fst (adminRateLimit (fst e) (snd e) m)) history ∅.

End Auth.

(* ===================================================================== *)
(** ** routes/admin.js and the order of the middleware in app.js *)
(* ===================================================================== *)

Module Routes.
Import Js Express Sanitizer IpBlacklist RateLimiter Auth.

(** Truthiness of a value. *)
Definition truthy_value (v : value) : bool :=
  match v with
  | JUndefined | JNull => false
  | JBool b => b
  | JNum n => negb (n =? 0)%Z
  | JStr s => truthy s
  | JArr _ | JObj _ => true
  end.

(** What a handler of the blacklist routes answers: the status and the
    message. *)
Record answer : Type := {
  status : nat;
  text : string
}.

(** [POST /api/admin/blacklist], given [req.body.ip]. *)
Definition post_blacklist (ip : value) (st : store) : answer * store :=
  if negb (truthy_value ip) then ({| status := 400; text := "IP address is required" |}, st)
  else
    match addToBlacklist ip st with
    | (Returns wasAdded, st') =>
        ({| status := 200;
            text := if wasAdded then "IP added to blacklist" else "IP already blacklisted" |},
         st')
    | (Throws e, st') => ({| status := 400; text := message e |}, st')
    end.

(** [DELETE /api/admin/blacklist/:ip], given [req.params.ip]. *)
Definition delete_blacklist (ip : string) (st : store) : answer * store :=
  match removeFromBlacklist (JStr ip) st with
  | (Returns wasRemoved, st') =>
      ({| status := 200;
          text := if wasRemoved then "IP removed from blacklist"
                  else "IP not found in blacklist" |},
       st')
  | (Throws e, st') => ({| status := 400; text := message e |}, st')
  end.

(** The requests the admin router serves that change the blacklist. *)
Inductive admin_request : Type :=
| PostBlacklist (ip : value)
| DeleteBlacklist (ip : string).

(** The admin router: [requireAdmin] first, then the route.  [None] is
    the refusal by [requireAdmin]. *)
Definition admin_router (key : string) (authHeader : option string)
  (r : admin_request) (st : store) : option answer * store :=
  match requireAdmin key authHeader with
  | Granted =>
      match r with
      | PostBlacklist ip => let (a, st') := post_blacklist ip st in (Some a, st')
      | DeleteBlacklist ip => let (a, st') := delete_blacklist ip st in (Some a, st')
      end
  | _ => (None, st)
  end.

(** How the three middleware of app.js, in their order, answer. *)
Inductive reply : Type :=
| Reply403                                  (* the guard refuses *)
| Reply429 (r : limited)                    (* the limiter refuses *)
| ReplyThrew                                (* the limiter threw *)
| Handled (headers : passed) (req : payload). (* the request reaches the routes *)

(** [app.use(ipBlacklist); app.use(rateLimiter); app.use(sanitizer)].
    The request is [req] with its body, query and parameters. *)
Definition pipeline (st : store) (cfg : config) (req : request)
  (body query params : value) (now : Z) (sweep : option Z)
  (rateStore : gmap (option string) clientData)
  : gmap (option string) clientData * reply :=
  match ipBlacklist st req with
  | Forbidden => (rateStore, Reply403)
  | IpBlacklist.Next =>
      match rateLimiter cfg req now sweep rateStore with
      | (rateStore', TooManyRequests r) => (rateStore', Reply429 r)
      | (rateStore', Threw) => (rateStore', ReplyThrew)
      | (rateStore', RateLimiter.Next h) =>
          (rateStore',
           Handled h (sanitizer {| Sanitizer.body := body; Sanitizer.query := query;
                                   Sanitizer.params := params;
                                   req_headers := headers req |}))
      end
  end.

End Routes.

(* ===================================================================== *)
(** ** The matcher and the language of a pattern *)
(* ===================================================================== *)

Module RegexFacts.
Import Js Regex.

(** [+:+] computes on its first argument. *)
Lemma str_app_cons (x : ascii) (a b : string) : String x a +:+ b = String x (a +:+ b).
Proof. reflexivity. Qed.

Lemma str_app_nil_l (b : string) : "" +:+ b = b.
Proof. reflexivity. Qed.

Lemma str_app_assoc (a b c : string) : (a +:+ b) +:+ c = a +:+ (b +:+ c).
Proof.
  induction a as [|x a IH]; [reflexivity|].
  rewrite !str_app_cons, IH. reflexivity.
Qed.

Lemma str_app_nil_r (a : string) : a +:+ "" = a.
Proof.
  induction a as [|x a IH]; [reflexivity|].
  rewrite str_app_cons, IH. reflexivity.
Qed.

Lemma str_length_app (a b : string) :
  String.length (a +:+ b) = (String.length a + String.length b)%nat.
Proof.
  induction a as [|x a IH]; [reflexivity|].
  rewrite str_app_cons. cbn [String.length]. rewrite IH. reflexivity.
Qed.

Lemma bt_star (greedy : bool) (r : regex) (s : string) (k : string -> option string) :
  bt (Star greedy r) s k = star_loop (bt r) greedy k (S (String.length s)) s.
Proof. reflexivity. Qed.

Lemma star_loop_S m greedy k fuel s0 :
  star_loop m greedy k (S fuel) s0
  = let again :=
      m s0 (fun s1 =>
        if (String.length s1 <? String.length s0)%nat
        then star_loop m greedy k fuel s1 else None) in
    if greedy then
      match again with
      | Some out => Some out
      | None => k s0
      end
    else
      match k s0 with
      | Some out => Some out
      | None => again
      end.
Proof. reflexivity. Qed.

(** Whatever the continuation accepts was left by a match of [r] at the
    head of the input. *)
Lemma bt_sound (r : regex) :
  forall s k out,
    bt r s k = Some out ->
    exists s1 s2, s = s1 +:+ s2 /\ Matches r s1 /\ k s2 = Some out.
Proof.
  induction r as [| p | r1 IH1 r2 IH2 | r1 IH1 r2 IH2 | greedy r IH]; intros s k out H.
  - exists "", s. split; [reflexivity|]. split; [constructor | exact H].
  - cbn in H. destruct s as [|c s]; [discriminate|].
    destruct (p c) eqn:Hp; [|discriminate].
    exists (String c ""), s. split; [reflexivity|]. split; [constructor; exact Hp | exact H].
  - cbn in H. apply IH1 in H as (a & s' & -> & Ha & H).
    apply IH2 in H as (b & s2 & -> & Hb & H).
    exists (a +:+ b), s2. split; [symmetry; apply str_app_assoc|].
    split; [constructor; assumption | exact H].
  - cbn in H. destruct (bt r1 s k) as [o|] eqn:H1.
    + injection H as <-. apply IH1 in H1 as (a & s2 & -> & Ha & H).
      exists a, s2. split; [reflexivity|]. split; [apply MAltL; assumption | exact H].
    + apply IH2 in H as (a & s2 & -> & Ha & H).
      exists a, s2. split; [reflexivity|]. split; [apply MAltR; assumption | exact H].
  - rewrite bt_star in H. revert H. generalize (S (String.length s)) as fuel.
    intros fuel. revert s. induction fuel as [|fuel IHf]; intros s H.
    + exists "", s. split; [reflexivity|]. split; [apply MStarNil | exact H].
    + rewrite star_loop_S in H. cbv zeta in H.
      assert (Hagain :
        bt r s (fun s1 =>
                  if (String.length s1 <? String.length s)%nat
                  then star_loop (bt r) greedy k fuel s1 else None) = Some out ->
        exists s1 s2, s = s1 +:+ s2 /\ Matches (Star greedy r) s1 /\ k s2 = Some out).
      { intros Hb. apply IH in Hb as (a & s' & -> & Ha & Hb).
        destruct (String.length s' <? String.length (a +:+ s'))%nat; [|discriminate].
        apply IHf in Hb as (b & s2 & -> & Hb & Hk).
        exists (a +:+ b), s2. split; [symmetry; apply str_app_assoc|].
        split; [apply MStarApp; assumption | exact Hk]. }
      destruct greedy.
      * destruct (bt r s _) as [o|] eqn:Ha.
        -- injection H as <-. apply Hagain. reflexivity.
        -- exists "", s. split; [reflexivity|]. split; [apply MStarNil | exact H].
      * destruct (k s) as [o|] eqn:Hk.
        -- injection H as <-. exists "", s. split; [reflexivity|].
           split; [apply MStarNil | exact Hk].
        -- apply Hagain. exact H.
Qed.

(** A match of [r] at the head of the input that leaves something the
    continuation accepts makes the matcher succeed. *)
Lemma bt_complete (r : regex) :
  forall s1, Matches r s1 ->
  forall s2 k out, k s2 = Some out -> exists out', bt r (s1 +:+ s2) k = Some out'.
Proof.
  induction r as [| p | r1 IH1 r2 IH2 | r1 IH1 r2 IH2 | greedy r IH]; intros s1 HM s2 k out Hk.
  - inversion HM; subst. exists out. exact Hk.
  - inversion HM as [| p' c Hp | | | | |]; subst. exists out.
    rewrite str_app_cons, str_app_nil_l. cbn [bt]. rewrite Hp. exact Hk.
  - inversion HM as [| | r1' r2' a b Ha Hb | | | |]; subst. rewrite str_app_assoc.
    destruct (IH2 _ Hb s2 k out Hk) as [o2 Ho2].
    cbn [bt]. apply (IH1 _ Ha (b +:+ s2) (fun s => bt r2 s k) o2 Ho2).
  - cbn [bt]. inversion HM as [| | | r1' r2' a Ha | r1' r2' a Ha | |]; subst.
    + destruct (IH1 _ Ha s2 k out Hk) as [o1 Ho1]. rewrite Ho1. exists o1. reflexivity.
    + destruct (bt r1 (s1 +:+ s2) k) as [o1|]; [exists o1; reflexivity|].
      apply (IH2 _ Ha s2 k out Hk).
  - rewrite bt_star.
    assert (Hfuel : (String.length (s1 +:+ s2) < S (String.length (s1 +:+ s2)))%nat) by lia.
    revert Hfuel. generalize (S (String.length (s1 +:+ s2))) as fuel.
    remember (Star greedy r) as R eqn:HR. revert HR.
    induction HM as [| | | | | g r' | g r' a b Ha _ Hb IHb]; intros HR; try discriminate.
    + injection HR as -> ->. intros fuel Hfuel.
      destruct fuel as [|fuel]; [lia|]. rewrite star_loop_S. cbv zeta. rewrite str_app_nil_l.
      destruct greedy.
      * destruct (bt r s2 _) as [o|]; [exists o; reflexivity | exists out; exact Hk].
      * rewrite Hk. exists out. reflexivity.
    + injection HR as -> ->. intros fuel Hfuel.
      destruct a as [|c a]; [rewrite str_app_nil_l in *; apply (IHb eq_refl); exact Hfuel|].
      destruct fuel as [|fuel]; [lia|]. rewrite star_loop_S. cbv zeta.
      assert (Hlen : (String.length (b +:+ s2) < fuel)%nat).
      { rewrite str_app_assoc, str_app_cons in Hfuel. cbn [String.length] in Hfuel.
        rewrite str_length_app in Hfuel. lia. }
      destruct (IHb eq_refl fuel Hlen) as [o Ho].
      assert (Hagain : exists o',
        bt r ((String c a +:+ b) +:+ s2)
          (fun s1 =>
             if (String.length s1 <? String.length ((String c a +:+ b) +:+ s2))%nat
             then star_loop (bt r) greedy k fuel s1 else None) = Some o').
      { rewrite str_app_assoc. apply (IH _ Ha (b +:+ s2) _ o).
        assert (Hlt : (String.length (b +:+ s2)
                       <? String.length (String c a +:+ b +:+ s2))%nat = true).
        { apply Nat.ltb_lt. rewrite str_app_cons. cbn [String.length].
          rewrite (str_length_app a). lia. }
        rewrite Hlt. exact Ho. }
      destruct Hagain as [o' Ho'].
      destruct greedy.
      * rewrite Ho'. exists o'. reflexivity.
      * destruct (k ((String c a +:+ b) +:+ s2)) as [ok|];
          [exists ok; reflexivity | exists o'; exact Ho'].
Qed.

(** [test] on an anchored pattern decides membership in its language. *)
Lemma test_anchored_Matches (r : regex) (s : string) :
  test_anchored r s = true <-> Matches r s.
Proof.
  unfold test_anchored. split.
  - destruct (bt r s _) as [o|] eqn:H; [intros _|discriminate].
    apply bt_sound in H as (s1 & s2 & -> & HM & Hk).
    destruct s2; [|discriminate]. rewrite str_app_nil_r. exact HM.
  - intros HM.
    destruct (bt_complete r s HM ""
                (fun rest => match rest with
                             | EmptyString => Some EmptyString
                             | String _ _ => None
                             end) "" eq_refl) as [o Ho].
    rewrite str_app_nil_r in Ho. rewrite Ho. reflexivity.
Qed.


(** *** Languages of the pieces the patterns are made of *)

Lemma Matches_eps (s : string) : Matches Eps s <-> s = "".
Proof. split; [intros H; inversion H; reflexivity | intros ->; constructor]. Qed.

Lemma Matches_cls (p : ascii -> bool) (s : string) :
  Matches (Cls p) s <-> exists c, s = String c "" /\ p c = true.
Proof.
  split.
  - intros H. inversion H as [| p' c Hp | | | | |]; subst. exists c. split; [reflexivity | exact Hp].
  - intros (c & -> & Hp). constructor. exact Hp.
Qed.

Lemma Matches_seq (r1 r2 : regex) (s : string) :
  Matches (Seq r1 r2) s <-> exists s1 s2, s = s1 +:+ s2 /\ Matches r1 s1 /\ Matches r2 s2.
Proof.
  split.
  - intros H. inversion H as [| | r1' r2' a b Ha Hb | | | |]; subst.
    exists a, b. repeat split; assumption.
  - intros (a & b & -> & Ha & Hb). constructor; assumption.
Qed.

Lemma Matches_alt (r1 r2 : regex) (s : string) :
  Matches (Alt r1 r2) s <-> Matches r1 s \/ Matches r2 s.
Proof.
  split.
  - intros H. inversion H; subst; [left | right]; assumption.
  - intros [H|H]; [apply MAltL | apply MAltR]; assumption.
Qed.

(** One character of a class, then whatever [r] matches. *)
Lemma Matches_cls_then (p : ascii -> bool) (r : regex) (s : string) :
  Matches (Seq (Cls p) r) s <-> exists c s', s = String c s' /\ p c = true /\ Matches r s'.
Proof.
  rewrite Matches_seq. split.
  - intros (a & b & -> & Ha & Hb). apply Matches_cls in Ha as (c & -> & Hp).
    exists c, b. repeat split; assumption.
  - intros (c & s' & -> & Hp & Hr). exists (String c ""), s'.
    repeat split; [constructor; exact Hp | exact Hr].
Qed.

Lemma all_in_app (p : ascii -> bool) (a b : string) :
  all_in p (a +:+ b) = all_in p a && all_in p b.
Proof.
  induction a as [|c a IH]; [reflexivity|].
  rewrite str_app_cons. cbn [all_in]. rewrite IH. apply andb_assoc.
Qed.

Lemma Matches_star_cls (greedy : bool) (p : ascii -> bool) (s : string) :
  Matches (Star greedy (Cls p)) s <-> all_in p s = true.
Proof.
  split.
  - intros H. remember (Star greedy (Cls p)) as R eqn:HR. revert HR.
    induction H as [| | | | | g r | g r a b Ha _ Hb IHb]; intros HR; try discriminate.
    + reflexivity.
    + injection HR as -> ->. apply Matches_cls in Ha as (c & -> & Hp).
      rewrite str_app_cons, str_app_nil_l. cbn [all_in]. rewrite Hp, (IHb eq_refl). reflexivity.
  - induction s as [|c s IH]; intros H; [constructor|].
    cbn [all_in] in H. apply andb_true_iff in H as [Hp Hs].
    change (String c s) with (String c "" +:+ s).
    apply MStarApp; [constructor; exact Hp | apply IH; exact Hs].
Qed.

Lemma Matches_rep_cls (p : ascii -> bool) (n : nat) :
  forall s, Matches (Rep n (Cls p)) s <-> String.length s = n /\ all_in p s = true.
Proof.
  induction n as [|n IH]; intros s; cbn [Rep].
  - rewrite Matches_eps. split.
    + intros ->. split; reflexivity.
    + intros [Hlen _]. destruct s; [reflexivity | discriminate].
  - rewrite Matches_cls_then. split.
    + intros (c & s' & -> & Hp & Hr). apply IH in Hr as [Hlen Hall].
      cbn [String.length all_in]. rewrite Hp, Hall, Hlen. split; reflexivity.
    + intros [Hlen Hall]. destruct s as [|c s']; [discriminate|].
      cbn [String.length all_in] in *. apply andb_true_iff in Hall as [Hp Hall].
      exists c, s'. repeat split; [exact Hp|]. apply IH. split; [lia | exact Hall].
Qed.

Lemma Matches_upto_cls (p : ascii -> bool) (n : nat) :
  forall s, Matches (UpTo n (Cls p)) s <-> (String.length s <= n)%nat /\ all_in p s = true.
Proof.
  induction n as [|n IH]; intros s; cbn [UpTo].
  - rewrite Matches_eps. split.
    + intros ->. split; [cbn; lia | reflexivity].
    + intros [Hlen _]. destruct s; [reflexivity | cbn in Hlen; lia].
  - unfold Opt. rewrite Matches_alt, Matches_cls_then, Matches_eps. split.
    + intros [(c & s' & -> & Hp & Hr) | ->].
      * apply IH in Hr as [Hlen Hall]. cbn [String.length all_in]. rewrite Hp, Hall.
        split; [lia | reflexivity].
      * split; [cbn; lia | reflexivity].
    + intros [Hlen Hall]. destruct s as [|c s']; [right; reflexivity|]. left.
      cbn [String.length all_in] in *. apply andb_true_iff in Hall as [Hp Hall].
      exists c, s'. repeat split; [exact Hp|]. apply IH. split; [lia | exact Hall].
Qed.

(** A string splits at any position within it. *)
Lemma split_at (n : nat) : forall s,
  (n <= String.length s)%nat -> exists a b, s = a +:+ b /\ String.length a = n.
Proof.
  induction n as [|n IH]; intros s Hn.
  - exists "", s. split; reflexivity.
  - destruct s as [|c s]; [cbn in Hn; lia|]. cbn [String.length] in Hn.
    destruct (IH s ltac:(lia)) as (a & b & -> & Hlen).
    exists (String c a), b. split; [reflexivity | cbn; lia].
Qed.

Lemma Matches_range_cls (p : ascii -> bool) (lo hi : nat) (s : string) :
  (lo <= hi)%nat ->
  Matches (Range lo hi (Cls p)) s
  <-> (lo <= String.length s <= hi)%nat /\ all_in p s = true.
Proof.
  intros Hlohi. unfold Range. rewrite Matches_seq. split.
  - intros (a & b & -> & Ha & Hb).
    apply Matches_rep_cls in Ha as [Hla Ha]. apply Matches_upto_cls in Hb as [Hlb Hb].
    rewrite str_length_app, all_in_app, Ha, Hb. split; [lia | reflexivity].
  - intros [Hlen Hall]. destruct (split_at lo s ltac:(lia)) as (a & b & -> & Hla).
    rewrite all_in_app in Hall. apply andb_true_iff in Hall as [Ha Hb].
    rewrite str_length_app in Hlen.
    exists a, b. split; [reflexivity|]. split.
    + apply Matches_rep_cls. split; assumption.
    + apply Matches_upto_cls. split; [lia | assumption].
Qed.

Lemma Matches_plus_cls (p : ascii -> bool) (s : string) :
  Matches (Plus (Cls p)) s <-> s <> "" /\ all_in p s = true.
Proof.
  unfold Plus. rewrite Matches_cls_then. split.
  - intros (c & s' & -> & Hp & Hr). apply Matches_star_cls in Hr.
    cbn [all_in]. rewrite Hp, Hr. split; [discriminate | reflexivity].
  - intros [Hne Hall]. destruct s as [|c s']; [congruence|].
    cbn [all_in] in Hall. apply andb_true_iff in Hall as [Hp Hall].
    exists c, s'. repeat split; [exact Hp|]. apply Matches_star_cls. exact Hall.
Qed.

Lemma Matches_atleast_cls (p : ascii -> bool) (lo : nat) (s : string) :
  Matches (AtLeast lo (Cls p)) s <-> (lo <= String.length s)%nat /\ all_in p s = true.
Proof.
  unfold AtLeast. rewrite Matches_seq. split.
  - intros (a & b & -> & Ha & Hb).
    apply Matches_rep_cls in Ha as [Hla Ha]. apply Matches_star_cls in Hb.
    rewrite str_length_app, all_in_app, Ha, Hb. split; [lia | reflexivity].
  - intros [Hlen Hall]. destruct (split_at lo s Hlen) as (a & b & -> & Hla).
    rewrite all_in_app in Hall. apply andb_true_iff in Hall as [Ha Hb].
    exists a, b. split; [reflexivity|]. split.
    + apply Matches_rep_cls. split; assumption.
    + apply Matches_star_cls. assumption.
Qed.

Lemma Matches_lit_then (c : ascii) (r : regex) (s : string) :
  Matches (Seq (Lit c) r) s <-> exists s', s = String c s' /\ Matches r s'.
Proof.
  unfold Lit. rewrite Matches_cls_then. split.
  - intros (x & s' & -> & Hx & Hr). apply Ascii.eqb_eq in Hx. subst x.
    exists s'. split; [reflexivity | exact Hr].
  - intros (s' & -> & Hr). exists c, s'. repeat split; [apply Ascii.eqb_refl | exact Hr].
Qed.
Lemma Matches_lit (c : ascii) (s : string) : Matches (Lit c) s <-> s = String c "".
Proof.
  unfold Lit. rewrite Matches_cls. split.
  - intros (x & -> & Hx). apply Ascii.eqb_eq in Hx. subst x. reflexivity.
  - intros ->. exists c. split; [reflexivity | apply Ascii.eqb_refl].
Qed.


Lemma ci_equal_truthy (w m : string) : ci_equal w m = true -> w <> "" -> m <> "".
Proof. destruct w, m; cbn; congruence. Qed.







End RegexFacts.

(* ===================================================================== *)
(** ** Properties of the sanitizer *)
(* ===================================================================== *)

Module SanitizerFacts.
Import Js Regex RegexFacts Sanitizer.

(** *** Characters that survive the entity encoding *)

Lemma occurs_app c s t : occurs c (s +:+ t) = occurs c s || occurs c t.
Proof.
  induction s as [|x s IH]; simpl; [reflexivity|].
  rewrite IH. apply orb_assoc.
Qed.

(** Replacing every [c] by a text without [c] leaves no [c]. *)
Lemma replace_char_removes c ent s :
  occurs c ent = false -> occurs c (replace_char c ent s) = false.
Proof.
  intros Hent. induction s as [|x s IH]; simpl; [reflexivity|].
  destruct (Ascii.eqb x c) eqn:E.
  - rewrite occurs_app, Hent, IH. reflexivity.
  - simpl. rewrite E, IH. reflexivity.
Qed.

(** Replacing another character by a text without [c] brings no [c]. *)
Lemma replace_char_keeps_absent c d ent s :
  occurs c ent = false -> occurs c s = false ->
  occurs c (replace_char d ent s) = false.
Proof.
  intros Hent. induction s as [|x s IH]; simpl; [reflexivity|].
  intros Hs. apply orb_false_iff in Hs as [Hx Hs].
  destruct (Ascii.eqb x d).
  - rewrite occurs_app, Hent, (IH Hs). reflexivity.
  - simpl. rewrite Hx, (IH Hs). reflexivity.
Qed.




(** *** Values with nothing to clean *)

Lemma harmless_key_safe k :
  harmless_key k = true -> dangerous_key k = false /\ sanitizeString k = k.
Proof.
  unfold harmless_key, dangerous_key. intros H.
  apply andb_true_iff in H as [H Heq]. apply andb_true_iff in H as [Hd Hp].
  apply String.eqb_eq in Heq. rewrite Heq, String.eqb_refl.
  apply negb_true_iff in Hd. apply negb_true_iff in Hp.
  rewrite Hd, Hp. split; reflexivity.
Qed.

Lemma existsb_eqb_false k (l : list string) :
  existsb (String.eqb k) l = false <-> k ∉ l.
Proof.
  induction l as [|x l IH]; simpl.
  - split; [intros _; apply not_elem_of_nil | reflexivity].
  - rewrite orb_false_iff, IH, not_elem_of_cons, String.eqb_neq. reflexivity.
Qed.

Lemma distinct_NoDup (l : list string) : distinct l = true <-> NoDup l.
Proof.
  induction l as [|x l IH]; simpl.
  - split; [intros _; constructor | reflexivity].
  - rewrite andb_true_iff, negb_true_iff, existsb_eqb_false, IH, NoDup_cons.
    reflexivity.
Qed.

Lemma assign_fresh o k v :
  k ∉ List.map fst o -> assign o k v = (o ++ [(k, v)])%list.
Proof.
  induction o as [|[k' v'] o IH]; simpl; intros Hk; [reflexivity|].
  apply not_elem_of_cons in Hk as [Hne Hk].
  destruct (String.eqb k' k) eqn:E.
  - apply String.eqb_eq in E. congruence.
  - rewrite (IH Hk). reflexivity.
Qed.

(** The loop of [deepSanitize] over entries that need no cleaning copies
    them, in order, behind what [sanitized] already holds. *)
Lemma copy_loop (props : list (string * value)) :
  forall acc,
    Forall (fun kv => harmless_key (fst kv) = true /\ fst kv <> "__proto__"
                      /\ deepSanitize (snd kv) = snd kv) props ->
    NoDup (List.map fst acc ++ List.map fst props)%list ->
    fold_left
      (fun sanitized (entry : string * value) =>
         let cleanKey := sanitizeString (fst entry) in
         if dangerous_key (fst entry) then sanitized
         else set_property sanitized cleanKey (deepSanitize (snd entry)))
      props acc = (acc ++ props)%list.
Proof.
  induction props as [|[k v] props IH]; intros acc Hall Hnd; simpl.
  - symmetry. apply app_nil_r.
  - apply Forall_cons in Hall as [(Hk & Hproto & Hv) Hall]. simpl in *.
    destruct (harmless_key_safe k Hk) as [Hsafe Hfix].
    rewrite Hsafe, Hfix, Hv. unfold set_property.
    apply String.eqb_neq in Hproto. rewrite Hproto.
    apply NoDup_app in Hnd as (Hacc & Hdisj & Hprops).
    apply NoDup_cons in Hprops as [Hfresh Hprops].
    rewrite assign_fresh.
    + rewrite IH; [| assumption |].
      * rewrite <- app_assoc. reflexivity.
      * rewrite map_app. simpl. apply NoDup_app. split; [|split].
        -- apply NoDup_app. split; [assumption|]. split; [|apply NoDup_singleton].
           intros x Hx Hx'. apply list_elem_of_singleton in Hx'. subst x.
           apply (Hdisj k Hx). left.
        -- intros x Hx Hx'. apply elem_of_app in Hx as [Hx|Hx].
           ++ apply (Hdisj x Hx). right. assumption.
           ++ apply list_elem_of_singleton in Hx. subst x. contradiction.
        -- assumption.
    + intros Hin. apply (Hdisj k Hin). left.
Qed.

(** The sanitizer returns a value with nothing to clean as it is,
    provided that no object of it has an own property [__proto__]. *)
Lemma deepSanitize_round_trip (v : value) :
  harmless v = true -> distinct_keys v = true -> proto_free v = true ->
  deepSanitize v = v.
Proof.
  induction v as [| | b | n | s | items IH | props IH] using value_rect';
    simpl; intros Hh Hd Hp; try reflexivity.
  - apply String.eqb_eq in Hh. rewrite Hh. reflexivity.
  - f_equal. induction IH as [|x items Hx _ IHitems]; simpl; [reflexivity|].
    simpl in Hh, Hd, Hp.
    apply andb_true_iff in Hh as [Hh1 Hh2]. apply andb_true_iff in Hd as [Hd1 Hd2].
    apply andb_true_iff in Hp as [Hp1 Hp2].
    rewrite Hx by assumption. rewrite IHitems by assumption. reflexivity.
  - f_equal. apply andb_true_iff in Hd as [Hnd Hd].
    rewrite copy_loop; [reflexivity | | simpl; apply distinct_NoDup; assumption].
    clear Hnd. induction IH as [|[k x] props Hx _ IHprops]; [constructor|].
    simpl in Hh, Hd, Hp, Hx.
    apply andb_true_iff in Hh as [Hh1 Hh2]. apply andb_true_iff in Hh1 as [Hk Hh1].
    apply andb_true_iff in Hd as [Hd1 Hd2].
    apply andb_true_iff in Hp as [Hp1 Hp2]. apply andb_true_iff in Hp1 as [Hpk Hp1].
    constructor.
    + simpl. split; [assumption|]. split.
      * apply negb_true_iff in Hpk. apply String.eqb_neq. assumption.
      * apply Hx; assumption.
    + apply IHprops; assumption.
Qed.

(** *** The claims *)










(** C10.  The string rule is not idempotent: a second pass encodes again
    the ampersand that the first pass wrote, as for the inputs [&] and
    [<]. *)
Theorem sanitizeString_not_idempotent :
  (exists str, sanitizeString (sanitizeString str) <> sanitizeString str)
  /\ sanitizeString "&" = "&amp;"
  /\ sanitizeString (sanitizeString "&") = "&amp;amp;"
  /\ sanitizeString "<" = "&lt;"
  /\ sanitizeString (sanitizeString "<") = "&amp;lt;".
Proof.
  split; [exists "&"; vm_compute; discriminate|].
  vm_compute. repeat split; reflexivity.
Qed.

(** C5, at the input on which the code departs from it.  The object
    [{"__proto__": 1}] has no key that starts with a dollar sign, no
    key with a dot and nothing the string rule alters, and yet the
    sanitizer returns the empty object: the assignment
    [sanitized["__proto__"] = 1] creates no own property. *)
Theorem proto_key_dropped :
  harmless proto_example = true
  /\ distinct_keys proto_example = true
  /\ deepSanitize proto_example = JObj []
  /\ deepSanitize proto_example <> proto_example.
Proof.
  vm_compute. repeat split; try reflexivity. discriminate.
Qed.

End SanitizerFacts.

(* ===================================================================== *)
(** ** Properties of the field validator *)
(* ===================================================================== *)

Module ValidatorFacts.
Import Js Validator.

(** The loop pushes the messages of each field behind those it has. *)
Lemma collect_app js validationRules body :
  forall errors,
    collect js validationRules body errors
    = (pushed ← collect js validationRules body []; Some (errors ++ pushed)%list).
Proof.
  induction validationRules as [|[field r] rest IH]; intros errors; cbn [collect].
  - cbn. rewrite app_nil_r. reflexivity.
  - destruct (check_field js field r (lookup_field body field)) as [msgs|]; cbn; [|reflexivity].
    rewrite (IH (errors ++ msgs)%list), (IH msgs).
    destruct (collect js rest body []) as [more|]; cbn; [|reflexivity].
    rewrite app_assoc. reflexivity.
Qed.

(** The loop ends with the messages of the fields one after the other,
    unless one of the fields throws. *)
Lemma collect_fields js validationRules body :
  collect js validationRules body []
  = @concat string <$> mapM (fun fr => check_field js (fst fr) (snd fr)
                                 (lookup_field body (fst fr))) validationRules.
Proof.
  induction validationRules as [|[field r] rest IH]; [reflexivity|].
  cbn [collect mapM fst snd].
  destruct (check_field js field r (lookup_field body field)) as [msgs|]; cbn; [|reflexivity].
  rewrite collect_app, IH.
  destruct (mapM _ rest) as [more|]; reflexivity.
Qed.

(** The messages a string value yields, spelled out. *)
Lemma check_field_string js field r s :
  check_field js field r (Own (JStr s))
  = Some (if required r && (negb (truthy s) || String.eqb (trim s) "")
          then [field +:+ " is required"]
          else ((match type r with
                 | Some k =>
                     if truthy s && negb (validators k s)
                     then [field +:+ " has invalid format"] else []
                 | None => []
                 end)
                ++ (match minLength r with
                    | Some (S n) =>
                        if truthy s && (String.length s <? S n)%nat
                        then [field +:+ " must be at least " +:+ show_nat (S n)
                              +:+ " characters"]
                        else []
                    | _ => []
                    end)
                ++ (match maxLength r with
                    | Some (S n) =>
                        if truthy s && (S n <? String.length s)%nat
                        then [field +:+ " must be no more than " +:+ show_nat (S n)
                              +:+ " characters"]
                        else []
                    | _ => []
                    end))%list).
Proof.
  unfold check_field, later_checks, is_blank, check_format, check_minLength,
    check_maxLength, positive_rule, looked_text, length_below, length_above, to_boolean, value_text.
  destruct (required r); destruct (truthy s); cbn [negb orb andb];
    try destruct (String.eqb (trim s) ""); cbn [mbind option_bind];
    destruct (type r) as [k|]; try destruct (validators k s);
    destruct (minLength r) as [[|n]|]; try destruct (String.length s <? S n)%nat;
    destruct (maxLength r) as [[|m]|]; try destruct (S m <? String.length s)%nat;
    reflexivity.
Qed.

(** C6.  Under the rule [{name: {required: true, minLength: 2}}] the
    body [{name: ""}] yields the one violation of the required check and
    the body [{name: "A"}] the one violation of the minimum length.  For
    a field the required check comes first and, when it fails, is the
    only message the field gets, whatever its other rules; otherwise the
    format, minimum-length and maximum-length checks follow in this
    order, each adding its message when a value that is not empty fails
    it: the value [a-b] of a field that must be alphanumeric, at least 5
    and at most 2 characters long gets the three messages in this order.
    The messages of all fields are collected, in the order of the
    rules. *)
Theorem required_first_ordering (js : conversions) :
  createValidator js name_rule [("name", JStr "")] = Status400 ["name is required"]
  /\ createValidator js name_rule [("name", JStr "A")]
     = Status400 ["name must be at least 2 characters"]
  /\ createValidator js code_rule [("name", JStr "Al"); ("code", JStr "a-b")]
     = Status400 ["code has invalid format";
                  "code must be at least 5 characters";
                  "code must be no more than 2 characters"]
  /\ createValidator js code_rule [("name", JStr "A"); ("code", JStr "   ")]
     = Status400 ["name must be at least 2 characters"; "code is required"]
  /\ createValidator js code_rule [("code", JStr "abc")]
     = Status400 ["name is required";
                  "code must be at least 5 characters";
                  "code must be no more than 2 characters"]
  /\ (forall field r value,
        required r = true -> to_boolean value = false ->
        check_field js field r value = Some [field +:+ " is required"])
  /\ (forall field r s,
        check_field js field r (Own (JStr s))
        = Some (if required r && (negb (truthy s) || String.eqb (trim s) "")
                then [field +:+ " is required"]
                else ((match type r with
                       | Some k =>
                           if truthy s && negb (validators k s)
                           then [field +:+ " has invalid format"] else []
                       | None => []
                       end)
                      ++ (match minLength r with
                          | Some (S n) =>
                              if truthy s && (String.length s <? S n)%nat
                              then [field +:+ " must be at least " +:+ show_nat (S n)
                                    +:+ " characters"]
                              else []
                          | _ => []
                          end)
                      ++ (match maxLength r with
                          | Some (S n) =>
                              if truthy s && (S n <? String.length s)%nat
                              then [field +:+ " must be no more than " +:+ show_nat (S n)
                                    +:+ " characters"]
                              else []
                          | _ => []
                          end))%list))
  /\ (forall validationRules body,
        collect js validationRules body []
        = @concat string <$> mapM (fun fr => check_field js (fst fr) (snd fr)
                                       (lookup_field body (fst fr))) validationRules).
Proof.
  split; [vm_compute; reflexivity|].
  split; [vm_compute; reflexivity|].
  split; [vm_compute; reflexivity|].
  split; [vm_compute; reflexivity|].
  split; [vm_compute; reflexivity|].
  split.
  { intros field r value Hreq Hfalse. unfold check_field, is_blank.
    rewrite Hreq, Hfalse. reflexivity. }
  split; [apply check_field_string | apply collect_fields].
Qed.

End ValidatorFacts.

(* ===================================================================== *)
(** ** Properties of the blacklist guard *)
(* ===================================================================== *)

Module IpBlacklistFacts.
Import Js Express Regex IpBlacklist.

(** *** The client key *)

(** What a chain [c1 || ... || cn || d] evaluates to. *)
Lemma or_chain (d : string) (cs : list (option string)) :
  let r := default d (foldr or_else (Some d) cs) in
  (exists i s,
      cs !! i = Some (Some s) /\ s <> ""
      /\ (forall j, (j < i)%nat -> cs !! j = Some None \/ cs !! j = Some (Some ""))
      /\ r = s)
  \/ ((forall c, c ∈ cs -> c = None \/ c = Some "") /\ r = d).
Proof.
  induction cs as [|c cs IH]; simpl.
  - right. split; [|reflexivity]. intros c Hc. apply elem_of_nil in Hc. contradiction.
  - assert (Hskip : c = None \/ c = Some "" ->
                    or_else c (foldr or_else (Some d) cs) = foldr or_else (Some d) cs).
    { intros [-> | ->]; reflexivity. }
    destruct c as [[|x s]|].
    + rewrite Hskip by (right; reflexivity).
      destruct IH as [(i & s & Hi & Hs & Hlt & Hr) | [Hall Hr]].
      * left. exists (S i), s. repeat split; try assumption.
        intros [|j] Hj; [right; reflexivity|]. apply Hlt. lia.
      * right. split; [|assumption].
        intros c Hc. apply elem_of_cons in Hc as [-> | Hc]; [right; reflexivity|].
        apply Hall. assumption.
    + left. exists 0%nat, (String x s). repeat split; try reflexivity.
      * discriminate.
      * intros j Hj. lia.
    + rewrite Hskip by (left; reflexivity).
      destruct IH as [(i & s & Hi & Hs & Hlt & Hr) | [Hall Hr]].
      * left. exists (S i), s. repeat split; try assumption.
        intros [|j] Hj; [left; reflexivity|]. apply Hlt. lia.
      * right. split; [|assumption].
        intros c Hc. apply elem_of_cons in Hc as [-> | Hc]; [left; reflexivity|].
        apply Hall. assumption.
Qed.

(** C8, as the specification words it, fails: with a forwarded-for
    header whose first entry is blank the first defined operand is the
    empty string, and the code returns the real-IP header. *)
Lemma blank_entry_is_skipped :
  first_defined (candidates blank_forwarded) = Some ""
  /\ getClientIP blank_forwarded = "9.9.9.9"
  /\ getClientIP blank_forwarded
     <> default "0.0.0.0" (first_defined (candidates blank_forwarded)).
Proof.
  vm_compute. repeat split; try reflexivity. discriminate.
Qed.

(** C8, amended.  The client key is the first operand that is defined
    and not empty, in the order: [req.ip]; the first comma-separated
    entry of the forwarded-for header, trimmed; the real-IP header; the
    peer address of the connection, of the socket, of the connection's
    socket; it is the sentinel [0.0.0.0] when every operand is undefined
    or empty. *)
Theorem getClientIP_precedence (req : request) :
  candidates req
  = [ip req;
     (fun h => trim (first_entry h)) <$> (headers req !! "x-forwarded-for");
     headers req !! "x-real-ip";
     req_connection req ≫= remoteAddress;
     req_socket req ≫= peer_remoteAddress;
     (req_connection req ≫= conn_socket) ≫= peer_remoteAddress]
  /\ ((exists i s,
          candidates req !! i = Some (Some s) /\ s <> ""
          /\ (forall j, (j < i)%nat ->
                candidates req !! j = Some None \/ candidates req !! j = Some (Some ""))
          /\ getClientIP req = s)
      \/ ((forall c, c ∈ candidates req -> c = None \/ c = Some "")
          /\ getClientIP req = "0.0.0.0")).
Proof.
  split; [reflexivity|].
  apply (or_chain "0.0.0.0" (candidates req)).
Qed.

(** *** The guard and the administrative functions *)

Lemma well_formed_tests a :
  negb (test_anchored ipv4Regex a) && negb (test_anchored ipv6Regex a)
  = negb (well_formed a).
Proof. unfold well_formed. symmetry. apply negb_orb. Qed.

(** C3, as the specification words it, fails: the whitelisted address
    [::ffff:127.0.0.1] has a dot, so it passes neither format pattern,
    and the format check comes before the whitelist check. *)
Lemma mapped_loopback_fails_format :
  "::ffff:127.0.0.1" ∈ whitelistedIPs initial
  /\ addToBlacklist (JStr "::ffff:127.0.0.1") initial
     = (Throws InvalidAddressFormat, initial)
  /\ fst (addToBlacklist (JStr "::ffff:127.0.0.1") initial) <> Throws WhitelistConflict.
Proof.
  split; [|split].
  - unfold initial; simpl. set_solver.
  - reflexivity.
  - discriminate.
Qed.

(** C3, amended.  A request whose client key is whitelisted goes on,
    whatever the blacklist holds.  [addToBlacklist] of a whitelisted
    address always throws and leaves both sets as they were; the error
    is the whitelist conflict when the address passes the format check,
    and the format error (or, for the empty string, the invalid-address
    error) when it does not. *)
Theorem whitelisted_protected (st : store) (a : string) :
  a ∈ whitelistedIPs st ->
  (forall req, getClientIP req = a -> ipBlacklist st req = Next)
  /\ addToBlacklist (JStr a) st
     = (Throws (if negb (truthy a) then InvalidAddress
                else if well_formed a then WhitelistConflict
                else InvalidAddressFormat), st).
Proof.
  intros Hw. split.
  - intros req Hreq. unfold ipBlacklist. rewrite Hreq.
    destruct (decide (a ∈ whitelistedIPs st)); [reflexivity | contradiction].
  - unfold addToBlacklist, as_address.
    destruct (truthy a); simpl; [|reflexivity].
    rewrite well_formed_tests.
    destruct (well_formed a); simpl; [|reflexivity].
    destruct (decide (a ∈ whitelistedIPs st)); [reflexivity | contradiction].
Qed.

Lemma whitelisted_protected_witness :
  "127.0.0.1" ∈ whitelistedIPs initial
  /\ (forall req, getClientIP req = "127.0.0.1" -> ipBlacklist initial req = Next)
  /\ addToBlacklist (JStr "127.0.0.1") initial = (Throws WhitelistConflict, initial).
Proof.
  assert (Hw : "127.0.0.1" ∈ whitelistedIPs initial) by (unfold initial; simpl; set_solver).
  split; [exact Hw|].
  exact (whitelisted_protected initial "127.0.0.1" Hw).
Defined.

(** C7, as the specification words it, fails: a malformed address is
    not rejected, the call returns [false]. *)
Lemma remove_malformed_returns :
  well_formed "not-an-ip" = false
  /\ fst (removeFromBlacklist (JStr "not-an-ip") initial) = Returns false
  /\ fst (removeFromBlacklist (JStr "not-an-ip") initial) <> Throws InvalidAddressFormat.
Proof.
  split; [vm_compute; reflexivity|].
  assert (H : fst (removeFromBlacklist (JStr "not-an-ip") initial) = Returns false).
  { vm_compute. reflexivity. }
  split; [exact H|]. rewrite H. discriminate.
Qed.

(** C7, amended.  [removeFromBlacklist] has no format check.  It
    throws, with the invalid-address error, only for the empty string
    (and for an argument that is not a string), and leaves the sets as
    they were.  For every other string, well-formed or not, it deletes
    the address from the blacklist and returns [true] exactly when the
    blacklist held it, [false] otherwise. *)
Theorem removeFromBlacklist_spec (a : string) (st : store) :
  (a = "" -> removeFromBlacklist (JStr a) st = (Throws InvalidAddress, st))
  /\ (a <> "" ->
      exists b,
        removeFromBlacklist (JStr a) st
        = (Returns b, {| blacklistedIPs := blacklistedIPs st ∖ {[a]};
                         whitelistedIPs := whitelistedIPs st |})
        /\ (b = true <-> a ∈ blacklistedIPs st)
        /\ (b = false <-> blacklistedIPs st ∖ {[a]} = blacklistedIPs st))
  /\ (forall v, (forall s, v <> JStr s) ->
        removeFromBlacklist v st = (Throws InvalidAddress, st)).
Proof.
  split; [|split].
  - intros ->. reflexivity.
  - intros Ha. unfold removeFromBlacklist, as_address.
    assert (Ht : truthy a = true) by (destruct a; [congruence | reflexivity]).
    rewrite Ht. eexists. split; [reflexivity|]. split.
    + apply bool_decide_eq_true.
    + rewrite bool_decide_eq_false. split.
      * intros Hn. apply difference_disjoint_L, disjoint_singleton_r. exact Hn.
      * intros Heq Hin. apply (not_elem_of_difference a (blacklistedIPs st) {[a]}).
        -- right. apply elem_of_singleton. reflexivity.
        -- rewrite Heq. exact Hin.
  - intros v Hv. destruct v; try reflexivity. exfalso. eapply Hv. reflexivity.
Qed.

Lemma removeFromBlacklist_spec_witness :
  "10.0.0.5" <> ""
  /\ exists b,
       removeFromBlacklist (JStr "10.0.0.5") initial
       = (Returns b, {| blacklistedIPs := blacklistedIPs initial ∖ {["10.0.0.5"]};
                        whitelistedIPs := whitelistedIPs initial |})
       /\ (b = true <-> "10.0.0.5" ∈ blacklistedIPs initial)
       /\ (b = false <->
           blacklistedIPs initial ∖ {["10.0.0.5"]} = blacklistedIPs initial).
Proof.
  assert (Hne : "10.0.0.5" <> "") by discriminate.
  split; [exact Hne|].
  exact (proj1 (proj2 (removeFromBlacklist_spec "10.0.0.5" initial)) Hne).
Defined.

End IpBlacklistFacts.

(* ===================================================================== *)
(** ** Properties of the rate limiter *)
(* ===================================================================== *)

Module RateLimiterFacts.
Import Js Express RateLimiter.

Lemma in_window_length cfg now ts :
  (length (in_window cfg now ts) <= length ts)%nat.
Proof. unfold in_window. apply length_filter. Qed.

(** The numerator of the retry computation is zero whatever the clock
    and the window are. *)
Lemma retry_numerator now w : (now - w + w - now = 0)%Z.
Proof. lia. Qed.

(** The two ways a call that does not throw can end, with the store it
    leaves. *)
Lemma rateLimiter_denies cfg req now sweep rateStore k :
  client_key req = Some k ->
  (maxRequests cfg <= length (in_window cfg now (held rateStore k)))%nat ->
  rateLimiter cfg req now sweep rateStore
  = (<[k := {| requests := in_window cfg now (held rateStore k);
               count := length (in_window cfg now (held rateStore k));
               resetTime := match rateStore !! k with
                            | Some d => resetTime d
                            | None => (now + windowMs cfg)%Z
                            end |}]> rateStore,
     TooManyRequests {| limit := maxRequests cfg; reset := now; retryAfter := 0 |}).
Proof.
  intros Hk Hfull. unfold rateLimiter, held in *. rewrite Hk.
  destruct (rateStore !! k) as [d|] eqn:Hd; simpl in *.
  - apply Nat.leb_le in Hfull. rewrite Hfull.
    rewrite retry_numerator.
    replace (now - windowMs cfg + windowMs cfg)%Z with now by lia. reflexivity.
  - apply Nat.leb_le in Hfull. rewrite Hfull.
    rewrite retry_numerator.
    replace (now - windowMs cfg + windowMs cfg)%Z with now by lia. reflexivity.
Qed.

Lemma rateLimiter_passes cfg req now sweep rateStore k :
  client_key req = Some k ->
  (length (in_window cfg now (held rateStore k)) < maxRequests cfg)%nat ->
  exists h pushed,
    requests pushed = (in_window cfg now (held rateStore k) ++ [now])%list
    /\ count pushed = length (requests pushed)
    /\ rateLimiter cfg req now sweep rateStore
       = (match sweep with
          | Some t => cleanupOldEntries cfg t (<[k := pushed]> rateStore)
          | None => <[k := pushed]> rateStore
          end, Next h).
Proof.
  intros Hk Hfree. unfold rateLimiter, held in *. rewrite Hk.
  apply Nat.leb_gt in Hfree.
  destruct (rateStore !! k) as [d|] eqn:Hd; simpl in *; rewrite Hfree;
    rewrite insert_insert_eq.
  - exists {| passed_limit := maxRequests cfg;
              remaining := Z.max 0 (Z.of_nat (maxRequests cfg)
                - Z.of_nat (length (in_window cfg now (requests d) ++ [now])));
              passed_reset := (now - windowMs cfg + windowMs cfg)%Z |},
           {| requests := (in_window cfg now (requests d) ++ [now])%list;
              count := length (in_window cfg now (requests d) ++ [now]);
              resetTime := resetTime d |}.
    split; [reflexivity|]. split; reflexivity.
  - exists {| passed_limit := maxRequests cfg;
              remaining := Z.max 0 (Z.of_nat (maxRequests cfg)
                - Z.of_nat (length (in_window cfg now [] ++ [now])));
              passed_reset := (now - windowMs cfg + windowMs cfg)%Z |},
           {| requests := (in_window cfg now [] ++ [now])%list;
              count := length (in_window cfg now [] ++ [now]);
              resetTime := (now + windowMs cfg)%Z |}.
    split; [reflexivity|]. split; reflexivity.
Qed.

(** Every denial carries a retry delay of zero seconds. *)
Lemma denial_retryAfter_zero cfg req now sweep rateStore r :
  snd (rateLimiter cfg req now sweep rateStore) = TooManyRequests r ->
  retryAfter r = 0%Z.
Proof.
  destruct (client_key req) as [k|] eqn:Hk.
  - destruct (le_lt_dec (maxRequests cfg) (length (in_window cfg now (held rateStore k))))
      as [Hfull|Hfree].
    + rewrite (rateLimiter_denies _ _ _ _ _ _ Hk Hfull). simpl.
      intros [= <-]. reflexivity.
    + destruct (rateLimiter_passes _ _ _ sweep _ _ Hk Hfree) as (h & p & _ & _ & ->).
      simpl. discriminate.
  - unfold rateLimiter. rewrite Hk. simpl. discriminate.
Qed.

(** *** The bound on a record *)

Lemma bounded_empty cfg : bounded cfg ∅.
Proof. intros k d Hd. rewrite lookup_empty in Hd. discriminate. Qed.

Lemma bounded_insert cfg rateStore k d :
  bounded cfg rateStore ->
  (length (requests d) <= maxRequests cfg)%nat -> count d = length (requests d) ->
  bounded cfg (<[k := d]> rateStore).
Proof.
  intros Hb Hlen Hcount k' d' Hd'.
  destruct (decide (k = k')) as [->|Hne].
  - rewrite lookup_insert_eq in Hd'. injection Hd' as <-. split; assumption.
  - rewrite lookup_insert_ne in Hd' by assumption. apply (Hb k' d' Hd').
Qed.

Lemma bounded_cleanup cfg t rateStore :
  bounded cfg rateStore -> bounded cfg (cleanupOldEntries cfg t rateStore).
Proof.
  intros Hb k d Hd. unfold cleanupOldEntries in Hd.
  apply map_lookup_filter_Some in Hd as [Hd _]. apply (Hb k d Hd).
Qed.

Lemma bounded_delete cfg k rateStore :
  bounded cfg rateStore -> bounded cfg (delete k rateStore).
Proof.
  intros Hb k' d Hd. apply lookup_delete_Some in Hd as [_ Hd]. apply (Hb k' d Hd).
Qed.

Lemma held_bounded cfg rateStore k :
  bounded cfg rateStore -> (length (held rateStore k) <= maxRequests cfg)%nat.
Proof.
  intros Hb. unfold held. destruct (rateStore !! k) as [d|] eqn:Hd.
  - apply (Hb k d Hd).
  - simpl. lia.
Qed.

Lemma rateLimiter_bounded cfg req now sweep rateStore :
  bounded cfg rateStore ->
  bounded cfg (fst (rateLimiter cfg req now sweep rateStore)).
Proof.
  intros Hb. destruct (client_key req) as [k|] eqn:Hk.
  - destruct (le_lt_dec (maxRequests cfg) (length (in_window cfg now (held rateStore k))))
      as [Hfull|Hfree].
    + rewrite (rateLimiter_denies _ _ _ _ _ _ Hk Hfull). simpl.
      apply bounded_insert; [assumption | simpl | reflexivity].
      pose proof (in_window_length cfg now (held rateStore k)).
      pose proof (held_bounded cfg rateStore k Hb). lia.
    + destruct (rateLimiter_passes _ _ _ sweep _ _ Hk Hfree)
        as (h & p & Hreqs & Hcount & ->). simpl.
      assert (Hp : bounded cfg (<[k := p]> rateStore)).
      { apply bounded_insert; [assumption | | assumption].
        rewrite Hreqs, length_app. simpl. lia. }
      destruct sweep as [t|]; [apply bounded_cleanup|]; assumption.
  - unfold rateLimiter. rewrite Hk. assumption.
Qed.

Lemma step_bounded cfg rateStore e :
  bounded cfg rateStore -> bounded cfg (step cfg rateStore e).
Proof.
  intros Hb. destruct e as [req now sweep | k]; simpl.
  - apply rateLimiter_bounded. assumption.
  - apply bounded_delete. assumption.
Qed.

Lemma run_bounded cfg history : bounded cfg (run cfg history).
Proof.
  unfold run. generalize (bounded_empty cfg).
  generalize (∅ : gmap (option string) clientData) as rateStore.
  induction history as [|e history IH]; intros rateStore Hb; simpl.
  - assumption.
  - apply IH, step_bounded, Hb.
Qed.

(** *** The claims *)

(** C2.  After any history of calls (and administrative resets) that
    starts with the empty store, every record holds at most
    [maxRequests] timestamps, so at most [maxRequests] of them lie in
    the trailing window of any instant; and in any store, a request that
    arrives when the record of its key already holds [maxRequests]
    timestamps of the current window is denied. *)
Theorem retained_never_exceeds_limit (cfg : config) :
  (forall history k d,
      run cfg history !! k = Some d ->
      count d = length (requests d)
      /\ (length (requests d) <= maxRequests cfg)%nat
      /\ forall now, (length (in_window cfg now (requests d)) <= maxRequests cfg)%nat)
  /\ (forall rateStore req now sweep k d,
        client_key req = Some k ->
        rateStore !! k = Some d ->
        (maxRequests cfg <= length (in_window cfg now (requests d)))%nat ->
        exists r, snd (rateLimiter cfg req now sweep rateStore) = TooManyRequests r).
Proof.
  split.
  - intros history k d Hd. destruct (run_bounded cfg history k d Hd) as [Hlen Hcount].
    split; [assumption|]. split; [assumption|].
    intros now. pose proof (in_window_length cfg now (requests d)). lia.
  - intros rateStore req now sweep k d Hk Hd Hfull.
    assert (Hheld : held rateStore k = requests d) by (unfold held; rewrite Hd; reflexivity).
    rewrite <- Hheld in Hfull.
    rewrite (rateLimiter_denies _ _ _ _ _ _ Hk Hfull). simpl. eexists. reflexivity.
Qed.

(** The third request of a client within one second, under the limit of
    two per second. *)
Lemma retained_never_exceeds_limit_witness :
  let history := [Call (from_ip "a") 100 None; Call (from_ip "a") 600 None] in
  let d := {| requests := [100; 600]%Z; count := 2; resetTime := 1100 |} in
  client_key (from_ip "a") = Some (Some "a")
  /\ run two_per_second history !! Some "a" = Some d
  /\ (maxRequests two_per_second <= length (in_window two_per_second 700 (requests d)))%nat
  /\ exists r,
       snd (rateLimiter two_per_second (from_ip "a") 700 None
              (run two_per_second history))
       = TooManyRequests r.
Proof.
  intros history d.
  assert (Hk : client_key (from_ip "a") = Some (Some "a")) by reflexivity.
  assert (Hd : run two_per_second history !! Some "a" = Some d)
    by (vm_compute; reflexivity).
  assert (Hfull : (maxRequests two_per_second
                   <= length (in_window two_per_second 700 (requests d)))%nat)
    by (vm_compute; lia).
  split; [exact Hk|]. split; [exact Hd|]. split; [exact Hfull|].
  exact (proj2 (retained_never_exceeds_limit two_per_second)
           (run two_per_second history) (from_ip "a") 700%Z None (Some "a") d
           Hk Hd Hfull).
Defined.

(** C9.  A denial does not push the current timestamp: after it the
    record of the key holds exactly the timestamps of the window that it
    held before (only the purge is applied), and no other record has
    changed. *)
Theorem denial_keeps_record cfg req now sweep rateStore k r :
  client_key req = Some k ->
  snd (rateLimiter cfg req now sweep rateStore) = TooManyRequests r ->
  (exists d',
      fst (rateLimiter cfg req now sweep rateStore) !! k = Some d'
      /\ requests d' = in_window cfg now (held rateStore k)
      /\ count d' = length (requests d'))
  /\ (forall k', k' <> k ->
        fst (rateLimiter cfg req now sweep rateStore) !! k' = rateStore !! k').
Proof.
  intros Hk Hout.
  destruct (le_lt_dec (maxRequests cfg) (length (in_window cfg now (held rateStore k))))
    as [Hfull|Hfree].
  - rewrite (rateLimiter_denies _ _ _ _ _ _ Hk Hfull). simpl. split.
    + eexists. rewrite lookup_insert_eq. split; [reflexivity|].
      split; reflexivity.
    + intros k' Hne. apply lookup_insert_ne. congruence.
  - destruct (rateLimiter_passes _ _ _ sweep _ _ Hk Hfree) as (h & p & _ & _ & Heq).
    rewrite Heq in Hout. simpl in Hout. discriminate.
Qed.

Lemma denial_keeps_record_witness :
  let rateStore :=
    run two_per_second [Call (from_ip "a") 100 None; Call (from_ip "a") 600 None;
                        Call (from_ip "b") 650 None] in
  let r := {| limit := 2; reset := 700; retryAfter := 0 |} in
  client_key (from_ip "a") = Some (Some "a")
  /\ snd (rateLimiter two_per_second (from_ip "a") 700 None rateStore)
     = TooManyRequests r
  /\ (exists d',
         fst (rateLimiter two_per_second (from_ip "a") 700 None rateStore) !! Some "a"
         = Some d'
         /\ requests d' = in_window two_per_second 700 (held rateStore (Some "a"))
         /\ count d' = length (requests d'))
  /\ (forall k', k' <> Some "a" ->
        fst (rateLimiter two_per_second (from_ip "a") 700 None rateStore) !! k'
        = rateStore !! k').
Proof.
  intros rateStore r.
  assert (Hk : client_key (from_ip "a") = Some (Some "a")) by reflexivity.
  assert (Hout : snd (rateLimiter two_per_second (from_ip "a") 700 None rateStore)
                 = TooManyRequests r) by (vm_compute; reflexivity).
  split; [exact Hk|]. split; [exact Hout|].
  exact (denial_keeps_record two_per_second (from_ip "a") 700%Z None rateStore
           (Some "a") r Hk Hout).
Defined.

(** C1, at an input on which the code departs from it.  Under the
    configuration of the source a client sends a thousand requests at
    one instant and one more a second later.  The oldest retained
    timestamp leaves the window 599 seconds after that call, and the
    denial carries a retry delay of zero seconds. *)
Theorem retry_after_zero_at_limit :
  let rateStore := run RATE_LIMIT_CONFIG burst in
  let now := (burst_instant + 1000)%Z in
  head (in_window RATE_LIMIT_CONFIG now (held rateStore (Some "203.0.113.7")))
  = Some burst_instant
  /\ ceil_div (burst_instant + windowMs RATE_LIMIT_CONFIG - now) 1000 = 599%Z
  /\ snd (rateLimiter RATE_LIMIT_CONFIG (from_ip "203.0.113.7") now None rateStore)
     = TooManyRequests {| limit := 1000; reset := now; retryAfter := 0 |}.
Proof.
  vm_compute. repeat split; reflexivity.
Qed.

End RateLimiterFacts.


(* ===================================================================== *)
(** ** Further properties of the blacklist *)
(* ===================================================================== *)

Module IpBlacklistMore.
Import Js Express Regex IpBlacklist.

(** Closed decidable facts, such as membership in a given set, by
    evaluation. *)
Ltac decide_it := apply (bool_decide_unpack _); vm_compute; exact I.

(** *** The order on strings *)

Lemma ascii_compare_N a b : Ascii.compare a b = N.compare (N_of_ascii a) (N_of_ascii b).
Proof. reflexivity. Qed.

Lemma string_compare_refl s : String.compare s s = Eq.
Proof.
  induction s as [|c s IH]; simpl; [reflexivity|].
  rewrite ascii_compare_N, N.compare_refl. assumption.
Qed.

Lemma string_compare_lt_trans a : forall b c,
  String.compare a b = Lt -> String.compare b c = Lt -> String.compare a c = Lt.
Proof.
  induction a as [|x a IH]; intros [|y b] [|z c]; simpl; try discriminate; try reflexivity.
  rewrite !ascii_compare_N.
  destruct (N.compare_spec (N_of_ascii x) (N_of_ascii y)) as [Hxy|Hxy|Hxy];
    destruct (N.compare_spec (N_of_ascii y) (N_of_ascii z)) as [Hyz|Hyz|Hyz];
    try discriminate; intros H1 H2.
  - rewrite Hxy, Hyz, N.compare_refl. eapply IH; eassumption.
  - rewrite Hxy. apply N.compare_lt_iff in Hyz. rewrite Hyz. reflexivity.
  - rewrite <- Hyz. apply N.compare_lt_iff in Hxy. rewrite Hxy. reflexivity.
  - assert (H : (N_of_ascii x < N_of_ascii z)%N) by lia.
    apply N.compare_lt_iff in H. rewrite H. reflexivity.
Qed.

#[global] Instance string_le_total : Total string_le.
Proof. intros a b. apply String.leb_total. Qed.

#[global] Instance string_le_antisym : AntiSymm (=) string_le.
Proof. intros a b. apply String.leb_antisym. Qed.

#[global] Instance string_le_trans : Transitive string_le.
Proof.
  intros a b c. unfold string_le, String.leb.
  destruct (String.compare a b) eqn:Hab; try discriminate; intros _;
    destruct (String.compare b c) eqn:Hbc; try discriminate; intros _.
  - apply String.compare_eq_iff in Hab, Hbc. subst. rewrite string_compare_refl. reflexivity.
  - apply String.compare_eq_iff in Hab. subst. rewrite Hbc. reflexivity.
  - apply String.compare_eq_iff in Hbc. subst. rewrite Hab. reflexivity.
  - rewrite (string_compare_lt_trans a b c Hab Hbc). reflexivity.
Qed.

(** *** The format check *)

Lemma well_formed_truthy a : well_formed a = true -> truthy a = true.
Proof. destruct a; [vm_compute; discriminate | reflexivity]. Qed.

(** A successful [addToBlacklist], spelled out. *)
Lemma addToBlacklist_accepts st a :
  well_formed a = true -> a ∉ whitelistedIPs st ->
  addToBlacklist (JStr a) st
  = (Returns (bool_decide (a ∉ blacklistedIPs st)),
     {| blacklistedIPs := blacklistedIPs st ∪ {[a]};
        whitelistedIPs := whitelistedIPs st |}).
Proof.
  intros Hwf Hw. unfold addToBlacklist, as_address.
  rewrite (well_formed_truthy a Hwf).
  unfold well_formed in Hwf. apply orb_true_iff in Hwf.
  assert (Hneg : negb (test_anchored ipv4Regex a) && negb (test_anchored ipv6Regex a) = false).
  { destruct Hwf as [-> | ->]; simpl; [reflexivity | apply andb_false_r]. }
  rewrite Hneg. destruct (decide (a ∈ whitelistedIPs st)); [contradiction | reflexivity].
Qed.

(** Whatever the argument, [addToBlacklist] either leaves the store as it
    was or has added one well-formed address that is not whitelisted. *)
Lemma addToBlacklist_effect ip st :
  snd (addToBlacklist ip st) = st
  \/ exists a, ip = JStr a /\ well_formed a = true /\ (a ∉ whitelistedIPs st)
               /\ snd (addToBlacklist ip st)
                  = {| blacklistedIPs := blacklistedIPs st ∪ {[a]};
                       whitelistedIPs := whitelistedIPs st |}.
Proof.
  unfold addToBlacklist, as_address.
  destruct ip as [| | b | n | s | items | props]; try (left; reflexivity).
  destruct (truthy s); [|left; reflexivity].
  destruct (test_anchored ipv4Regex s) eqn:H4;
    destruct (test_anchored ipv6Regex s) eqn:H6; simpl;
    try (destruct (decide (s ∈ whitelistedIPs st)); [left; reflexivity|];
         right; exists s; unfold well_formed; rewrite H4, H6; repeat split; assumption).
  left. reflexivity.
Qed.

(** *** Properties *)

(** X1.  [addToBlacklist] is idempotent: for a well-formed address that
    is neither whitelisted nor blacklisted, the first call returns [true]
    and the set grows by exactly one; a second call returns [false] and
    changes nothing. *)
Theorem addToBlacklist_twice st a :
  well_formed a = true -> a ∉ whitelistedIPs st -> a ∉ blacklistedIPs st ->
  let first := addToBlacklist (JStr a) st in
  let second := addToBlacklist (JStr a) (snd first) in
  fst first = Returns true
  /\ size (blacklistedIPs (snd first)) = S (size (blacklistedIPs st))
  /\ fst second = Returns false
  /\ snd second = snd first.
Proof.
  intros Hwf Hw Hb. cbv zeta.
  rewrite (addToBlacklist_accepts st a Hwf Hw). cbn [fst snd].
  rewrite addToBlacklist_accepts by assumption.
  cbn [fst snd blacklistedIPs whitelistedIPs].
  split; [f_equal; apply bool_decide_eq_true; assumption|].
  split.
  { rewrite size_union, size_singleton by (apply disjoint_singleton_r; assumption). lia. }
  split.
  - f_equal. apply bool_decide_eq_false. intros Hn. apply Hn.
    apply elem_of_union. right. apply elem_of_singleton. reflexivity.
  - f_equal. rewrite <- (assoc_L (∪)), (idemp_L (∪)). reflexivity.
Qed.

Lemma addToBlacklist_twice_witness :
  well_formed "203.0.113.7" = true
  /\ ("203.0.113.7" ∉ whitelistedIPs initial)
  /\ ("203.0.113.7" ∉ blacklistedIPs initial)
  /\ fst (addToBlacklist (JStr "203.0.113.7") initial) = Returns true
  /\ size (blacklistedIPs (snd (addToBlacklist (JStr "203.0.113.7") initial)))
     = S (size (blacklistedIPs initial))
  /\ fst (addToBlacklist (JStr "203.0.113.7")
            (snd (addToBlacklist (JStr "203.0.113.7") initial))) = Returns false
  /\ snd (addToBlacklist (JStr "203.0.113.7")
            (snd (addToBlacklist (JStr "203.0.113.7") initial)))
     = snd (addToBlacklist (JStr "203.0.113.7") initial).
Proof.
  assert (Hwf : well_formed "203.0.113.7" = true) by (vm_compute; reflexivity).
  assert (Hw : "203.0.113.7" ∉ whitelistedIPs initial) by decide_it.
  assert (Hb : "203.0.113.7" ∉ blacklistedIPs initial) by decide_it.
  split; [exact Hwf|]. split; [exact Hw|]. split; [exact Hb|].
  exact (addToBlacklist_twice initial "203.0.113.7" Hwf Hw Hb).
Defined.


(** X2.  Removing an address that was just added undoes the addition:
    the call returns [true] and the store is the one before the
    addition. *)
Theorem add_then_remove st a :
  well_formed a = true -> a ∉ whitelistedIPs st -> a ∉ blacklistedIPs st ->
  removeFromBlacklist (JStr a) (snd (addToBlacklist (JStr a) st)) = (Returns true, st).
Proof.
  intros Hwf Hw Hb. rewrite (addToBlacklist_accepts st a Hwf Hw). cbn [snd].
  unfold removeFromBlacklist, as_address. rewrite (well_formed_truthy a Hwf).
  cbn [blacklistedIPs whitelistedIPs]. f_equal.
  - f_equal. apply bool_decide_eq_true, elem_of_union. right.
    apply elem_of_singleton. reflexivity.
  - destruct st as [bl wl]. cbn [blacklistedIPs whitelistedIPs] in *. f_equal.
    rewrite difference_union_distr_l_L, difference_diag_L, (right_id_L ∅ (∪)).
    apply difference_disjoint_L, disjoint_singleton_r. assumption.
Qed.

Lemma add_then_remove_witness :
  well_formed "203.0.113.7" = true
  /\ ("203.0.113.7" ∉ whitelistedIPs initial)
  /\ ("203.0.113.7" ∉ blacklistedIPs initial)
  /\ removeFromBlacklist (JStr "203.0.113.7")
       (snd (addToBlacklist (JStr "203.0.113.7") initial)) = (Returns true, initial).
Proof.
  assert (Hwf : well_formed "203.0.113.7" = true) by (vm_compute; reflexivity).
  assert (Hw : "203.0.113.7" ∉ whitelistedIPs initial) by decide_it.
  assert (Hb : "203.0.113.7" ∉ blacklistedIPs initial) by decide_it.
  split; [exact Hwf|]. split; [exact Hw|]. split; [exact Hb|].
  exact (add_then_remove initial "203.0.113.7" Hwf Hw Hb).
Defined.

(** X3.  The guard sees an administrative change at once: after a
    well-formed address that is not whitelisted is added, every request
    whose client key is that address is refused; after the address is
    removed again, every such request goes on. *)
Theorem guard_follows_commands st a req :
  well_formed a = true -> a ∉ whitelistedIPs st -> getClientIP req = a ->
  let added := snd (addToBlacklist (JStr a) st) in
  let removed := snd (removeFromBlacklist (JStr a) added) in
  ipBlacklist added req = Forbidden /\ ipBlacklist removed req = Next.
Proof.
  intros Hwf Hw Hreq. cbv zeta.
  rewrite (addToBlacklist_accepts st a Hwf Hw). cbn [snd].
  unfold removeFromBlacklist, as_address. rewrite (well_formed_truthy a Hwf).
  unfold ipBlacklist. rewrite Hreq. cbn [snd blacklistedIPs whitelistedIPs]. split.
  - destruct (decide (a ∈ whitelistedIPs st)); [contradiction|].
    destruct (decide (a ∈ blacklistedIPs st ∪ {[a]})) as [|Hn]; [reflexivity|].
    exfalso. apply Hn, elem_of_union. right. apply elem_of_singleton. reflexivity.
  - destruct (decide (a ∈ whitelistedIPs st)); [contradiction|].
    destruct (decide (a ∈ (blacklistedIPs st ∪ {[a]}) ∖ {[a]})) as [Hin|]; [|reflexivity].
    exfalso. apply elem_of_difference in Hin as [_ Hn]. apply Hn.
    apply elem_of_singleton. reflexivity.
Qed.

Lemma guard_follows_commands_witness :
  let req := {| ip := Some "203.0.113.7"; headers := ∅;
                req_connection := None; req_socket := None |} in
  let added := snd (addToBlacklist (JStr "203.0.113.7") initial) in
  let removed := snd (removeFromBlacklist (JStr "203.0.113.7") added) in
  well_formed "203.0.113.7" = true
  /\ ("203.0.113.7" ∉ whitelistedIPs initial)
  /\ getClientIP req = "203.0.113.7"
  /\ ipBlacklist added req = Forbidden /\ ipBlacklist removed req = Next.
Proof.
  intros req added removed.
  assert (Hwf : well_formed "203.0.113.7" = true) by (vm_compute; reflexivity).
  assert (Hw : "203.0.113.7" ∉ whitelistedIPs initial) by decide_it.
  assert (Hreq : getClientIP req = "203.0.113.7") by reflexivity.
  split; [exact Hwf|]. split; [exact Hw|]. split; [exact Hreq|].
  exact (guard_follows_commands initial "203.0.113.7" req Hwf Hw Hreq).
Defined.

(** *** What every series of administrative calls keeps *)

Lemma consistent_initial : consistent initial.
Proof.
  split; [reflexivity|]. split; [decide_it|].
  intros a Ha. unfold initial in Ha. cbn [blacklistedIPs] in Ha.
  apply elem_of_union in Ha as [Ha|Ha]; [apply elem_of_union in Ha as [Ha|Ha]|];
    apply elem_of_singleton in Ha; subst a; vm_compute; reflexivity.
Qed.

Lemma consistent_execute st c : consistent st -> consistent (execute st c).
Proof.
  intros (Hwl & Hdisj & Hwf). destruct c as [ip | ip |]; cbn [execute].
  - destruct (addToBlacklist_effect ip st) as [-> | (a & _ & Ha & Hw & ->)].
    + repeat split; assumption.
    + split; [exact Hwl|]. cbn [blacklistedIPs whitelistedIPs]. split.
      * apply disjoint_union_l. split; [assumption|].
        apply disjoint_singleton_l. assumption.
      * intros b Hb. apply elem_of_union in Hb as [Hb|Hb]; [apply Hwf; assumption|].
        apply elem_of_singleton in Hb. subst b. assumption.
  - unfold removeFromBlacklist. destruct (as_address ip) as [a|]; cbn [snd].
    + split; [exact Hwl|]. cbn [blacklistedIPs whitelistedIPs]. split.
      * intros x Hx Hx'. apply elem_of_difference in Hx as [Hx _]. apply (Hdisj x Hx Hx').
      * intros b Hb. apply elem_of_difference in Hb as [Hb _]. apply Hwf. assumption.
    + repeat split; assumption.
  - split; [exact Hwl|]. cbn [clearBlacklist snd blacklistedIPs whitelistedIPs]. split.
    + apply disjoint_empty_l.
    + intros b Hb. apply elem_of_empty in Hb. contradiction.
Qed.

Lemma consistent_after cs : consistent (after cs).
Proof.
  unfold after. generalize consistent_initial. generalize initial as st.
  induction cs as [|c cs IH]; intros st Hst; cbn [fold_left]; [assumption|].
  apply IH, consistent_execute, Hst.
Qed.

(** X4.  After any series of additions, removals and clearings made on
    the initial sets: the whitelist is unchanged; no address is in both
    sets; every blacklisted address passes the format check; so the guard
    refuses a request exactly when its client key is blacklisted, and
    removing a string that fails the format check never returns [true]
    and leaves the store as it is. *)
Theorem after_any_commands (cs : list command) :
  whitelistedIPs (after cs) = whitelistedIPs initial
  /\ blacklistedIPs (after cs) ## whitelistedIPs (after cs)
  /\ (forall a, a ∈ blacklistedIPs (after cs) -> well_formed a = true)
  /\ (forall req,
        ipBlacklist (after cs) req = Forbidden
        <-> getClientIP req ∈ blacklistedIPs (after cs))
  /\ (forall s, well_formed s = false ->
        fst (removeFromBlacklist (JStr s) (after cs)) <> Returns true
        /\ snd (removeFromBlacklist (JStr s) (after cs)) = after cs).
Proof.
  destruct (consistent_after cs) as (Hwl & Hdisj & Hwf).
  split; [exact Hwl|]. split; [exact Hdisj|]. split; [exact Hwf|]. split.
  - intros req. unfold ipBlacklist.
    destruct (decide (getClientIP req ∈ whitelistedIPs (after cs))) as [Hw|Hw].
    + split; [discriminate|]. intros Hb. exfalso. apply (Hdisj _ Hb Hw).
    + destruct (decide (getClientIP req ∈ blacklistedIPs (after cs))) as [Hb|Hb].
      * split; [intros _; exact Hb | reflexivity].
      * split; [discriminate | contradiction].
  - intros s Hs. unfold removeFromBlacklist, as_address.
    destruct (truthy s); cbn [fst snd]; [|split; [discriminate | reflexivity]].
    assert (Hn : s ∉ blacklistedIPs (after cs)).
    { intros Hin. rewrite (Hwf s Hin) in Hs. discriminate. }
    split.
    + rewrite (bool_decide_eq_false_2 _ Hn). discriminate.
    + destruct (after cs) as [bl wl]. cbn [blacklistedIPs whitelistedIPs] in *. f_equal.
      apply difference_disjoint_L, disjoint_singleton_r. assumption.
Qed.

Lemma after_any_commands_witness :
  let cs := [CallAdd (JStr "203.0.113.7"); CallRemove (JStr "10.0.0.5")] in
  well_formed "not-an-ip" = false
  /\ fst (removeFromBlacklist (JStr "not-an-ip") (after cs)) <> Returns true
  /\ snd (removeFromBlacklist (JStr "not-an-ip") (after cs)) = after cs.
Proof.
  intros cs.
  assert (Hs : well_formed "not-an-ip" = false) by (vm_compute; reflexivity).
  split; [exact Hs|].
  exact (proj2 (proj2 (proj2 (proj2 (after_any_commands cs)))) "not-an-ip" Hs).
Defined.

(** X5.  [getBlacklistedIPs] lists every blacklisted address exactly
    once, in ascending order of code units, and is the only such list; its
    length is the size that [getBlacklistStats] reports as
    [totalBlacklisted]. *)
Theorem getBlacklistedIPs_sorted (st : store) :
  Sorted string_le (getBlacklistedIPs st)
  /\ NoDup (getBlacklistedIPs st)
  /\ (forall a, a ∈ getBlacklistedIPs st <-> a ∈ blacklistedIPs st)
  /\ length (getBlacklistedIPs st) = size (blacklistedIPs st)
  /\ (forall l, Sorted string_le l -> NoDup l ->
        (forall a, a ∈ l <-> a ∈ blacklistedIPs st) -> l = getBlacklistedIPs st).
Proof.
  unfold getBlacklistedIPs.
  pose proof (merge_sort_Permutation string_le (elements (blacklistedIPs st))) as Hperm.
  assert (Hnd : NoDup (merge_sort string_le (elements (blacklistedIPs st)))).
  { rewrite Hperm. apply NoDup_elements. }
  assert (Hin : forall a, a ∈ merge_sort string_le (elements (blacklistedIPs st))
                          <-> a ∈ blacklistedIPs st).
  { intros a. rewrite Hperm. apply elem_of_elements. }
  split; [apply Sorted_merge_sort; apply _|].
  split; [exact Hnd|]. split; [exact Hin|]. split.
  - rewrite Hperm. reflexivity.
  - intros l Hsorted Hl Hmem.
    apply (Sorted_unique string_le); [assumption | apply Sorted_merge_sort; apply _ |].
    apply NoDup_Permutation; [assumption | assumption |].
    intros a. rewrite Hmem, Hin. reflexivity.
Qed.

Lemma getBlacklistedIPs_sorted_witness :
  let l := ["10.0.0.5"; "127.0.0.2"; "192.168.1.100"] in
  Sorted string_le l /\ NoDup l
  /\ (forall a, a ∈ l <-> a ∈ blacklistedIPs initial)
  /\ l = getBlacklistedIPs initial.
Proof.
  intros l.
  assert (Hs : Sorted string_le l) by decide_it.
  assert (Hn : NoDup l) by decide_it.
  assert (Hm : forall a, a ∈ l <-> a ∈ blacklistedIPs initial).
  { intros a. unfold l, initial. cbn [blacklistedIPs].
    rewrite !elem_of_cons, elem_of_nil, !elem_of_union, !elem_of_singleton. tauto. }
  split; [exact Hs|]. split; [exact Hn|]. split; [exact Hm|].
  exact (proj2 (proj2 (proj2 (proj2 (getBlacklistedIPs_sorted initial)))) l Hs Hn Hm).
Defined.

(** X6.  [clearBlacklist] returns the number of addresses that were
    blacklisted; afterwards the list of blacklisted addresses is empty, no
    address is blacklisted and the guard lets every request go on.  The
    whitelist is not touched. *)
Theorem clearBlacklist_clears (st : store) :
  fst (clearBlacklist st) = length (getBlacklistedIPs st)
  /\ getBlacklistedIPs (snd (clearBlacklist st)) = []
  /\ (forall a, isBlacklisted a (snd (clearBlacklist st)) = false)
  /\ (forall req, ipBlacklist (snd (clearBlacklist st)) req = Next)
  /\ whitelistedIPs (snd (clearBlacklist st)) = whitelistedIPs st.
Proof.
  split; [|split; [|split; [|split]]].
  - unfold clearBlacklist, getBlacklistedIPs. cbn [fst].
    rewrite (merge_sort_Permutation string_le (elements (blacklistedIPs st))).
    reflexivity.
  - unfold clearBlacklist, getBlacklistedIPs. cbn [snd blacklistedIPs].
    rewrite elements_empty. reflexivity.
  - intros a. unfold isBlacklisted, clearBlacklist. cbn [snd blacklistedIPs].
    apply bool_decide_eq_false, not_elem_of_empty.
  - intros req. unfold ipBlacklist, clearBlacklist. cbn [snd blacklistedIPs whitelistedIPs].
    destruct (decide (getClientIP req ∈ whitelistedIPs st)); [reflexivity|].
    destruct (decide (getClientIP req ∈ (∅ : gset string))) as [Hin|]; [|reflexivity].
    apply elem_of_empty in Hin. contradiction.
  - reflexivity.
Qed.

(** X28.  The client key is never the empty string.  When [req.ip] is
    missing or empty, a forwarded-for header whose first entry is not
    blank decides the key, whatever the peer addresses of the connection
    and the socket are; so a request that names a whitelisted address
    there passes the guard even when its peer address is blacklisted. *)
Theorem getClientIP_from_header (st : store) (req : request) :
  getClientIP req <> ""
  /\ (forall h a,
        is_truthy (ip req) = false ->
        headers req !! "x-forwarded-for" = Some h ->
        trim (first_entry h) = a -> a <> "" ->
        getClientIP req = a
        /\ (a ∈ whitelistedIPs st -> ipBlacklist st req = Next)).
Proof.
  split.
  - unfold getClientIP.
    destruct (IpBlacklistFacts.or_chain "0.0.0.0" (candidates req))
      as [(i & s & _ & Hs & _ & Hr) | [_ Hr]].
    + unfold candidates in Hr. cbn [foldr] in Hr. rewrite Hr. exact Hs.
    + unfold candidates in Hr. cbn [foldr] in Hr. rewrite Hr. discriminate.
  - intros h a Hip Hh Ha Hne.
    assert (Hkey : getClientIP req = a).
    { unfold getClientIP, forwarded_for. rewrite Hh. cbn [fmap option_fmap option_map].
      rewrite Ha. destruct a as [|c a]; [congruence|].
      destruct (ip req) as [[|x s]|]; try discriminate; reflexivity. }
    split; [exact Hkey|]. intros Hw. unfold ipBlacklist. rewrite Hkey.
    destruct (decide (a ∈ whitelistedIPs st)); [reflexivity | contradiction].
Qed.

Lemma getClientIP_from_header_witness :
  let req := {| ip := None;
                headers := {[ "x-forwarded-for" := " 127.0.0.1 , 10.0.0.5" ]};
                req_connection := Some {| remoteAddress := Some "10.0.0.5";
                                          conn_socket := None |};
                req_socket := Some {| peer_remoteAddress := Some "10.0.0.5" |} |} in
  is_truthy (ip req) = false
  /\ headers req !! "x-forwarded-for" = Some " 127.0.0.1 , 10.0.0.5"
  /\ trim (first_entry " 127.0.0.1 , 10.0.0.5") = "127.0.0.1"
  /\ "127.0.0.1" <> ""
  /\ getClientIP req = "127.0.0.1"
  /\ ("127.0.0.1" ∈ whitelistedIPs initial -> ipBlacklist initial req = Next).
Proof.
  intros req.
  assert (H1 : is_truthy (ip req) = false) by reflexivity.
  assert (H2 : headers req !! "x-forwarded-for" = Some " 127.0.0.1 , 10.0.0.5")
    by (vm_compute; reflexivity).
  assert (H3 : trim (first_entry " 127.0.0.1 , 10.0.0.5") = "127.0.0.1")
    by (vm_compute; reflexivity).
  assert (H4 : "127.0.0.1" <> "") by discriminate.
  split; [exact H1|]. split; [exact H2|]. split; [exact H3|]. split; [exact H4|].
  exact (proj2 (getClientIP_from_header initial req) _ _ H1 H2 H3 H4).
Defined.
End IpBlacklistMore.


(* ===================================================================== *)
(** ** Further properties of the rate limiter *)
(* ===================================================================== *)

Module RateLimiterMore.
Import Js Express RateLimiter.

(** *** The outcome of a call *)

(** The response depends on the store only through the number of
    timestamps of the client that lie in the window, and the store left
    holds the purged record, with [now] behind it when the call passes. *)
Lemma rateLimiter_unfold cfg req now sweep rateStore k :
  client_key req = Some k ->
  let kept := in_window cfg now (held rateStore k) in
  let born := match rateStore !! k with
              | Some d => resetTime d
              | None => (now + windowMs cfg)%Z
              end in
  rateLimiter cfg req now sweep rateStore
  = if (maxRequests cfg <=? length kept)%nat
    then (<[k := {| requests := kept; count := length kept; resetTime := born |}]> rateStore,
          TooManyRequests {| limit := maxRequests cfg; reset := now; retryAfter := 0 |})
    else (match sweep with
          | Some t =>
              cleanupOldEntries cfg t
                (<[k := {| requests := kept ++ [now]; count := length (kept ++ [now]);
                           resetTime := born |}]> rateStore)
          | None =>
              <[k := {| requests := kept ++ [now]; count := length (kept ++ [now]);
                        resetTime := born |}]> rateStore
          end,
          Next {| passed_limit := maxRequests cfg;
                  remaining := Z.of_nat (maxRequests cfg - S (length kept));
                  passed_reset := now |}).
Proof.
  intros Hk kept born. unfold rateLimiter. rewrite Hk. subst kept born. unfold held.
  assert (Hreset : (now - windowMs cfg + windowMs cfg)%Z = now) by lia.
  assert (Hzero : ceil_div (now - windowMs cfg + windowMs cfg - now) 1000 = 0%Z).
  { replace (now - windowMs cfg + windowMs cfg - now)%Z with 0%Z by lia. reflexivity. }
  destruct (rateStore !! k) as [d|]; cbv zeta; cbn [requests count resetTime];
    rewrite Hzero, Hreset;
    match goal with |- context [(?m <=? ?n)%nat] => destruct (Nat.leb_spec m n) as [Hle|Hlt] end;
    try reflexivity;
    rewrite insert_insert_eq; f_equal; f_equal; f_equal;
    rewrite length_app; cbn [length]; lia.
Qed.


(** *** Windows and sweeps *)

Lemma in_window_all cfg now ts :
  Forall (fun t => (now - windowMs cfg < t)%Z) ts -> in_window cfg now ts = ts.
Proof.
  unfold in_window. induction 1 as [|t ts Ht _ IH]; [reflexivity|].
  rewrite filter_cons_True by assumption. rewrite IH. reflexivity.
Qed.

Lemma in_window_none cfg now ts :
  Forall (fun t => (t <= now - windowMs cfg)%Z) ts -> in_window cfg now ts = [].
Proof.
  unfold in_window. induction 1 as [|t ts Ht _ IH]; [reflexivity|].
  rewrite filter_cons_False by lia. assumption.
Qed.

(** The fold that computes [Math.max(...requests)] returns an element of
    the list that no element exceeds. *)
Lemma fold_max_spec ts : forall t,
  fold_left Z.max ts t ∈ t :: ts
  /\ forall u, u ∈ t :: ts -> (u <= fold_left Z.max ts t)%Z.
Proof.
  induction ts as [|x ts IH]; intros t; cbn [fold_left].
  - split; [left|]. intros u Hu. apply list_elem_of_singleton in Hu. lia.
  - destruct (IH (Z.max t x)) as [Hin Hmax]. split.
    + apply elem_of_cons in Hin as [Heq|Hin].
      * rewrite Heq. destruct (Z.max_spec t x) as [[_ ->]|[_ ->]]; [right; left | left].
      * right. right. assumption.
    + intros u Hu. apply elem_of_cons in Hu as [->|Hu].
      * specialize (Hmax (Z.max t x) ltac:(left)). lia.
      * apply elem_of_cons in Hu as [->|Hu].
        -- specialize (Hmax (Z.max t x) ltac:(left)). lia.
        -- apply Hmax. right. assumption.
Qed.

(** A record survives a sweep exactly when one of its timestamps is not
    older than the cutoff. *)
Lemma stale_false cutoff d :
  stale cutoff d = false <-> exists u, u ∈ requests d /\ (cutoff <= u)%Z.
Proof.
  unfold stale. destruct (requests d) as [|t ts].
  - split; [discriminate|]. intros (u & Hu & _). apply elem_of_nil in Hu. contradiction.
  - destruct (fold_max_spec ts t) as [Hin Hmax]. rewrite Z.ltb_ge. split.
    + intros Hge. exists (fold_left Z.max ts t). split; assumption.
    + intros (u & Hu & Hcut). specialize (Hmax u Hu). lia.
Qed.

(** *** Properties *)

(** X7.  [resetRateLimit] tells whether the client had a record and
    removes it.  For a client without a record it returns [false] and
    leaves the store as it is.  Once a call of the client has been handled
    it returns [true]: after a denied call whatever the draw of the sweep
    (a denied call never sweeps), and after a call that passed when the
    sweep, if it ran, read the clock no later than [windowMs] after the
    call.  The bound is needed: a sweep that reads a later clock deletes
    the record the call has just written, as the call at 200 with a sweep
    at 5000 shows.  The call that follows a reset is answered as on an
    empty store, whatever the client had sent before.  Records of other
    keys are not touched. *)
Theorem reset_makes_fresh (cfg : config) (k : string) (rateStore : gmap (option string) clientData) :
  (rateStore !! Some k = None -> resetRateLimit k rateStore = (false, rateStore))
  /\ (forall req now sweep,
        client_key req = Some (Some k) ->
        (forall u, sweep = Some u -> (u - windowMs cfg <= now)%Z) ->
        fst (resetRateLimit k (fst (rateLimiter cfg req now sweep rateStore))) = true)
  /\ (forall req now sweep,
        client_key req = Some (Some k) ->
        is_next (snd (rateLimiter cfg req now sweep rateStore)) = false ->
        fst (resetRateLimit k (fst (rateLimiter cfg req now sweep rateStore))) = true)
  /\ fst (resetRateLimit "a"
            (fst (rateLimiter two_per_second (from_ip "a") 200 (Some 5000%Z) ∅))) = false
  /\ (forall req now sweep,
        client_key req = Some (Some k) ->
        snd (rateLimiter cfg req now sweep (snd (resetRateLimit k rateStore)))
        = snd (rateLimiter cfg req now sweep ∅))
  /\ (forall k', k' <> Some k ->
        snd (resetRateLimit k rateStore) !! k' = rateStore !! k').
Proof.
  split; [|split; [|split; [|split; [|split]]]].
  - intros Hnone. unfold resetRateLimit. rewrite Hnone, (delete_id _ _ Hnone).
    f_equal; apply bool_decide_eq_false; intros [x Hx]; discriminate.
  - intros req now sweep Hk Hsweep. unfold resetRateLimit. cbn [fst].
    apply bool_decide_eq_true.
    rewrite (rateLimiter_unfold cfg req now sweep rateStore (Some k) Hk). cbv zeta.
    destruct (maxRequests cfg <=? _)%nat; cbn [fst];
      [rewrite lookup_insert_eq; eexists; reflexivity|].
    destruct sweep as [u|]; [|rewrite lookup_insert_eq; eexists; reflexivity].
    eexists. apply map_lookup_filter_Some. split; [apply lookup_insert_eq|]. cbn [snd].
    apply stale_false. exists now. cbn [requests]. split.
    + apply elem_of_app. right. left.
    + apply Hsweep. reflexivity.
  - intros req now sweep Hk. unfold resetRateLimit. cbn [fst].
    rewrite (rateLimiter_unfold cfg req now sweep rateStore (Some k) Hk). cbv zeta.
    destruct (maxRequests cfg <=? _)%nat; cbn [fst snd is_next]; [|discriminate].
    intros _. apply bool_decide_eq_true. rewrite lookup_insert_eq. eexists; reflexivity.
  - vm_compute. reflexivity.
  - intros req now sweep Hk.
    rewrite !(rateLimiter_unfold cfg req now sweep _ (Some k) Hk). cbv zeta.
    unfold resetRateLimit, held. cbn [snd].
    rewrite lookup_delete_eq, lookup_empty.
    destruct (maxRequests cfg <=? _)%nat; reflexivity.
  - intros k' Hne. unfold resetRateLimit. cbn [snd]. apply lookup_delete_ne. congruence.
Qed.

Lemma reset_makes_fresh_witness :
  let rateStore := run two_per_second [Call (from_ip "a") 100 None] in
  rateStore !! Some "b" = None
  /\ resetRateLimit "b" rateStore = (false, rateStore)
  /\ client_key (from_ip "a") = Some (Some "a")
  /\ (forall u, Some 900%Z = Some u -> (u - windowMs two_per_second <= 200)%Z)
  /\ fst (resetRateLimit "a"
            (fst (rateLimiter two_per_second (from_ip "a") 200 (Some 900%Z) rateStore)))
     = true
  /\ is_next (snd (rateLimiter two_per_second (from_ip "a") 300 (Some 5000%Z)
                     (run two_per_second [Call (from_ip "a") 100 None;
                                          Call (from_ip "a") 200 None]))) = false
  /\ fst (resetRateLimit "a"
            (fst (rateLimiter two_per_second (from_ip "a") 300 (Some 5000%Z)
                    (run two_per_second [Call (from_ip "a") 100 None;
                                         Call (from_ip "a") 200 None]))))
     = true.
Proof.
  intros rateStore.
  assert (Hb : rateStore !! Some "b" = None) by (vm_compute; reflexivity).
  assert (Hk : client_key (from_ip "a") = Some (Some "a")) by reflexivity.
  assert (Hsweep : forall u, Some 900%Z = Some u -> (u - windowMs two_per_second <= 200)%Z).
  { intros u Hu. injection Hu as <-. cbn. lia. }
  assert (Hdenied : is_next (snd (rateLimiter two_per_second (from_ip "a") 300 (Some 5000%Z)
                     (run two_per_second [Call (from_ip "a") 100 None;
                                          Call (from_ip "a") 200 None]))) = false)
    by (vm_compute; reflexivity).
  split; [exact Hb|].
  split; [exact (proj1 (reset_makes_fresh two_per_second "b" rateStore) Hb)|].
  split; [exact Hk|].
  split; [exact Hsweep|].
  split; [exact (proj1 (proj2 (reset_makes_fresh two_per_second "a" rateStore))
                   (from_ip "a") 200%Z (Some 900%Z) Hk Hsweep)|].
  split; [exact Hdenied|].
  exact (proj1 (proj2 (proj2 (reset_makes_fresh two_per_second "a"
                                (run two_per_second [Call (from_ip "a") 100 None;
                                                     Call (from_ip "a") 200 None]))))
           (from_ip "a") 300%Z (Some 5000%Z) Hk Hdenied).
Defined.

(** X8.  A call that passes reports the limit, the instant of the call
    as the reset instant, and as remaining quota the limit less the number
    of timestamps in the window, the new one included; that number never
    exceeds the limit, so the clamp at zero is never in effect. *)
Theorem passed_reports_remaining cfg req now sweep rateStore k h :
  client_key req = Some k ->
  snd (rateLimiter cfg req now sweep rateStore) = Next h ->
  let n := length (in_window cfg now (held rateStore k)) in
  (n < maxRequests cfg)%nat
  /\ remaining h = (Z.of_nat (maxRequests cfg) - Z.of_nat (S n))%Z
  /\ (0 <= remaining h < Z.of_nat (maxRequests cfg))%Z
  /\ passed_limit h = maxRequests cfg
  /\ passed_reset h = now.
Proof.
  intros Hk Hout. cbv zeta.
  rewrite (rateLimiter_unfold cfg req now sweep rateStore k Hk) in Hout. cbv zeta in Hout.
  destruct (Nat.leb_spec (maxRequests cfg) (length (in_window cfg now (held rateStore k))))
    as [Hle|Hlt]; cbn [snd] in Hout; [discriminate|].
  injection Hout as <-. cbn [remaining passed_limit passed_reset].
  repeat split; try lia.
Qed.

Lemma passed_reports_remaining_witness :
  let rateStore := run two_per_second [Call (from_ip "a") 100 None] in
  let h := {| passed_limit := 2; remaining := 0; passed_reset := 200 |} in
  client_key (from_ip "a") = Some (Some "a")
  /\ snd (rateLimiter two_per_second (from_ip "a") 200 None rateStore) = Next h
  /\ (length (in_window two_per_second 200 (held rateStore (Some "a"))) < 2)%nat
  /\ remaining h
     = (2 - Z.of_nat (S (length (in_window two_per_second 200 (held rateStore (Some "a"))))))%Z.
Proof.
  intros rateStore h.
  assert (Hk : client_key (from_ip "a") = Some (Some "a")) by reflexivity.
  assert (Hout : snd (rateLimiter two_per_second (from_ip "a") 200 None rateStore) = Next h)
    by (vm_compute; reflexivity).
  split; [exact Hk|]. split; [exact Hout|].
  pose proof (passed_reports_remaining two_per_second (from_ip "a") 200%Z None rateStore
                (Some "a") h Hk Hout) as H.
  exact (conj (proj1 H) (proj1 (proj2 H))).
Defined.

Lemma held_after_sweep (cfg : config) (u : Z) (k : option string) (d : clientData)
  (s : gmap (option string) clientData) :
  held (cleanupOldEntries cfg u (<[k := d]> s)) k
  = if stale (u - windowMs cfg) d then [] else requests d.
Proof.
  unfold held. destruct (cleanupOldEntries cfg u (<[k := d]> s) !! k) as [d'|] eqn:Hc.
  - apply map_lookup_filter_Some in Hc as [Hc Hst]. cbn [snd] in Hst.
    rewrite lookup_insert_eq in Hc. injection Hc as <-. rewrite Hst. reflexivity.
  - apply map_lookup_filter_None in Hc as [Hc|Hc].
    + rewrite lookup_insert_eq in Hc. discriminate.
    + specialize (Hc d (lookup_insert_eq _ _ _)). cbn [snd] in Hc.
      destruct (stale (u - windowMs cfg) d); [reflexivity | contradiction].
Qed.

(** X9.  Once [windowMs] has gone by since every recorded request of a
    client, its next call passes with the full quota less one (the limit
    being at least one), whether the call runs the sweep or not.  After
    the call the record of the client holds that call alone, when the
    sweep, if it ran, read the clock no later than [windowMs] after the
    call; a sweep that read a later clock has deleted the record. *)
Theorem passes_after_window cfg req now sweep rateStore k :
  client_key req = Some k ->
  (0 < maxRequests cfg)%nat ->
  (forall t, t ∈ held rateStore k -> (t + windowMs cfg <= now)%Z) ->
  snd (rateLimiter cfg req now sweep rateStore)
  = Next {| passed_limit := maxRequests cfg;
            remaining := (Z.of_nat (maxRequests cfg) - 1)%Z;
            passed_reset := now |}
  /\ ((forall u, sweep = Some u -> (u - windowMs cfg <= now)%Z) ->
      held (fst (rateLimiter cfg req now sweep rateStore)) k = [now])
  /\ (forall u, sweep = Some u -> (now < u - windowMs cfg)%Z ->
      fst (rateLimiter cfg req now sweep rateStore) !! k = None).
Proof.
  intros Hk Hpos Hold.
  rewrite (rateLimiter_unfold cfg req now sweep rateStore k Hk). cbv zeta.
  rewrite in_window_none.
  2:{ apply Forall_forall. intros t Ht. specialize (Hold t Ht). lia. }
  cbn [length]. destruct (Nat.leb_spec (maxRequests cfg) 0) as [Hle|_]; [lia|].
  cbn [fst snd app]. split; [|split].
  - f_equal. f_equal. lia.
  - intros Hsweep. destruct sweep as [u|].
    + rewrite held_after_sweep. cbn [stale requests fold_left].
      specialize (Hsweep u eq_refl).
      destruct (Z.ltb_spec now (u - windowMs cfg)) as [Hlt|_]; [lia | reflexivity].
    + unfold held. rewrite lookup_insert_eq. reflexivity.
  - intros u -> Hlate. apply map_lookup_filter_None. right.
    intros d Hd. rewrite lookup_insert_eq in Hd. injection Hd as <-. cbn [snd].
    cbn [stale requests fold_left].
    destruct (Z.ltb_spec now (u - windowMs cfg)) as [_|Hge]; [discriminate | lia].
Qed.

Lemma passes_after_window_witness :
  let rateStore :=
    run two_per_second [Call (from_ip "a") 100 None; Call (from_ip "a") 600 None] in
  client_key (from_ip "a") = Some (Some "a")
  /\ (0 < maxRequests two_per_second)%nat
  /\ (forall t, t ∈ held rateStore (Some "a") -> (t + windowMs two_per_second <= 1600)%Z)
  /\ snd (rateLimiter two_per_second (from_ip "a") 1600 (Some 2000%Z) rateStore)
     = Next {| passed_limit := 2; remaining := (Z.of_nat 2 - 1)%Z; passed_reset := 1600 |}
  /\ held (fst (rateLimiter two_per_second (from_ip "a") 1600 (Some 2000%Z) rateStore))
          (Some "a")
     = [1600%Z]
  /\ fst (rateLimiter two_per_second (from_ip "a") 1600 (Some 9000%Z) rateStore) !! Some "a"
     = None.
Proof.
  intros rateStore.
  assert (Hk : client_key (from_ip "a") = Some (Some "a")) by reflexivity.
  assert (Hpos : (0 < maxRequests two_per_second)%nat) by (cbn; lia).
  assert (Hold : forall t, t ∈ held rateStore (Some "a")
                           -> (t + windowMs two_per_second <= 1600)%Z).
  { intros t Ht.
    assert (Hheld : held rateStore (Some "a") = [100; 600]%Z) by (vm_compute; reflexivity).
    rewrite Hheld in Ht. cbn [windowMs two_per_second].
    apply elem_of_cons in Ht as [->|Ht]; [lia|].
    apply list_elem_of_singleton in Ht. subst t. lia. }
  assert (Hsweep : forall u, Some 2000%Z = Some u -> (u - windowMs two_per_second <= 1600)%Z).
  { intros u Hu. injection Hu as <-. cbn. lia. }
  assert (Hlate : (1600 < 9000 - windowMs two_per_second)%Z) by (cbn; lia).
  split; [exact Hk|]. split; [exact Hpos|]. split; [exact Hold|].
  split; [exact (proj1 (passes_after_window two_per_second (from_ip "a") 1600%Z
                          (Some 2000%Z) rateStore (Some "a") Hk Hpos Hold))|].
  split; [exact (proj1 (proj2 (passes_after_window two_per_second (from_ip "a") 1600%Z
                                 (Some 2000%Z) rateStore (Some "a") Hk Hpos Hold)) Hsweep)|].
  exact (proj2 (proj2 (passes_after_window two_per_second (from_ip "a") 1600%Z
                         (Some 9000%Z) rateStore (Some "a") Hk Hpos Hold))
           9000%Z eq_refl Hlate).
Defined.

(** X10.  [cleanupOldEntries] keeps a record, unchanged, exactly when
    one of its timestamps is not older than the cutoff [now - windowMs];
    empty records and records whose newest timestamp is older go.  A
    second sweep at the same instant removes nothing more. *)
Theorem cleanup_keeps_recent (cfg : config) (now : Z) (rateStore : gmap (option string) clientData) :
  (forall k d,
      cleanupOldEntries cfg now rateStore !! k = Some d
      <-> rateStore !! k = Some d
          /\ exists u, u ∈ requests d /\ (now - windowMs cfg <= u)%Z)
  /\ cleanupOldEntries cfg now (cleanupOldEntries cfg now rateStore)
     = cleanupOldEntries cfg now rateStore.
Proof.
  split.
  - intros k d. unfold cleanupOldEntries. rewrite map_lookup_filter_Some. cbn [snd].
    rewrite stale_false. reflexivity.
  - unfold cleanupOldEntries. rewrite map_filter_filter.
    apply map_filter_ext. intros k d _. tauto.
Qed.

(** X11.  A sweep never changes a decision: when the sweep ran no later
    than the call, the response to the call is the same on the swept store
    as on the store that was not swept. *)
Theorem cleanup_is_transparent (cfg : config) (t : Z) (req : request) (now : Z)
  (sweep : option Z)
  (rateStore : gmap (option string) clientData) :
  (t <= now)%Z ->
  snd (rateLimiter cfg req now sweep (cleanupOldEntries cfg t rateStore))
  = snd (rateLimiter cfg req now sweep rateStore).
Proof.
  intros Hle. destruct (client_key req) as [k|] eqn:Hk.
  - rewrite !(rateLimiter_unfold cfg req now sweep _ k Hk). cbv zeta.
    assert (Hsame : in_window cfg now (held (cleanupOldEntries cfg t rateStore) k)
                    = in_window cfg now (held rateStore k)).
    { unfold held.
      destruct (cleanupOldEntries cfg t rateStore !! k) as [d'|] eqn:Hc.
      - apply map_lookup_filter_Some in Hc as [Hc _]. rewrite Hc. reflexivity.
      - apply map_lookup_filter_None in Hc as [Hc|Hc]; [rewrite Hc; reflexivity|].
        destruct (rateStore !! k) as [d|] eqn:Hd; [|reflexivity].
        specialize (Hc d eq_refl). cbn [snd] in Hc.
        symmetry. apply in_window_none, Forall_forall. intros u Hu.
        destruct (Z_le_gt_dec u (now - windowMs cfg)) as [|Hgt]; [assumption|].
        exfalso. apply Hc, stale_false. exists u. split; [assumption | lia]. }
    rewrite Hsame.
    destruct (maxRequests cfg <=? _)%nat; reflexivity.
  - unfold rateLimiter. rewrite Hk. reflexivity.
Qed.

Lemma cleanup_is_transparent_witness :
  let rateStore :=
    run two_per_second [Call (from_ip "a") 100 None; Call (from_ip "a") 600 None] in
  (1700 <= 1800)%Z
  /\ snd (rateLimiter two_per_second (from_ip "a") 1800 None
            (cleanupOldEntries two_per_second 1700 rateStore))
     = snd (rateLimiter two_per_second (from_ip "a") 1800 None rateStore).
Proof.
  intros rateStore.
  assert (Hle : (1700 <= 1800)%Z) by lia.
  split; [exact Hle|].
  exact (cleanup_is_transparent two_per_second 1700%Z (from_ip "a") 1800%Z None rateStore Hle).
Defined.

(** *** A burst of one client *)

(** The record of the client after a call, when every timestamp it held
    lies in the window of the call and a sweep, if one runs, comes at most
    [windowMs] after the call. *)
Lemma held_after_call cfg req now sweep rateStore k :
  client_key req = Some k ->
  Forall (fun t => (now - windowMs cfg < t)%Z) (held rateStore k) ->
  (forall u, sweep = Some u -> (u - windowMs cfg <= now)%Z) ->
  held (fst (rateLimiter cfg req now sweep rateStore)) k
  = (if (maxRequests cfg <=? length (held rateStore k))%nat
     then held rateStore k else held rateStore k ++ [now])%list
  /\ is_next (snd (rateLimiter cfg req now sweep rateStore))
     = negb (maxRequests cfg <=? length (held rateStore k))%nat.
Proof.
  intros Hk Hwin Hsweep.
  rewrite (rateLimiter_unfold cfg req now sweep rateStore k Hk). cbv zeta.
  rewrite (in_window_all cfg now _ Hwin).
  destruct (maxRequests cfg <=? length (held rateStore k))%nat; cbn [fst snd is_next negb].
  - split; [|reflexivity]. unfold held at 1. rewrite lookup_insert_eq. reflexivity.
  - split; [|reflexivity]. unfold held at 1.
    destruct sweep as [u|]; [|rewrite lookup_insert_eq; reflexivity].
    match goal with |- context [cleanupOldEntries cfg u (<[k := ?d]> rateStore)] =>
      assert (Hkeep : cleanupOldEntries cfg u (<[k := d]> rateStore) !! k = Some d)
    end.
    { apply map_lookup_filter_Some. split; [apply lookup_insert_eq|]. cbn [snd].
      apply stale_false. exists now. cbn [requests]. split.
      - apply elem_of_app. right. left.
      - apply Hsweep. reflexivity. }
    rewrite Hkeep. reflexivity.
Qed.

Lemma burst_outcomes cfg req k (calls : list (Z * option Z)) :
  client_key req = Some k ->
  (forall c u, c ∈ calls -> snd c = Some u -> (u - windowMs cfg <= fst c)%Z) ->
  forall rateStore,
    Forall (fun t => forall c, c ∈ calls -> (fst c - windowMs cfg < t)%Z) (held rateStore k) ->
    (forall c c', c ∈ calls -> c' ∈ calls -> (fst c' - windowMs cfg < fst c)%Z) ->
    List.map is_next (outcomes cfg rateStore (calls_of req calls))
    = (replicate (min (length calls) (maxRequests cfg - length (held rateStore k))) true
       ++ replicate (length calls - (maxRequests cfg - length (held rateStore k))) false)%list.
Proof.
  intros Hk. induction calls as [|[now sweep] calls IH]; intros Hsweep rateStore Hheld Hpair.
  - reflexivity.
  - cbn [calls_of List.map outcomes fst snd].
    assert (Hwin : Forall (fun t => (now - windowMs cfg < t)%Z) (held rateStore k)).
    { eapply Forall_impl; [exact Hheld|]. intros t Ht. apply (Ht (now, sweep)). left. }
    assert (Hsw : forall u, sweep = Some u -> (u - windowMs cfg <= now)%Z).
    { intros u ->. apply (Hsweep (now, Some u) u); [left | reflexivity]. }
    destruct (held_after_call cfg req now sweep rateStore k Hk Hwin Hsw) as [Hafter Hnext].
    rewrite Hnext.
    fold (calls_of req calls).
    rewrite IH; cycle 1.
    { intros c u Hc. apply Hsweep. right. assumption. }
    { rewrite Hafter.
      assert (Hrest : Forall (fun t => forall c, c ∈ calls -> (fst c - windowMs cfg < t)%Z)
                        (held rateStore k)).
      { eapply Forall_impl; [exact Hheld|]. intros t Ht c Hc. apply Ht. right. assumption. }
      destruct (maxRequests cfg <=? length (held rateStore k))%nat; [assumption|].
      apply Forall_app. split; [assumption|]. apply Forall_singleton.
      intros c Hc. apply (Hpair (now, sweep) c); [left | right; assumption]. }
    { intros c c' Hc Hc'. apply Hpair; right; assumption. }
    rewrite Hafter.
    destruct (Nat.leb_spec (maxRequests cfg) (length (held rateStore k))) as [Hle|Hlt];
      cbn [negb length].
    + replace (maxRequests cfg - length (held rateStore k))%nat with 0%nat by lia.
      rewrite !Nat.min_0_r, !Nat.sub_0_r. reflexivity.
    + rewrite length_app. cbn [length].
      replace (maxRequests cfg - length (held rateStore k))%nat
        with (S (maxRequests cfg - (length (held rateStore k) + 1)))%nat by lia.
      cbn [Nat.min replicate Nat.sub app]. reflexivity.
Qed.

Lemma count_replicate (a b : nat) :
  length (List.filter (fun x : bool => x) (replicate a true ++ replicate b false)) = a.
Proof.
  induction a as [|a IH]; cbn [replicate app List.filter length].
  - induction b as [|b IHb]; [reflexivity | exact IHb].
  - rewrite IH. reflexivity.
Qed.

(** X12.  When a client that has no timestamp on record sends calls
    whose instants all lie within [windowMs] of one another (sweeps, if
    any, running at most [windowMs] after their call), the first
    [maxRequests] of them pass and all later ones are denied: exactly
    [min n maxRequests] of [n] calls pass. *)
Theorem burst_admits_min (cfg : config) (req : request) (k : option string)
  (calls : list (Z * option Z)) (rateStore : gmap (option string) clientData) :
  client_key req = Some k ->
  held rateStore k = [] ->
  (forall c c', c ∈ calls -> c' ∈ calls -> (fst c' - windowMs cfg < fst c)%Z) ->
  (forall c u, c ∈ calls -> snd c = Some u -> (u - windowMs cfg <= fst c)%Z) ->
  List.map is_next (outcomes cfg rateStore (calls_of req calls))
  = (replicate (min (length calls) (maxRequests cfg)) true
     ++ replicate (length calls - maxRequests cfg) false)%list
  /\ length (List.filter is_next (outcomes cfg rateStore (calls_of req calls)))
     = min (length calls) (maxRequests cfg).
Proof.
  intros Hk Hfresh Hpair Hsweep.
  pose proof (burst_outcomes cfg req k calls Hk Hsweep rateStore) as H.
  rewrite Hfresh in H. cbn [length] in H. rewrite Nat.sub_0_r in H.
  specialize (H (Forall_nil_2 _) Hpair). split; [exact H|].
  rewrite <- (count_replicate (min (length calls) (maxRequests cfg))
                (length calls - maxRequests cfg)), <- H.
  generalize (outcomes cfg rateStore (calls_of req calls)) as outs.
  induction outs as [|o outs IH]; [reflexivity|].
  cbn [List.filter List.map]. destruct (is_next o); cbn [length]; rewrite IH; reflexivity.
Qed.

Lemma burst_admits_min_witness :
  let calls := [(100, None); (300, Some 310); (600, None); (900, None)]%Z in
  client_key (from_ip "a") = Some (Some "a")
  /\ held (∅ : gmap (option string) clientData) (Some "a") = []
  /\ List.map is_next (outcomes two_per_second ∅ (calls_of (from_ip "a") calls))
     = [true; true; false; false]
  /\ length (List.filter is_next (outcomes two_per_second ∅ (calls_of (from_ip "a") calls)))
     = 2%nat.
Proof.
  intros calls.
  assert (Hk : client_key (from_ip "a") = Some (Some "a")) by reflexivity.
  assert (Hfresh : held (∅ : gmap (option string) clientData) (Some "a") = []) by reflexivity.
  assert (Hpair : forall c c', c ∈ calls -> c' ∈ calls
                               -> (fst c' - windowMs two_per_second < fst c)%Z).
  { intros c c' Hc Hc'. unfold calls in Hc, Hc'. cbn [windowMs two_per_second].
    repeat (apply elem_of_cons in Hc as [->|Hc]);
      try (apply elem_of_nil in Hc; contradiction);
      repeat (apply elem_of_cons in Hc' as [->|Hc']);
      try (apply elem_of_nil in Hc'; contradiction); cbn [fst]; lia. }
  assert (Hsweep : forall c u, c ∈ calls -> snd c = Some u
                               -> (u - windowMs two_per_second <= fst c)%Z).
  { intros c u Hc. unfold calls in Hc. cbn [windowMs two_per_second].
    repeat (apply elem_of_cons in Hc as [->|Hc]);
      try (apply elem_of_nil in Hc; contradiction); cbn [fst snd]; intros [= <-] || discriminate.
    lia. }
  split; [exact Hk|]. split; [exact Hfresh|].
  exact (burst_admits_min two_per_second (from_ip "a") (Some "a") calls ∅
           Hk Hfresh Hpair Hsweep).
Defined.

(** *** Clients do not interfere *)


Lemma response_by_window cfg req now sweep k s1 s2 :
  client_key req = Some k ->
  in_window cfg now (held s1 k) = in_window cfg now (held s2 k) ->
  snd (rateLimiter cfg req now sweep s1) = snd (rateLimiter cfg req now sweep s2)
  /\ held (fst (rateLimiter cfg req now sweep s1)) k
     = held (fst (rateLimiter cfg req now sweep s2)) k.
Proof.
  intros Hk Hsame.
  rewrite !(rateLimiter_unfold cfg req now sweep _ k Hk). cbv zeta. rewrite Hsame.
  destruct (maxRequests cfg <=? _)%nat; cbn [fst snd].
  - split; [reflexivity|]. unfold held. rewrite !lookup_insert_eq. reflexivity.
  - split; [reflexivity|]. destruct sweep as [u|].
    + rewrite !held_after_sweep. reflexivity.
    + unfold held. rewrite !lookup_insert_eq. reflexivity.
Qed.

(** A sweep changes no window of an instant that is not before it. *)
Lemma sweep_same_window cfg k u s :
  same_window cfg k u (cleanupOldEntries cfg u s) s.
Proof.
  intros now Hle. unfold held.
  destruct (cleanupOldEntries cfg u s !! k) as [d'|] eqn:Hc.
  - apply map_lookup_filter_Some in Hc as [Hc _]. rewrite Hc. reflexivity.
  - apply map_lookup_filter_None in Hc as [Hc|Hc]; [rewrite Hc; reflexivity|].
    destruct (s !! k) as [d|] eqn:Hd; [|reflexivity].
    specialize (Hc d eq_refl). cbn [snd] in Hc.
    symmetry. apply in_window_none, Forall_forall. intros x Hx.
    destruct (Z_le_gt_dec x (now - windowMs cfg)) as [|Hgt]; [assumption|].
    exfalso. apply Hc, stale_false. exists x. split; [assumption | lia].
Qed.

(** The call of another client leaves the windows of [k] as they are,
    from the latest instant the call has read. *)
Lemma other_call_same_window cfg req now sweep k s :
  client_key req <> Some k ->
  same_window cfg k (match sweep with Some u => Z.max now u | None => now end)
    (fst (rateLimiter cfg req now sweep s)) s.
Proof.
  intros Hne. destruct (client_key req) as [k'|] eqn:Hk.
  - assert (Hkk : k' <> k) by congruence.
    rewrite (rateLimiter_unfold cfg req now sweep s k' Hk). cbv zeta.
    destruct (maxRequests cfg <=? _)%nat; cbn [fst].
    + intros t _. unfold held. rewrite lookup_insert_ne by assumption. reflexivity.
    + destruct sweep as [u|].
      * intros t Ht. rewrite (sweep_same_window cfg k u _ t) by lia.
        unfold held. rewrite lookup_insert_ne by assumption. reflexivity.
      * intros t _. unfold held. rewrite lookup_insert_ne by assumption. reflexivity.
  - unfold rateLimiter. rewrite Hk. cbn [fst]. intros t _. reflexivity.
Qed.

Lemma same_window_later cfg k t t' s1 s2 :
  (t <= t')%Z -> same_window cfg k t s1 s2 -> same_window cfg k t' s1 s2.
Proof. intros Hle H now Hnow. apply H. lia. Qed.

Lemma responses_restricted cfg k (history : list event) :
  forall t s1 s2,
    clock_from t history ->
    same_window cfg k t s1 s2 ->
    responses_to k cfg s1 history
    = responses_to k cfg s2 (List.filter (concerns k) history).
Proof.
  induction history as [|e history IH]; intros t s1 s2 Hclock Hsame; [reflexivity|].
  destruct e as [req now sweep | k']; cbn [List.filter concerns responses_to clock_from] in *.
  - destruct Hclock as [Hle Hclock].
    destruct (bool_decide (client_key req = Some k)) eqn:Hmine.
    + apply bool_decide_eq_true in Hmine. cbn [responses_to].
      rewrite (bool_decide_eq_true_2 _ Hmine).
      destruct (response_by_window cfg req now sweep k s1 s2 Hmine (Hsame now Hle))
        as [Hout Hheld].
      rewrite Hout. f_equal.
      apply (IH _ _ _ Hclock). intros x _. rewrite Hheld. reflexivity.
    + apply bool_decide_eq_false in Hmine. cbn [app].
      apply (IH _ _ _ Hclock). intros x Hx.
      rewrite (other_call_same_window cfg req now sweep k s1 Hmine x Hx).
      apply Hsame. destruct sweep; lia.
  - destruct (bool_decide (Some k' = k)) eqn:Hmine.
    + apply bool_decide_eq_true in Hmine. cbn [responses_to].
      apply (IH t _ _ Hclock). intros x _. unfold resetRateLimit, held. cbn [snd].
      rewrite <- Hmine, !lookup_delete_eq. reflexivity.
    + apply bool_decide_eq_false in Hmine.
      apply (IH t _ _ Hclock). intros x Hx. unfold resetRateLimit, held at 1. cbn [snd].
      rewrite lookup_delete_ne by assumption. apply (Hsame x Hx).
Qed.

(** X13.  Clients do not interfere: along any history whose clock does
    not run backwards, the responses to the calls of one client are those
    it would get if the history held its own calls and the resets of its
    key alone.  The calls of other clients, the sweeps they trigger and
    the resets of other keys change none of them. *)
Theorem clients_do_not_interfere (cfg : config) (k : option string) (t : Z)
  (history : list event) :
  clock_from t history ->
  responses_to k cfg ∅ history
  = responses_to k cfg ∅ (List.filter (concerns k) history).
Proof.
  intros Hclock. apply (responses_restricted cfg k history t ∅ ∅ Hclock).
  intros now _. reflexivity.
Qed.

Lemma clients_do_not_interfere_witness :
  let history := [Call (from_ip "a") 100 None; Call (from_ip "b") 150 (Some 160%Z);
                  Call (from_ip "b") 200 None; Call (from_ip "a") 600 None;
                  Reset "b"; Call (from_ip "a") 700 None; Call (from_ip "b") 2000 (Some 2001%Z);
                  Call (from_ip "a") 2100 None] in
  clock_from 0 history
  /\ responses_to (Some "a") two_per_second ∅ history
     = responses_to (Some "a") two_per_second ∅
         [Call (from_ip "a") 100 None; Call (from_ip "a") 600 None;
          Call (from_ip "a") 700 None; Call (from_ip "a") 2100 None].
Proof.
  intros history.
  assert (Hclock : clock_from 0 history) by (cbn; lia).
  split; [exact Hclock|].
  exact (clients_do_not_interfere two_per_second (Some "a") 0%Z history Hclock).
Defined.
End RateLimiterMore.




(* ===================================================================== *)
(** ** What the patterns of the source accept *)
(* ===================================================================== *)

Module PatternFacts.
Import Js Regex RegexFacts Validator IpBlacklist.

(** A group of digits and the dot behind it. *)
Lemma Matches_group_dot (s : string) :
  Matches (Seq (Range 1 3 (Cls is_digit)) (Lit ".")) s
  <-> exists g, s = g +:+ "." /\ digit_group g.
Proof.
  rewrite Matches_seq. unfold digit_group. split.
  - intros (g & d & -> & Hg & Hd). apply Matches_lit in Hd as ->.
    apply Matches_range_cls in Hg; [|lia]. exists g. split; [reflexivity | exact Hg].
  - intros (g & -> & Hg). exists g, ".". split; [reflexivity|]. split.
    + apply Matches_range_cls; [lia | exact Hg].
    + apply Matches_lit. reflexivity.
Qed.

(** X14.  The first format pattern of [addToBlacklist] accepts exactly
    four groups of one to three digits with dots between them (a group is
    not bounded by 255), the second exactly the non-empty strings of
    hexadecimal digits and colons; the format check passes when one of
    them accepts. *)
Theorem well_formed_shape (a : string) :
  (test_anchored ipv4Regex a = true
   <-> exists g1 g2 g3 g4,
         a = g1 +:+ "." +:+ g2 +:+ "." +:+ g3 +:+ "." +:+ g4
         /\ digit_group g1 /\ digit_group g2 /\ digit_group g3 /\ digit_group g4)
  /\ (test_anchored ipv6Regex a = true <-> a <> "" /\ all_in hex_or_colon a = true)
  /\ (well_formed a = true
      <-> (exists g1 g2 g3 g4,
             a = g1 +:+ "." +:+ g2 +:+ "." +:+ g3 +:+ "." +:+ g4
             /\ digit_group g1 /\ digit_group g2 /\ digit_group g3 /\ digit_group g4)
          \/ (a <> "" /\ all_in hex_or_colon a = true)).
Proof.
  assert (H4 : test_anchored ipv4Regex a = true
               <-> exists g1 g2 g3 g4,
                     a = g1 +:+ "." +:+ g2 +:+ "." +:+ g3 +:+ "." +:+ g4
                     /\ digit_group g1 /\ digit_group g2 /\ digit_group g3 /\ digit_group g4).
  { rewrite test_anchored_Matches. unfold ipv4Regex. cbn [Rep]. split.
    - intros H. apply Matches_seq in H as (x & g4 & -> & Hx & H4).
      apply Matches_seq in Hx as (x1 & y & -> & H1 & Hy).
      apply Matches_seq in Hy as (x2 & z & -> & H2 & Hz).
      apply Matches_seq in Hz as (x3 & e & -> & H3 & He).
      apply Matches_eps in He as ->.
      apply Matches_group_dot in H1 as (g1 & -> & G1).
      apply Matches_group_dot in H2 as (g2 & -> & G2).
      apply Matches_group_dot in H3 as (g3 & -> & G3).
      apply Matches_range_cls in H4; [|lia].
      exists g1, g2, g3, g4. split; [|exact (conj G1 (conj G2 (conj G3 H4)))].
      rewrite str_app_nil_r, !str_app_assoc. reflexivity.
    - intros (g1 & g2 & g3 & g4 & -> & G1 & G2 & G3 & G4).
      replace (g1 +:+ "." +:+ g2 +:+ "." +:+ g3 +:+ "." +:+ g4)
        with (((g1 +:+ ".") +:+ (g2 +:+ ".") +:+ (g3 +:+ ".") +:+ "") +:+ g4)
        by (rewrite str_app_nil_r, !str_app_assoc; reflexivity).
      apply MSeq; [|apply Matches_range_cls; [lia | exact G4]].
      apply MSeq; [apply Matches_group_dot; exists g1; split; [reflexivity | exact G1]|].
      apply MSeq; [apply Matches_group_dot; exists g2; split; [reflexivity | exact G2]|].
      apply MSeq; [apply Matches_group_dot; exists g3; split; [reflexivity | exact G3]|].
      constructor. }
  assert (H6 : test_anchored ipv6Regex a = true <-> a <> "" /\ all_in hex_or_colon a = true).
  { rewrite test_anchored_Matches. unfold ipv6Regex. apply Matches_plus_cls. }
  split; [exact H4|]. split; [exact H6|].
  unfold well_formed. rewrite orb_true_iff, H4, H6. reflexivity.
Qed.

(** X15.  What the four validators accept.  [alphanumeric]: the
    non-empty strings of ASCII letters and digits.  [name]: the strings of
    2 to 50 ASCII letters and white-space characters.  [phoneNumber]: an
    optional plus sign, then at least ten characters, each a digit, a
    white-space character, a hyphen or a parenthesis.  [email]: a local
    part, an at sign, and a domain of two parts with a dot between them,
    the three parts non-empty and free of white space and at signs. *)
Theorem validators_accept (v : string) :
  (validators alphanumeric v = true
   <-> v <> ""
       /\ all_in (fun c => in_range "a" "z" c || in_range "A" "Z" c || is_digit c) v = true)
  /\ (validators name v = true
      <-> (2 <= String.length v <= 50)%nat
          /\ all_in (fun c => in_range "a" "z" c || in_range "A" "Z" c || is_space c) v = true)
  /\ (validators phoneNumber v = true
      <-> exists rest,
            (v = rest \/ v = String "+" rest)
            /\ (10 <= String.length rest)%nat
            /\ all_in (fun c => is_digit c || is_space c
                                || existsb (Ascii.eqb c) ["-"; "("; ")"]%char) rest = true)
  /\ (validators email v = true
      <-> exists a b c,
            v = a +:+ "@" +:+ b +:+ "." +:+ c
            /\ a <> "" /\ b <> "" /\ c <> ""
            /\ all_in (fun x => negb (is_space x || Ascii.eqb x "@")) (a +:+ b +:+ c) = true).
Proof.
  split; [|split; [|split]]; cbn [validators]; rewrite test_anchored_Matches.
  - unfold alphanumericRegex. apply Matches_plus_cls.
  - unfold nameRegex. apply Matches_range_cls. lia.
  - unfold phoneRegex, Opt. rewrite Matches_seq. split.
    + intros (a & rest & -> & Ha & Hrest). apply Matches_atleast_cls in Hrest.
      exists rest. split; [|exact Hrest].
      apply Matches_alt in Ha as [Ha|Ha].
      * apply Matches_lit in Ha as ->. right. reflexivity.
      * apply Matches_eps in Ha as ->. left. reflexivity.
    + intros (rest & [-> | ->] & Hrest).
      * exists "", rest. split; [reflexivity|]. split.
        -- apply MAltR. constructor.
        -- apply Matches_atleast_cls. exact Hrest.
      * exists "+", rest. split; [reflexivity|]. split.
        -- apply MAltL. apply Matches_lit. reflexivity.
        -- apply Matches_atleast_cls. exact Hrest.
  - unfold emailRegex. cbn [Seqs]. split.
    + intros H. apply Matches_seq in H as (a & y & -> & Ha & Hy).
      apply Matches_lit_then in Hy as (y' & -> & Hy).
      apply Matches_seq in Hy as (b & z & -> & Hb & Hz).
      apply Matches_lit_then in Hz as (z' & -> & Hz).
      apply Matches_seq in Hz as (c & e & -> & Hc & He).
      apply Matches_eps in He as ->. rewrite str_app_nil_r.
      apply Matches_plus_cls in Ha as [Ha Ha'], Hb as [Hb Hb'], Hc as [Hc Hc'].
      exists a, b, c. split; [reflexivity|]. repeat split; try assumption.
      rewrite !all_in_app, Ha', Hb', Hc'. reflexivity.
    + intros (a & b & c & -> & Ha & Hb & Hc & Hall).
      rewrite !all_in_app in Hall.
      apply andb_true_iff in Hall as [Ha' Hall]. apply andb_true_iff in Hall as [Hb' Hc'].
      apply MSeq; [apply Matches_plus_cls; split; assumption|].
      apply Matches_lit_then. exists (b +:+ "." +:+ c). split; [reflexivity|].
      apply MSeq; [apply Matches_plus_cls; split; assumption|].
      apply Matches_lit_then. exists c. split; [reflexivity|].
      rewrite <- (str_app_nil_r c) at 1.
      apply MSeq; [apply Matches_plus_cls; split; assumption | constructor].
Qed.

End PatternFacts.


(* ===================================================================== *)
(** ** Further properties of the field validator *)
(* ===================================================================== *)

Module ValidatorMore.
Import Js Validator.

Lemma truthy_iff (v : string) : truthy v = true <-> v <> "".
Proof. destruct v; cbn; split; congruence. Qed.

Lemma trim_truthy (s : string) : trim s <> "" -> truthy s = true.
Proof. intros H. apply truthy_iff. intros ->. apply H. reflexivity. Qed.

(** The three answers of the required test. *)
Lemma is_blank_false (value : looked) :
  is_blank value = Some false <-> exists s, value = Own (JStr s) /\ trim s <> "".
Proof.
  unfold is_blank. split.
  - destruct (to_boolean value) eqn:Ht; cbn [negb]; [|discriminate].
    destruct value as [|[| | | |s| |]|]; try discriminate.
    intros [= H]. exists s. split; [reflexivity|]. apply String.eqb_neq. exact H.
  - intros (s & -> & Hs). cbn [to_boolean]. rewrite (trim_truthy s Hs). cbn [negb].
    apply String.eqb_neq in Hs. rewrite Hs. reflexivity.
Qed.

Lemma is_blank_throws (value : looked) :
  is_blank value = None <-> to_boolean value = true /\ forall s, value <> Own (JStr s).
Proof.
  unfold is_blank. split.
  - destruct (to_boolean value) eqn:Ht; cbn [negb]; [|discriminate].
    intros H. split; [reflexivity|]. intros s ->. discriminate.
  - intros [-> Hs]. cbn [negb].
    destruct value as [|[| | | |s| |]|]; try reflexivity.
    exfalso. apply (Hs s). reflexivity.
Qed.

Lemma check_format_nil js field r value :
  check_format js field r value = Some []
  <-> (to_boolean value = true ->
       forall k, type r = Some k ->
         exists text, looked_text js value = Some text /\ validators k text = true).
Proof.
  unfold check_format. destruct (to_boolean value); [|split; [discriminate | reflexivity]].
  destruct (type r) as [k|]; [|split; [intros _ _ k; discriminate | reflexivity]].
  destruct (looked_text js value) as [text|]; cbn.
  - destruct (validators k text) eqn:Hv.
    + split; [|reflexivity]. intros _ _ k' [= <-]. exists text. split; [reflexivity | exact Hv].
    + split; [discriminate|]. intros H.
      destruct (H eq_refl k eq_refl) as (t & [= <-] & Ht). congruence.
  - split; [discriminate|]. intros H. destruct (H eq_refl k eq_refl) as (t & Ht & _).
    discriminate.
Qed.

Lemma check_format_throws js field r value :
  check_format js field r value = None
  <-> to_boolean value = true /\ exists k, type r = Some k /\ looked_text js value = None.
Proof.
  unfold check_format. destruct (to_boolean value); [|split; [discriminate | intros [? _]; discriminate]].
  destruct (type r) as [k|]; [|split; [discriminate | intros [_ (k & Hk & _)]; discriminate]].
  destruct (looked_text js value) as [text|]; cbn.
  - split; [discriminate | intros [_ (k' & _ & Hk')]; discriminate].
  - split; [|reflexivity]. intros _. split; [reflexivity|]. exists k. split; reflexivity.
Qed.

Lemma check_minLength_nil js field r value :
  check_minLength js field r value = Some []
  <-> (to_boolean value = true ->
       forall n, minLength r = Some (S n) -> length_below js value (S n) = Some false).
Proof.
  unfold check_minLength, positive_rule.
  destruct (to_boolean value); [|split; [discriminate | reflexivity]].
  destruct (minLength r) as [[|n]|]; try (split; [intros _ _ n'; discriminate | reflexivity]).
  destruct (length_below js value (S n)) as [[|]|] eqn:Hb; cbn.
  - split; [discriminate|]. intros H. specialize (H eq_refl n eq_refl). congruence.
  - split; [|reflexivity]. intros _ _ n' [= <-]. exact Hb.
  - split; [discriminate|]. intros H. specialize (H eq_refl n eq_refl). congruence.
Qed.

Lemma check_minLength_throws js field r value :
  check_minLength js field r value = None
  <-> to_boolean value = true
      /\ exists n, minLength r = Some (S n) /\ length_below js value (S n) = None.
Proof.
  unfold check_minLength, positive_rule.
  destruct (to_boolean value); [|split; [discriminate | intros [? _]; discriminate]].
  destruct (minLength r) as [[|n]|];
    try (split; [discriminate | intros [_ (n' & Hn & _)]; discriminate]).
  destruct (length_below js value (S n)) as [[|]|] eqn:Hb; cbn.
  - split; [discriminate | intros [_ (n' & [= <-] & Hn)]; congruence].
  - split; [discriminate | intros [_ (n' & [= <-] & Hn)]; congruence].
  - split; [|reflexivity]. intros _. split; [reflexivity|]. exists n. split; [reflexivity | exact Hb].
Qed.

Lemma check_maxLength_nil js field r value :
  check_maxLength js field r value = Some []
  <-> (to_boolean value = true ->
       forall n, maxLength r = Some (S n) -> length_above js value (S n) = Some false).
Proof.
  unfold check_maxLength, positive_rule.
  destruct (to_boolean value); [|split; [discriminate | reflexivity]].
  destruct (maxLength r) as [[|n]|]; try (split; [intros _ _ n'; discriminate | reflexivity]).
  destruct (length_above js value (S n)) as [[|]|] eqn:Hb; cbn.
  - split; [discriminate|]. intros H. specialize (H eq_refl n eq_refl). congruence.
  - split; [|reflexivity]. intros _ _ n' [= <-]. exact Hb.
  - split; [discriminate|]. intros H. specialize (H eq_refl n eq_refl). congruence.
Qed.

Lemma check_maxLength_throws js field r value :
  check_maxLength js field r value = None
  <-> to_boolean value = true
      /\ exists n, maxLength r = Some (S n) /\ length_above js value (S n) = None.
Proof.
  unfold check_maxLength, positive_rule.
  destruct (to_boolean value); [|split; [discriminate | intros [? _]; discriminate]].
  destruct (maxLength r) as [[|n]|];
    try (split; [discriminate | intros [_ (n' & Hn & _)]; discriminate]).
  destruct (length_above js value (S n)) as [[|]|] eqn:Hb; cbn.
  - split; [discriminate | intros [_ (n' & [= <-] & Hn)]; congruence].
  - split; [discriminate | intros [_ (n' & [= <-] & Hn)]; congruence].
  - split; [|reflexivity]. intros _. split; [reflexivity|]. exists n. split; [reflexivity | exact Hb].
Qed.

Lemma later_checks_nil js field r value :
  later_checks js field r value = Some []
  <-> check_format js field r value = Some []
      /\ check_minLength js field r value = Some []
      /\ check_maxLength js field r value = Some [].
Proof.
  unfold later_checks.
  destruct (check_format js field r value) as [f|]; cbn;
    [|split; [discriminate | intros [? _]; discriminate]].
  destruct (check_minLength js field r value) as [m|]; cbn;
    [|split; [discriminate | intros (_ & ? & _); discriminate]].
  destruct (check_maxLength js field r value) as [x|]; cbn;
    [|split; [discriminate | intros (_ & _ & ?); discriminate]].
  split.
  - intros [= H]. apply app_eq_nil in H as [-> H]. apply app_eq_nil in H as [-> ->].
    repeat split.
  - intros ([= ->] & [= ->] & [= ->]). reflexivity.
Qed.

Lemma later_checks_throws js field r value :
  later_checks js field r value = None
  <-> check_format js field r value = None
      \/ check_minLength js field r value = None
      \/ check_maxLength js field r value = None.
Proof.
  unfold later_checks.
  destruct (check_format js field r value) as [f|]; cbn; [|split; [left; reflexivity | reflexivity]].
  destruct (check_minLength js field r value) as [m|]; cbn;
    [|split; [right; left; reflexivity | reflexivity]].
  destruct (check_maxLength js field r value) as [x|]; cbn;
    [|split; [right; right; reflexivity | reflexivity]].
  split; [discriminate | intros [?|[?|?]]; discriminate].
Qed.

Lemma check_field_later js field r value :
  check_field js field r value
  = match (if required r then is_blank value else Some false) with
    | None => None
    | Some true => Some [field +:+ " is required"]
    | Some false => later_checks js field r value
    end.
Proof.
  unfold check_field.
  destruct (if required r then is_blank value else Some false) as [[|]|]; reflexivity.
Qed.

(** A field yields no message exactly when its value meets its rule. *)
Lemma check_field_nil js field r value :
  check_field js field r value = Some [] <-> field_ok js r value.
Proof.
  rewrite check_field_later. unfold field_ok.
  assert (Hlater : later_checks js field r value = Some []
                   <-> (to_boolean value = true ->
                        (forall k, type r = Some k ->
                           exists text, looked_text js value = Some text
                                        /\ validators k text = true)
                        /\ (forall n, minLength r = Some (S n)
                                      -> length_below js value (S n) = Some false)
                        /\ (forall n, maxLength r = Some (S n)
                                      -> length_above js value (S n) = Some false))).
  { rewrite later_checks_nil, check_format_nil, check_minLength_nil, check_maxLength_nil.
    split.
    - intros (Hf & Hmin & Hmax) Ht. repeat split; auto.
    - intros H. repeat split; intros Ht; apply (H Ht). }
  destruct (required r).
  - destruct (is_blank value) as [[|]|] eqn:Hb.
    + split; [discriminate|]. intros [Hs _]. apply is_blank_false in Hs; [|reflexivity].
      congruence.
    + rewrite Hlater. split.
      * intros H. split; [|exact H]. intros _. apply is_blank_false. exact Hb.
      * intros [_ H]. exact H.
    + split; [discriminate|]. intros [Hs _]. apply is_blank_false in Hs; [|reflexivity].
      congruence.
  - rewrite Hlater. split.
    + intros H. split; [discriminate | exact H].
    + intros [_ H]. exact H.
Qed.

(** The check of a field throws exactly in the cases [field_throws]
    lists. *)
Lemma check_field_throws js field r value :
  check_field js field r value = None <-> field_throws js r value.
Proof.
  rewrite check_field_later. unfold field_throws.
  assert (Hlater : later_checks js field r value = None
                   <-> to_boolean value = true
                       /\ ((exists k, type r = Some k /\ looked_text js value = None)
                           \/ (exists n, minLength r = Some (S n)
                                         /\ length_below js value (S n) = None)
                           \/ (exists n, maxLength r = Some (S n)
                                         /\ length_above js value (S n) = None))).
  { rewrite later_checks_throws, check_format_throws, check_minLength_throws,
      check_maxLength_throws. tauto. }
  destruct (required r).
  - destruct (is_blank value) as [[|]|] eqn:Hb.
    + split; [discriminate|]. intros [Ht [[_ Hs]|[Hs _]]].
      * assert (is_blank value = None) by (apply is_blank_throws; split; assumption).
        congruence.
      * apply is_blank_false in Hs; [|reflexivity]. congruence.
    + rewrite Hlater. apply is_blank_false in Hb. split.
      * intros [Ht H]. split; [exact Ht|]. right. split; [intros _; exact Hb | exact H].
      * intros [Ht [[_ Hs]|[_ H]]]; [|split; assumption].
        destruct Hb as (s & -> & _). exfalso. apply (Hs s). reflexivity.
    + apply is_blank_throws in Hb as [Ht Hs]. split; [|reflexivity].
      intros _. split; [exact Ht|]. left. split; [reflexivity | exact Hs].
  - rewrite Hlater. split.
    + intros [Ht H]. split; [exact Ht|]. right. split; [discriminate | exact H].
    + intros [Ht [[? _]|[_ H]]]; [discriminate | split; assumption].
Qed.

(** The loop throws exactly when the check of one of the fields does. *)
Lemma collect_throws js validationRules body :
  forall errors,
    collect js validationRules body errors = None
    <-> exists field r, In (field, r) validationRules
                        /\ check_field js field r (lookup_field body field) = None.
Proof.
  induction validationRules as [|[field r] rest IH]; intros errors; cbn [collect].
  - split; [discriminate | intros (f & r & [] & _)].
  - destruct (check_field js field r (lookup_field body field)) as [msgs|] eqn:Hc; cbn.
    + rewrite IH. split.
      * intros (f & r' & Hin & Hnone). exists f, r'. split; [right; exact Hin | exact Hnone].
      * intros (f & r' & [Heq|Hin] & Hnone).
        -- injection Heq as <- <-. congruence.
        -- exists f, r'. split; assumption.
    + split; [|reflexivity]. intros _. exists field, r. split; [left; reflexivity | exact Hc].
Qed.

(** The loop ends without a message exactly when no field has one. *)
Lemma collect_nil js validationRules body :
  collect js validationRules body [] = Some []
  <-> forall field r, In (field, r) validationRules
                      -> check_field js field r (lookup_field body field) = Some [].
Proof.
  induction validationRules as [|[field r] rest IH]; cbn [collect].
  - split; [intros _ f r [] | reflexivity].
  - destruct (check_field js field r (lookup_field body field)) as [msgs|] eqn:Hc; cbn.
    + rewrite ValidatorFacts.collect_app. split.
      * destruct (collect js rest body []) as [more|] eqn:Hm; cbn; [|discriminate].
        intros [= H]. apply app_eq_nil in H as [-> ->].
        intros f r' [[= <- <-]|Hin]; [exact Hc | apply IH; [reflexivity | exact Hin]].
      * intros H. assert (Hrest : collect js rest body [] = Some []).
        { apply IH. intros f r' Hin. apply H. right. exact Hin. }
        rewrite Hrest. cbn. specialize (H field r (or_introl eq_refl)).
        rewrite Hc in H. injection H as ->. reflexivity.
    + split; [discriminate|]. intros H. specialize (H field r (or_introl eq_refl)).
      rewrite Hc in H. discriminate.
Qed.

(** No message at all exactly when every field meets its rule. *)
Lemma createValidator_Next js (validationRules : list (string * rules))
  (body : list (string * value)) :
  createValidator js validationRules body = Next
  <-> forall field r, In (field, r) validationRules
                      -> field_ok js r (lookup_field body field).
Proof.
  assert (Hnext : createValidator js validationRules body = Next
                  <-> collect js validationRules body [] = Some []).
  { unfold createValidator. destruct (collect js validationRules body []) as [[|e errs]|];
      cbn; split; congruence. }
  rewrite Hnext, collect_nil. split; intros H field r Hin.
  - apply (check_field_nil js field). apply H. exact Hin.
  - apply check_field_nil. apply H. exact Hin.
Qed.

Lemma createValidator_Threw js (validationRules : list (string * rules))
  (body : list (string * value)) :
  createValidator js validationRules body = Threw
  <-> exists field r, In (field, r) validationRules
                      /\ field_throws js r (lookup_field body field).
Proof.
  assert (Hthrew : createValidator js validationRules body = Threw
                   <-> collect js validationRules body [] = None).
  { unfold createValidator. destruct (collect js validationRules body []) as [[|e errs]|];
      cbn; split; congruence. }
  rewrite Hthrew, collect_throws. split; intros (field & r & Hin & H); exists field, r;
    (split; [exact Hin|]).
  - apply (check_field_throws js field). exact H.
  - apply check_field_throws. exact H.
Qed.

(** X16.  The validator has three outcomes.  It lets a request go on
    exactly when the value of every field meets its rule.  It throws a
    [TypeError] exactly when the check of some field throws: the field
    is required and its value is truthy but not a string (a number, an
    array, an object, a member inherited from [Object.prototype]), or a
    later check cannot convert a value that is not a string.  Otherwise
    it answers 400, with at least one message, and some field does not
    meet its rule.  A truthy value that is not a string, under a rule
    that is not required and only names a type, is tested as its text:
    the request goes on when the validator of the type accepts the text,
    and is answered 400 with the format message when it does not.  A
    field yields at most three messages, and exactly one when it is
    required and its value is falsy. *)
Theorem createValidator_decides (js : conversions)
  (validationRules : list (string * rules)) (body : list (string * value)) :
  (createValidator js validationRules body = Next
   <-> forall field r, In (field, r) validationRules
                       -> field_ok js r (lookup_field body field))
  /\ (createValidator js validationRules body = Threw
      <-> exists field r, In (field, r) validationRules
                          /\ field_throws js r (lookup_field body field))
  /\ (forall errors,
        createValidator js validationRules body = Status400 errors ->
        errors <> []
        /\ (forall field r, In (field, r) validationRules
                            -> ~ field_throws js r (lookup_field body field))
        /\ exists field r, In (field, r) validationRules
                           /\ ~ field_ok js r (lookup_field body field))
  /\ (forall field r, In (field, r) validationRules -> required r = true ->
        forall v, lookup_field body field = Own v -> to_boolean (Own v) = true ->
                  (forall s, v <> JStr s) ->
                  createValidator js validationRules body = Threw)
  /\ (forall field k v,
        to_boolean (Own v) = true ->
        createValidator js
          [(field, {| required := false; type := Some k;
                      minLength := None; maxLength := None |})]
          [(field, v)]
        = match value_text js v with
          | Some text =>
              if validators k text then Next
              else Status400 [field +:+ " has invalid format"]
          | None => Threw
          end)
  /\ (forall field r value msgs,
        check_field js field r value = Some msgs ->
        (length msgs <= 3)%nat
        /\ (required r = true -> to_boolean value = false ->
            msgs = [field +:+ " is required"])).
Proof.
  split; [apply createValidator_Next|].
  split; [apply createValidator_Threw|].
  split; [|split; [|split]].
  - intros errors Hout.
    assert (Hnot_next : createValidator js validationRules body <> Next) by congruence.
    assert (Hnot_threw : createValidator js validationRules body <> Threw) by congruence.
    split; [|split].
    + unfold createValidator in Hout.
      destruct (collect js validationRules body []) as [[|e errs]|]; cbn in Hout;
        [discriminate | injection Hout as <-; discriminate | discriminate].
    + intros field r Hin Hthrows. apply Hnot_threw. apply createValidator_Threw.
      exists field, r. split; assumption.
    + clear Hout. unfold createValidator in Hnot_next, Hnot_threw.
      destruct (collect js validationRules body []) as [errs|] eqn:Hc; [|congruence].
      clear Hnot_threw.
      assert (Hne : errs <> []) by (destruct errs; cbn in Hnot_next; congruence).
      clear Hnot_next. revert errs Hc Hne.
      induction validationRules as [|[field r] rest IH]; intros errs Hc Hne.
      * cbn in Hc. congruence.
      * cbn [collect] in Hc.
        destruct (check_field js field r (lookup_field body field)) as [msgs|] eqn:Hf;
          [|discriminate].
        cbn in Hc. destruct msgs as [|m msgs].
        -- destruct (IH errs Hc Hne) as (f & r' & Hin & Hbad).
           exists f, r'. split; [right; exact Hin | exact Hbad].
        -- exists field, r. split; [left; reflexivity|]. intros Hok.
           apply (check_field_nil js field) in Hok. congruence.
  - intros field r Hin Hreq v Hv Ht Hs. apply createValidator_Threw.
    exists field, r. split; [exact Hin|]. rewrite Hv. split; [exact Ht|]. left.
    split; [exact Hreq|]. intros s [= ->]. apply (Hs s). reflexivity.
  - intros field k v Ht. unfold createValidator. cbn [collect].
    assert (Hv : lookup_field [(field, v)] field = Own v).
    { unfold lookup_field. cbn [find_key]. rewrite String.eqb_refl. reflexivity. }
    rewrite Hv. unfold check_field, later_checks, check_format, check_minLength,
      check_maxLength, positive_rule.
    cbn [required type minLength maxLength]. rewrite Ht. cbn [looked_text].
    destruct (value_text js v) as [text|]; cbn; [|reflexivity].
    destruct (validators k text); reflexivity.
  - intros field r value msgs. rewrite check_field_later.
    split.
    + destruct (if required r then is_blank value else Some false) as [[|]|];
        [injection H as <-; cbn; lia | | discriminate].
      unfold later_checks, check_format, check_minLength, check_maxLength in H.
      destruct (to_boolean value); [|injection H as <-; cbn; lia].
      destruct (type r); destruct (positive_rule (minLength r));
        destruct (positive_rule (maxLength r));
        repeat match type of H with
               | context [looked_text ?a ?b] => destruct (looked_text a b); cbn in H
               | context [length_below ?a ?b ?c] => destruct (length_below a b c) as [[|]|]; cbn in H
               | context [length_above ?a ?b ?c] => destruct (length_above a b c) as [[|]|]; cbn in H
               | context [validators ?a ?b] => destruct (validators a b); cbn in H
               end;
        try discriminate; injection H as <-; cbn; lia.
    + intros Hreq Hfalse. unfold is_blank in H. rewrite Hreq, Hfalse in H. cbn in H.
      injection H as <-. reflexivity.
Qed.

Lemma createValidator_decides_witness :
  let js := {| number_text := fun _ => "5";
               below := fun _ _ => Some false;
               above := fun _ _ => Some false |} in
  let numeric := [("name", JNum 5); ("email", JStr "a@b.co");
                  ("message", JStr "a message of some length")] in
  In ("name", {| required := true; type := Some name;
                 minLength := Some 2%nat; maxLength := Some 50%nat |}) contactValidation
  /\ lookup_field numeric "name" = Own (JNum 5)
  /\ to_boolean (Own (JNum 5)) = true
  /\ (forall s, JNum 5 <> JStr s)
  /\ createValidator js contactValidation numeric = Threw
  /\ createValidator js contactValidation [("name", JStr "A")] <> Next
  /\ createValidator js [("toString", {| required := true; type := None;
                                         minLength := None; maxLength := None |})] [] = Threw.
Proof.
  intros js numeric.
  assert (Hin : In ("name", {| required := true; type := Some name;
                               minLength := Some 2%nat; maxLength := Some 50%nat |})
                  contactValidation) by (left; reflexivity).
  assert (Hv : lookup_field numeric "name" = Own (JNum 5)) by reflexivity.
  assert (Ht : to_boolean (Own (JNum 5)) = true) by reflexivity.
  assert (Hs : forall s, JNum 5 <> JStr s) by discriminate.
  split; [exact Hin|]. split; [exact Hv|]. split; [exact Ht|]. split; [exact Hs|].
  split; [|split].
  - exact (proj1 (proj2 (proj2 (proj2 (createValidator_decides js contactValidation numeric))))
             "name" _ Hin eq_refl (JNum 5) Hv Ht Hs).
  - intros Hnext.
    pose proof (proj1 (proj1 (createValidator_decides js contactValidation
                                [("name", JStr "A")])) Hnext "name" _ Hin) as [_ Hok].
    destruct (Hok eq_refl) as (_ & Hmin & _). specialize (Hmin 1%nat eq_refl). discriminate.
  - apply (proj2 (proj1 (proj2 (createValidator_decides js
             [("toString", {| required := true; type := None;
                              minLength := None; maxLength := None |})] [])))).
    eexists _, _. split; [left; reflexivity|]. split; [reflexivity|]. left.
    split; [reflexivity | discriminate].
Defined.


End ValidatorMore.


(* ===================================================================== *)
(** ** Further properties of the sanitizer *)
(* ===================================================================== *)

Module SanitizerMore.
Import Js Regex RegexFacts Sanitizer SanitizerFacts.

(** *** Characters *)

Lemma occurs_some_in (c : ascii) (s : string) :
  occurs c s = some_in (fun x => Ascii.eqb x c) s.
Proof. induction s as [|x s IH]; cbn; [reflexivity | rewrite IH; reflexivity]. Qed.

Lemma some_in_app (p : ascii -> bool) (a b : string) :
  some_in p (a +:+ b) = some_in p a || some_in p b.
Proof.
  induction a as [|c a IH]; [reflexivity|].
  rewrite str_app_cons. cbn [some_in]. rewrite IH. apply orb_assoc.
Qed.

Lemma some_in_weaken (p q : ascii -> bool) (s : string) :
  (forall c, p c = true -> q c = true) -> some_in q s = false -> some_in p s = false.
Proof.
  intros Hpq. induction s as [|c s IH]; cbn; [reflexivity|].
  intros H. apply orb_false_iff in H as [Hc Hs]. rewrite (IH Hs), orb_false_r.
  destruct (p c) eqn:Hp; [|reflexivity]. rewrite (Hpq c Hp) in Hc. discriminate.
Qed.

Lemma some_in_false (p : ascii -> bool) (s : string) :
  (forall c, p c = true -> occurs c s = false) -> some_in p s = false.
Proof.
  induction s as [|x s IH]; intros H; cbn; [reflexivity|].
  destruct (p x) eqn:Hp.
  - specialize (H x Hp). cbn in H. rewrite Ascii.eqb_refl in H. discriminate.
  - cbn. apply IH. intros c Hc. specialize (H c Hc). cbn in H.
    apply orb_false_iff in H as [_ H]. exact H.
Qed.

Lemma markup_cases (c : ascii) :
  markup c = true -> c = "<"%char \/ c = ">"%char \/ c = dquote \/ c = "'"%char \/ c = "/"%char.
Proof.
  unfold markup. cbn [existsb]. rewrite !orb_true_iff, !Ascii.eqb_eq.
  intros [H|[H|[H|[H|[H|H]]]]]; [tauto | tauto | tauto | tauto | tauto | discriminate].
Qed.

Lemma sanitizeString_markup_free (str : string) :
  some_in markup (sanitizeString str) = false.
Proof.
  apply some_in_false. intros c Hc. unfold sanitizeString, encode_entities.
  destruct (markup_cases c Hc) as [-> | [-> | [-> | [-> | ->]]]].
  - do 4 (apply replace_char_keeps_absent; [reflexivity|]).
    apply replace_char_removes. reflexivity.
  - do 3 (apply replace_char_keeps_absent; [reflexivity|]).
    apply replace_char_removes. reflexivity.
  - do 2 (apply replace_char_keeps_absent; [reflexivity|]).
    apply replace_char_removes. reflexivity.
  - do 1 (apply replace_char_keeps_absent; [reflexivity|]).
    apply replace_char_removes. reflexivity.
  - apply replace_char_removes. reflexivity.
Qed.

(** X17.  No output of [sanitizeString] holds an angle bracket, a
    quote, an apostrophe or a slash, whatever the input. *)
Theorem sanitizeString_no_markup (str : string) :
  some_in markup (sanitizeString str) = false
  /\ occurs "<" (sanitizeString str) = false
  /\ occurs ">" (sanitizeString str) = false
  /\ occurs dquote (sanitizeString str) = false
  /\ occurs "'" (sanitizeString str) = false
  /\ occurs "/" (sanitizeString str) = false.
Proof.
  pose proof (sanitizeString_markup_free str) as H.
  split; [exact H|].
  repeat split; rewrite occurs_some_in;
    apply (some_in_weaken _ markup); try exact H;
    intros c Hc; apply Ascii.eqb_eq in Hc; subst c; reflexivity.
Qed.

(** *** Text without special characters *)

Lemma replace_char_absent c ent s : occurs c s = false -> replace_char c ent s = s.
Proof.
  induction s as [|x s IH]; cbn; [reflexivity|].
  intros H. apply orb_false_iff in H as [Hx Hs]. rewrite Hx, (IH Hs). reflexivity.
Qed.

(** A pattern whose every match holds a character of the class [q]
    changes no string without such a character. *)
Lemma replace_all_absent (r : regex) (q : ascii -> bool) (by_ s : string) :
  (forall m, Matches r m -> some_in q m = true) ->
  some_in q s = false ->
  replace_all r by_ s = s.
Proof.
  intros Hr. unfold replace_all. generalize (S (String.length s)) as fuel.
  intros fuel. revert s. induction fuel as [|fuel IH]; intros s Hs; [reflexivity|].
  cbn [replace_from]. unfold match_here.
  destruct (bt r s Some) as [rest|] eqn:Hm.
  - apply bt_sound in Hm as (m & rest' & -> & Hm & _).
    rewrite some_in_app, (Hr m Hm) in Hs. discriminate.
  - destruct s as [|c s]; [reflexivity|].
    cbn [some_in] in Hs. apply orb_false_iff in Hs as [_ Hs]. rewrite (IH s Hs). reflexivity.
Qed.

Lemma needs_first (q : ascii -> bool) (p : ascii -> bool) (r : regex) :
  (forall c, p c = true -> q c = true) ->
  forall m, Matches (Seq (Cls p) r) m -> some_in q m = true.
Proof.
  intros Hpq m Hm. apply Matches_cls_then in Hm as (c & m' & -> & Hp & _).
  cbn [some_in]. rewrite (Hpq c Hp). reflexivity.
Qed.

Lemma needs_later (q : ascii -> bool) (r1 r2 : regex) :
  (forall m, Matches r2 m -> some_in q m = true) ->
  forall m, Matches (Seq r1 r2) m -> some_in q m = true.
Proof.
  intros H m Hm. apply Matches_seq in Hm as (a & b & -> & _ & Hb).
  rewrite some_in_app, (H b Hb). apply orb_true_r.
Qed.

Lemma special_absent (c : ascii) (s : string) :
  special c = true -> some_in special s = false -> occurs c s = false.
Proof.
  intros Hc Hs. rewrite occurs_some_in.
  apply (some_in_weaken _ special); [|exact Hs].
  intros x Hx. apply Ascii.eqb_eq in Hx. subst x. exact Hc.
Qed.

(** X18.  [sanitizeString] returns as it is every string that holds
    none of the characters ampersand, angle brackets, quote, apostrophe,
    slash and colon. *)
Theorem sanitizeString_plain (str : string) :
  some_in special str = false -> sanitizeString str = str.
Proof.
  intros Hs. unfold sanitizeString, remove_scripts, remove_handlers, remove_javascript.
  rewrite (replace_all_absent script_re special "" str); [| |exact Hs].
  2:{ unfold script_re. cbn [Seqs]. apply needs_first.
      intros c Hc. apply Ascii.eqb_eq in Hc. subst c. reflexivity. }
  rewrite (replace_all_absent handler_re special "" str); [| |exact Hs].
  2:{ unfold handler_re. cbn [Seqs]. do 5 apply needs_later. apply needs_first.
      intros c Hc. unfold quotes in Hc. cbn [existsb] in Hc.
      rewrite orb_false_r in Hc. apply orb_true_iff in Hc as [Hc|Hc];
        apply Ascii.eqb_eq in Hc; subst c; reflexivity. }
  rewrite (replace_all_absent javascript_re special "" str); [| |exact Hs].
  2:{ unfold javascript_re. apply needs_later. intros m Hm.
      apply Matches_cls in Hm as (c & -> & Hc). apply Ascii.eqb_eq in Hc. subst c. reflexivity. }
  unfold encode_entities.
  rewrite (replace_char_absent "&" _ str) by (apply special_absent; [reflexivity | exact Hs]).
  rewrite (replace_char_absent "<" _ str) by (apply special_absent; [reflexivity | exact Hs]).
  rewrite (replace_char_absent ">" _ str) by (apply special_absent; [reflexivity | exact Hs]).
  rewrite (replace_char_absent dquote _ str) by (apply special_absent; [reflexivity | exact Hs]).
  rewrite (replace_char_absent "'" _ str) by (apply special_absent; [reflexivity | exact Hs]).
  apply replace_char_absent, special_absent; [reflexivity | exact Hs].
Qed.

Lemma sanitizeString_plain_witness :
  some_in special "Ada Lovelace, 1815-1852 (mathematician)" = false
  /\ sanitizeString "Ada Lovelace, 1815-1852 (mathematician)"
     = "Ada Lovelace, 1815-1852 (mathematician)".
Proof.
  assert (Hs : some_in special "Ada Lovelace, 1815-1852 (mathematician)" = false)
    by (vm_compute; reflexivity).
  split; [exact Hs|].
  exact (sanitizeString_plain "Ada Lovelace, 1815-1852 (mathematician)" Hs).
Defined.


(** *** The result of [deepSanitize] *)

Lemma assign_forallb (P : string * value -> bool) o k v :
  forallb P o = true -> P (k, v) = true -> forallb P (assign o k v) = true.
Proof.
  intros Ho Hkv. induction o as [|[k' v'] o IH]; cbn [assign forallb].
  - rewrite Hkv. reflexivity.
  - cbn [forallb] in Ho. apply andb_true_iff in Ho as [Hhd Ho].
    destruct (String.eqb k' k); cbn [forallb].
    + rewrite Hkv, Ho. reflexivity.
    + rewrite Hhd, (IH Ho). reflexivity.
Qed.

(** A key that is not dangerous is its own cleaned key and is free of
    dollar prefix, dots and markup characters. *)
Lemma kept_key_safe (k : string) :
  dangerous_key k = false ->
  sanitizeString k = k /\ startsWith "$" k = false /\ includes "." k = false
  /\ some_in markup k = false.
Proof.
  unfold dangerous_key. cbv zeta. intros H.
  apply orb_false_iff in H as [H Heq]. apply orb_false_iff in H as [Hd Hp].
  apply negb_false_iff, String.eqb_eq in Heq.
  rewrite Heq in Hd, Hp. repeat split; try assumption.
  rewrite <- Heq. apply sanitizeString_markup_free.
Qed.

Lemma loop_safe (props : list (string * value)) :
  Forall (fun kv => safe_output (deepSanitize (snd kv)) = true) props ->
  forall acc,
    forallb (fun kv => safe_key (fst kv) && safe_output (snd kv)) acc = true ->
    forallb (fun kv => safe_key (fst kv) && safe_output (snd kv))
      (fold_left
         (fun sanitized (entry : string * value) =>
            let cleanKey := sanitizeString (fst entry) in
            if dangerous_key (fst entry) then sanitized
            else set_property sanitized cleanKey (deepSanitize (snd entry)))
         props acc) = true.
Proof.
  induction 1 as [|[k v] props Hv _ IH]; intros acc Hacc; cbn [fold_left]; [exact Hacc|].
  apply IH. cbn [fst snd] in *. cbv zeta.
  destruct (dangerous_key k) eqn:Hk; [exact Hacc|].
  destruct (kept_key_safe k Hk) as (Hfix & Hd & Hp & Hm). rewrite Hfix.
  unfold set_property. destruct (String.eqb k "__proto__") eqn:Hproto; [exact Hacc|].
  apply assign_forallb; [exact Hacc|]. cbn [fst snd]. unfold safe_key.
  rewrite Hd, Hp, Hm, Hproto, Hv. reflexivity.
Qed.

Lemma deepSanitize_safe_output (v : value) : safe_output (deepSanitize v) = true.
Proof.
  induction v as [| | b | n | s | items IH | props IH] using value_rect';
    cbn [deepSanitize safe_output]; try reflexivity.
  - rewrite sanitizeString_markup_free. reflexivity.
  - induction IH as [|x items Hx _ IHitems]; cbn [List.map forallb]; [reflexivity|].
    rewrite Hx, IHitems. reflexivity.
  - apply loop_safe; [exact IH | reflexivity].
Qed.

(** X19.  Whatever the input, the result of [deepSanitize] has, at
    every depth, no key that starts with a dollar sign, holds a dot or a
    markup character or is [__proto__], and no string value that holds an
    angle bracket, a quote, an apostrophe or a slash.  In particular the
    result of an object has no such key, and a string is returned without
    markup characters. *)
Theorem deepSanitize_safe (v : value) :
  safe_output (deepSanitize v) = true
  /\ (forall out k x, deepSanitize v = JObj out -> (k, x) ∈ out ->
        safe_key k = true /\ safe_output x = true)
  /\ (forall s, deepSanitize v = JStr s -> some_in markup s = false).
Proof.
  pose proof (deepSanitize_safe_output v) as H. split; [exact H|]. split.
  - intros out k x Hout Hin. rewrite Hout in H. cbn [safe_output] in H.
    rewrite forallb_forall in H. apply list_elem_of_In in Hin.
    specialize (H (k, x) Hin). cbn [fst snd] in H. apply andb_true_iff in H. exact H.
  - intros s Hs. rewrite Hs in H. cbn [safe_output] in H. apply negb_true_iff in H. exact H.
Qed.

Lemma loop_closed (props : list (string * value)) :
  forall acc,
    NoDup (List.map fst acc ++ List.map fst props)%list ->
    fold_left
      (fun sanitized (entry : string * value) =>
         let cleanKey := sanitizeString (fst entry) in
         if dangerous_key (fst entry) then sanitized
         else set_property sanitized cleanKey (deepSanitize (snd entry)))
      props acc
    = (acc ++ List.map (fun kv => (fst kv, deepSanitize (snd kv)))
                (List.filter (fun kv => kept_key (fst kv)) props))%list.
Proof.
  induction props as [|[k v] props IH]; intros acc Hnd; cbn [fold_left List.filter fst snd].
  - cbn [List.map]. symmetry. apply app_nil_r.
  - cbv zeta. cbn [List.map fst snd] in Hnd.
    assert (Hrest : NoDup (List.map fst acc ++ List.map fst props)%list).
    { apply NoDup_app in Hnd as (Ha & Hdisj & Hp). apply NoDup_cons in Hp as [_ Hp].
      apply NoDup_app. split; [exact Ha|]. split; [|exact Hp].
      intros x Hx Hx'. apply (Hdisj x Hx). right. exact Hx'. }
    unfold kept_key at 1. destruct (dangerous_key k) eqn:Hk; cbn [negb andb].
    + apply IH. exact Hrest.
    + destruct (kept_key_safe k Hk) as (Hfix & _). rewrite Hfix. unfold set_property.
      destruct (String.eqb k "__proto__") eqn:Hproto; cbn [negb].
      * apply IH. exact Hrest.
      * rewrite assign_fresh.
        2:{ apply NoDup_app in Hnd as (_ & Hdisj & _). intros Hin. apply (Hdisj k Hin). left. }
        rewrite IH.
        -- cbn [List.map fst snd]. rewrite <- app_assoc. reflexivity.
        -- rewrite map_app. cbn [List.map fst]. rewrite <- app_assoc. exact Hnd.
Qed.

(** X20.  On an object whose keys are distinct, [deepSanitize] returns
    the entries whose key is kept (not dangerous and not [__proto__]), in
    their order, each with its value sanitized; on an array it returns the
    sanitized items, as many as before and in their order. *)
Theorem deepSanitize_shape :
  (forall props,
      distinct (List.map fst props) = true ->
      deepSanitize (JObj props)
      = JObj (List.map (fun kv => (fst kv, deepSanitize (snd kv)))
                (List.filter (fun kv => kept_key (fst kv)) props)))
  /\ (forall items,
        exists out,
          deepSanitize (JArr items) = JArr out
          /\ length out = length items
          /\ forall i x, items !! i = Some x -> out !! i = Some (deepSanitize x)).
Proof.
  split.
  - intros props Hd. cbn [deepSanitize]. f_equal.
    rewrite loop_closed; [reflexivity|]. cbn [List.map app]. apply distinct_NoDup. exact Hd.
  - intros items. exists (List.map deepSanitize items). split; [reflexivity|]. split.
    + apply length_map.
    + intros i x Hi. change (List.map deepSanitize items) with (deepSanitize <$> items).
      rewrite list_lookup_fmap, Hi. reflexivity.
Qed.

Lemma deepSanitize_shape_witness :
  let props := [("$where", JStr "1==1"); ("title", JStr "a<b"); ("a.b", JNum 1);
                ("tags", JArr [JStr "x/y"; JNull])] in
  distinct (List.map fst props) = true
  /\ deepSanitize (JObj props)
     = JObj (List.map (fun kv => (fst kv, deepSanitize (snd kv)))
               (List.filter (fun kv => kept_key (fst kv)) props)).
Proof.
  intros props.
  assert (Hd : distinct (List.map fst props) = true) by (vm_compute; reflexivity).
  split; [exact Hd|].
  exact (proj1 deepSanitize_shape props Hd).
Defined.

(** *** The middleware *)

Lemma no_keys_safe (x : value) : has_keys x = false -> safe_output x = true.
Proof.
  destruct x as [| | b | n | s | items | props]; cbn; try reflexivity.
  - destruct s; [reflexivity | discriminate].
  - destruct items; [reflexivity | discriminate].
  - destruct props; [reflexivity | discriminate].
Qed.

Lemma sanitize_part_safe (x : value) : safe_output (sanitize_part x) = true.
Proof.
  unfold sanitize_part. destruct (has_keys x) eqn:Hk.
  - apply deepSanitize_safe_output.
  - apply no_keys_safe. exact Hk.
Qed.

Lemma sanitize_header_lookup (header h : string) (hs : gmap string string) :
  sanitize_header header hs !! h
  = if decide (header = h)
    then (fun v => if truthy v then sanitizeString v else v) <$> (hs !! h)
    else hs !! h.
Proof.
  unfold sanitize_header. destruct (decide (header = h)) as [->|Hne].
  - destruct (hs !! h) as [v|] eqn:Hv; [|rewrite Hv; reflexivity].
    change ((fun v => if truthy v then sanitizeString v else v) <$> Some v)
      with (Some (if truthy v then sanitizeString v else v)).
    destruct (truthy v); [rewrite lookup_insert_eq | rewrite Hv]; reflexivity.
  - destruct (hs !! header) as [v|]; [|reflexivity].
    destruct (truthy v); [rewrite lookup_insert_ne by assumption|]; reflexivity.
Qed.

(** X21.  The [sanitizer] middleware passes on a request whose body,
    query and parameters are safe in the sense of X19, and whose
    [user-agent], [referer] and [x-forwarded-for] headers hold no markup
    character; every other header is as it was. *)
Theorem sanitizer_passes_safe (req : payload) :
  safe_output (body (sanitizer req)) = true
  /\ safe_output (query (sanitizer req)) = true
  /\ safe_output (params (sanitizer req)) = true
  /\ (forall h v, h ∈ headersToSanitize -> req_headers (sanitizer req) !! h = Some v ->
        some_in markup v = false)
  /\ (forall h, h ∉ headersToSanitize ->
        req_headers (sanitizer req) !! h = req_headers req !! h).
Proof.
  split; [apply sanitize_part_safe|]. split; [apply sanitize_part_safe|].
  split; [apply sanitize_part_safe|].
  assert (Hclean : forall v, some_in markup (if truthy v then sanitizeString v else v) = false).
  { intros v. destruct v as [|c v]; [reflexivity|]. apply sanitizeString_markup_free. }
  unfold sanitizer, headersToSanitize. cbn [req_headers fold_left]. split.
  - intros h v Hh. rewrite !sanitize_header_lookup.
    repeat (apply elem_of_cons in Hh as [->|Hh]); [| | |apply elem_of_nil in Hh; contradiction];
      repeat match goal with
             | |- context [decide (?a = ?b)] =>
                 destruct (decide (a = b)) as [Heq|Hne];
                 [try discriminate Heq; clear Heq
                 | try (exfalso; apply Hne; reflexivity); clear Hne]
             end;
      match goal with
      | |- context [req_headers req !! ?k] =>
          destruct (req_headers req !! k) as [x|]; [|discriminate]
      end;
      intros [= <-]; apply Hclean.
  - intros h Hh. rewrite !sanitize_header_lookup.
    repeat match goal with
           | |- context [decide (?a = h)] =>
               destruct (decide (a = h)) as [<-|_];
               [exfalso; apply Hh; repeat constructor|]
           end.
    reflexivity.
Qed.

Lemma sanitizer_passes_safe_witness :
  let req := {| body := JObj [("$gt", JNum 1); ("q", JStr "<b>")];
                query := JObj []; params := JNull;
                req_headers := {[ "user-agent" := "Mozilla/5.0"; "host" := "a/b" ]} |} in
  "user-agent" ∈ headersToSanitize
  /\ req_headers (sanitizer req) !! "user-agent" = Some "Mozilla&#x2F;5.0"
  /\ some_in markup "Mozilla&#x2F;5.0" = false
  /\ ("host" ∉ headersToSanitize)
  /\ req_headers (sanitizer req) !! "host" = req_headers req !! "host".
Proof.
  intros req.
  assert (H1 : "user-agent" ∈ headersToSanitize) by (left).
  assert (H2 : req_headers (sanitizer req) !! "user-agent" = Some "Mozilla&#x2F;5.0")
    by (vm_compute; reflexivity).
  assert (H3 : "host" ∉ headersToSanitize).
  { unfold headersToSanitize. intros Hin.
    repeat (apply elem_of_cons in Hin as [Hin|Hin]; [discriminate Hin|]).
    apply elem_of_nil in Hin. exact Hin. }
  split; [exact H1|]. split; [exact H2|].
  split; [exact (proj1 (proj2 (proj2 (proj2 (sanitizer_passes_safe req)))) _ _ H1 H2)|].
  split; [exact H3|].
  exact (proj2 (proj2 (proj2 (proj2 (sanitizer_passes_safe req)))) "host" H3).
Defined.

(** *** The in-place sanitizer *)

(** X27.  When [customMongoSanitize] returns, no key of the result, at
    any depth, starts with a dollar sign or holds a dot.  It throws on a
    non-empty object that has an own property [hasOwnProperty]; it returns
    a string given as the payload itself as it is, without cleaning it;
    and, unlike [deepSanitize], it keeps a key [__proto__]. *)
Theorem customMongoSanitize_operator_free :
  (forall v out, customMongoSanitize v = Some out -> operator_free out = true)
  /\ (forall kv props,
        shadows_hasOwnProperty (kv :: props) = true ->
        customMongoSanitize (JObj (kv :: props)) = None)
  /\ (forall s, customMongoSanitize (JStr s) = Some (JStr s))
  /\ (forall x, customMongoSanitize (JObj [("__proto__", JNum x)])
                = Some (JObj [("__proto__", JNum x)])).
Proof.
  split; [|split; [|split]].
  - intros v. induction v as [| | b | n | s | items IH | props IH] using value_rect';
      intros out Hout; cbn [customMongoSanitize] in Hout;
      try (injection Hout as <-; reflexivity).
    + match type of Hout with option_map JArr ?l = _ => destruct l as [xs|] eqn:Hloop end;
        [|discriminate].
      injection Hout as <-. cbn [operator_free]. revert xs Hloop.
      induction IH as [|x items Hx _ IHitems]; intros xs Hloop.
      * injection Hloop as <-. reflexivity.
      * match type of Hloop with
          match ?c with _ => _ end = _ => destruct c as [x'|] eqn:Hx'
        end; [|discriminate].
        match type of Hloop with option_map _ ?l = _ => destruct l as [xs'|] eqn:Hrest end;
          [|discriminate].
        injection Hloop as <-. cbn [forallb]. rewrite (IHitems xs' eq_refl), andb_true_r.
        destruct x; try (injection Hx' as <-; reflexivity); apply Hx; exact Hx'.
    + match type of Hout with
        context [option_map JObj (?f props)] => set (LOOP := f) in *
      end.
      assert (Hgen : forall ps, LOOP props = Some ps ->
                forallb (fun kv => negb (startsWith "$" (fst kv))
                                   && negb (includes "." (fst kv))
                                   && operator_free (snd kv)) ps = true).
      { clear Hout. induction IH as [|[k x] props Hx _ IHprops]; intros ps Hloop.
        - injection Hloop as <-. reflexivity.
        - subst LOOP. cbn [fst snd] in Hloop, Hx.
          destruct (startsWith "$" k) eqn:Hd; [apply IHprops; exact Hloop|].
          destruct (includes "." k) eqn:Hp; [apply IHprops; exact Hloop|].
          match type of Hloop with
            match ?c with _ => _ end = _ => destruct c as [x'|] eqn:Hx'
          end; [|discriminate].
          match type of Hloop with option_map _ ?l = _ => destruct l as [ps'|] eqn:Hrest end;
            [|discriminate].
          injection Hloop as <-. cbn [forallb fst snd].
          rewrite Hd, Hp, (IHprops ps' eq_refl), andb_true_r. cbn [negb andb].
          destruct x; try (injection Hx' as <-; reflexivity); apply Hx; exact Hx'. }
      destruct props as [|kv0 props0]; [injection Hout as <-; reflexivity|].
      destruct (shadows_hasOwnProperty (kv0 :: props0)); [discriminate|].
      destruct (LOOP (kv0 :: props0)) as [ps|] eqn:Hloop; [|discriminate].
      injection Hout as <-. cbn [operator_free]. apply Hgen. reflexivity.
  - intros kv props Hshadow. cbn [customMongoSanitize]. rewrite Hshadow. reflexivity.
  - reflexivity.
  - reflexivity.
Qed.

Lemma customMongoSanitize_operator_free_witness :
  let v := JObj [("$where", JStr "1"); ("user", JObj [("a.b", JNum 1); ("n", JStr "<i>")])] in
  let out := JObj [("user", JObj [("n", JStr "&lt;i&gt;")])] in
  customMongoSanitize v = Some out /\ operator_free out = true.
Proof.
  intros v out.
  assert (H : customMongoSanitize v = Some out) by (vm_compute; reflexivity).
  split; [exact H|].
  exact (proj1 customMongoSanitize_operator_free v out H).
Defined.
End SanitizerMore.


(* ===================================================================== *)
(** ** Properties of the admin authentication *)
(* ===================================================================== *)

Module AuthFacts.
Import Js Express Sanitizer RegexFacts Auth.

Lemma split_on_cons (sep : ascii) (s : string) : exists f fs, split_on sep s = f :: fs.
Proof.
  induction s as [|c s (f & fs & IH)]; cbn [split_on]; [eauto|].
  destruct (Ascii.eqb c sep); [eauto|]. rewrite IH. eauto.
Qed.

(** Joining the fields gives the string back. *)
Lemma join_split (sep : ascii) (s : string) : join sep (split_on sep s) = s.
Proof.
  induction s as [|c s IH]; [reflexivity|]. cbn [split_on].
  destruct (split_on_cons sep s) as (f & fs & Hs). rewrite Hs in *.
  destruct (Ascii.eqb c sep) eqn:Hc.
  - apply Ascii.eqb_eq in Hc. subst c.
    change (join sep ("" :: f :: fs)) with ("" +:+ String sep (join sep (f :: fs))).
    rewrite IH. reflexivity.
  - destruct fs as [|g fs].
    + cbn [join] in *. rewrite IH. reflexivity.
    + change (join sep (String c f :: g :: fs))
        with (String c (f +:+ String sep (join sep (g :: fs)))).
      change (join sep (f :: g :: fs)) with (f +:+ String sep (join sep (g :: fs))) in IH.
      rewrite IH. reflexivity.
Qed.

(** No field holds the separator. *)
Lemma split_fields (sep : ascii) (s : string) :
  Forall (fun f => occurs sep f = false) (split_on sep s).
Proof.
  induction s as [|c s IH]; cbn [split_on]; [repeat constructor|].
  destruct (Ascii.eqb c sep) eqn:Hc; [constructor; [reflexivity | exact IH]|].
  destruct (split_on sep s) as [|f fs]; [repeat constructor; cbn; rewrite Hc; reflexivity|].
  apply Forall_cons in IH as [Hf Hfs]. constructor; [|exact Hfs].
  cbn [occurs]. rewrite Hc, Hf. reflexivity.
Qed.

Lemma split_on_plain (sep : ascii) (w : string) :
  occurs sep w = false -> split_on sep w = [w].
Proof.
  induction w as [|c w IH]; [reflexivity|]. cbn [occurs split_on].
  intros H. apply orb_false_iff in H as [Hc Hw]. rewrite Hc, (IH Hw). reflexivity.
Qed.

Lemma split_on_field (sep : ascii) (w t : string) :
  occurs sep w = false -> split_on sep (w +:+ String sep t) = w :: split_on sep t.
Proof.
  induction w as [|c w IH]; intros H.
  - rewrite str_app_nil_l. cbn [split_on]. rewrite Ascii.eqb_refl. reflexivity.
  - cbn [occurs] in H. apply orb_false_iff in H as [Hc Hw].
    rewrite str_app_cons. cbn [split_on]. rewrite Hc, (IH Hw). reflexivity.
Qed.

Lemma truthy_app (a : string) (c : ascii) (b : string) : truthy (a +:+ String c b) = true.
Proof. destruct a; reflexivity. Qed.

(** X22.  [requireAdmin] lets a request through exactly when its
    authorization header is a word without spaces (any word, [Bearer] or
    not, even none), one space, the key, and then nothing or a space and
    anything; the key must be free of spaces for this to be possible.
    Without the header nothing passes, and the key is never empty,
    whatever the environment. *)
Theorem requireAdmin_grants (key : string) :
  (forall h,
      requireAdmin key (Some h) = Granted
      <-> key <> "" /\ occurs " " key = false
          /\ exists scheme rest,
               h = scheme +:+ " " +:+ key +:+ rest
               /\ occurs " " scheme = false
               /\ (rest = "" \/ exists r, rest = String " " r))
  /\ requireAdmin key None <> Granted
  /\ (forall env, ADMIN_API_KEY env <> "").
Proof.
  split; [|split].
  - intros h. unfold requireAdmin. split.
    + destruct (truthy h); cbn [negb]; [|discriminate].
      pose proof (join_split " " h) as Hjoin. pose proof (split_fields " " h) as Hfields.
      destruct (split_on " " h) as [|f0 [|token fs]]; cbn [lookup list_lookup];
        try discriminate.
      destruct (truthy token) eqn:Ht; cbn [negb]; [|discriminate].
      destruct (String.eqb token key) eqn:Heq; [|discriminate]. intros _.
      apply String.eqb_eq in Heq. subst token.
      apply Forall_cons in Hfields as [Hf0 Hrest]. apply Forall_cons in Hrest as [Hkey _].
      split; [destruct key; [discriminate | discriminate]|]. split; [exact Hkey|].
      destruct fs as [|g fs].
      * exists f0, "". rewrite str_app_nil_r. split; [symmetry; exact Hjoin|].
        split; [exact Hf0 | left; reflexivity].
      * exists f0, (String " " (join " " (g :: fs))). split; [symmetry; exact Hjoin|].
        split; [exact Hf0 | right; eauto].
    + intros (Hne & Hkey & scheme & rest & -> & Hscheme & Hrest).
      change (scheme +:+ " " +:+ key +:+ rest) with (scheme +:+ String " " (key +:+ rest)).
      rewrite truthy_app. cbn [negb]. rewrite (split_on_field " " scheme _ Hscheme).
      assert (Hsecond : exists fs, split_on " " (key +:+ rest) = key :: fs).
      { destruct Hrest as [-> | [r ->]].
        - rewrite str_app_nil_r, (split_on_plain " " key Hkey). eauto.
        - rewrite (split_on_field " " key r Hkey). eauto. }
      destruct Hsecond as [fs ->]. cbn [lookup list_lookup].
      destruct key; [congruence|]. cbn [truthy negb]. rewrite String.eqb_refl. reflexivity.
  - discriminate.
  - intros env. unfold ADMIN_API_KEY, or_else.
    destruct env as [[|c s]|]; cbn; discriminate.
Qed.

(** X23.  Along any series of requests, [adminRateLimit] never holds
    more than fifty timestamps for a key; it lets a request through
    exactly when fewer than fifty timestamps of its key lie in the last
    hour; and a refusal leaves the map as it was. *)
Theorem adminRateLimit_bounded :
  (forall history k l,
      admin_run history !! k = Some l -> (length l <= ADMIN_RATE_LIMIT)%nat)
  /\ (forall req now m,
        snd (adminRateLimit req now m) = AdminNext
        <-> (length (filter (λ t, (now - ADMIN_WINDOW < t)%Z) (default [] (m !! ip req)))
             < ADMIN_RATE_LIMIT)%nat)
  /\ (forall req now m,
        snd (adminRateLimit req now m) = AdminLimitExceeded ->
        fst (adminRateLimit req now m) = m).
Proof.
  split; [|split].
  - intros history. unfold admin_run.
    assert (Hgen : forall m : gmap (option string) (list Z),
               (forall k l, m !! k = Some l -> (length l <= ADMIN_RATE_LIMIT)%nat) ->
               forall k l,
                 fold_left (fun m e => fst (adminRateLimit (fst e) (snd e) m)) history m !! k
                 = Some l -> (length l <= ADMIN_RATE_LIMIT)%nat).
    { induction history as [|[req now] history IH]; intros m Hm; cbn [fold_left]; [exact Hm|].
      apply IH. cbn [fst snd]. unfold adminRateLimit. cbv zeta.
      destruct (Nat.leb_spec ADMIN_RATE_LIMIT
                  (length (filter (λ t, (now - ADMIN_WINDOW < t)%Z)
                             (default [] (m !! ip req))))) as [Hle|Hlt];
        cbn [fst]; [exact Hm|].
      intros k l Hl. destruct (decide (ip req = k)) as [<-|Hne].
      - rewrite lookup_insert_eq in Hl. injection Hl as <-.
        rewrite length_app. cbn [length]. lia.
      - rewrite lookup_insert_ne in Hl by assumption. apply (Hm k l Hl). }
    apply Hgen. intros k l Hl. rewrite lookup_empty in Hl. discriminate.
  - intros req now m. unfold adminRateLimit. cbv zeta.
    destruct (Nat.leb_spec ADMIN_RATE_LIMIT
                (length (filter (λ t, (now - ADMIN_WINDOW < t)%Z)
                           (default [] (m !! ip req))))) as [Hle|Hlt]; cbn [snd].
    + split; [discriminate | lia].
    + split; [intros _; exact Hlt | reflexivity].
  - intros req now m. unfold adminRateLimit. cbv zeta.
    destruct (ADMIN_RATE_LIMIT <=? _)%nat; cbn [fst snd]; [reflexivity | discriminate].
Qed.

End AuthFacts.

(* ===================================================================== *)
(** ** Properties of the admin routes and of the middleware order *)
(* ===================================================================== *)

Module RoutesFacts.
Import Js Express Sanitizer SanitizerMore IpBlacklist IpBlacklistFacts IpBlacklistMore
       RateLimiter RateLimiterMore Auth Routes.

(** X24.  The admin router changes nothing unless [requireAdmin] grants
    the request.  The POST route answers 200 exactly when its [ip] is a
    string that passes the format check and is not whitelisted, and the
    store is different afterwards only when it says that the address was
    added.  The DELETE route, whose parameter is a non-empty string, never
    answers 400. *)
Theorem admin_router_guarded (key : string) (authHeader : option string) (st : store) :
  (forall r, requireAdmin key authHeader <> Granted ->
             admin_router key authHeader r st = (None, st))
  /\ (forall ip,
        (status (fst (post_blacklist ip st)) = 200%nat
         <-> exists a, ip = JStr a /\ well_formed a = true /\ a ∉ whitelistedIPs st)
        /\ (snd (post_blacklist ip st) <> st ->
            text (fst (post_blacklist ip st)) = "IP added to blacklist"))
  /\ (forall a, a <> "" -> status (fst (delete_blacklist a st)) = 200%nat).
Proof.
  split; [|split].
  - intros r Hdenied. unfold admin_router.
    destruct (requireAdmin key authHeader); try reflexivity. congruence.
  - intros ip. unfold post_blacklist.
    destruct (truthy_value ip) eqn:Htruthy; cbn [negb].
    + unfold addToBlacklist, as_address.
      destruct ip as [| | b | n | s | items | props]; cbn [fst snd status text];
        try (split; [split; [discriminate | intros (a & Ha & _); discriminate] | congruence]).
      cbn [truthy_value] in Htruthy. rewrite Htruthy. rewrite well_formed_tests.
      destruct (well_formed s) eqn:Hwf; cbn [negb fst snd status text].
      * destruct (decide (s ∈ whitelistedIPs st)) as [Hw|Hw]; cbn [fst snd status text].
        -- split; [split; [discriminate | intros (a & [= <-] & _ & Hn); contradiction]
                  | congruence].
        -- split; [split; [intros _; exists s; repeat split; assumption | reflexivity]|].
           destruct (bool_decide (s ∉ blacklistedIPs st)) eqn:Hb; [reflexivity|].
           intros Hchanged. exfalso. apply Hchanged.
           apply bool_decide_eq_false in Hb. apply dec_stable in Hb.
           destruct st as [bl wl]. cbn [blacklistedIPs whitelistedIPs] in *. f_equal.
           rewrite (comm_L (∪)). apply subseteq_union_1_L, singleton_subseteq_l. exact Hb.
      * split; [split; [discriminate | intros (a & [= <-] & Hwf' & _); congruence]
               | congruence].
    + cbn [fst snd status text]. split; [|congruence]. split; [discriminate|].
      intros (a & -> & Hwf & _). cbn [truthy_value] in Htruthy.
      rewrite (well_formed_truthy a Hwf) in Htruthy. discriminate.
  - intros a Ha. unfold delete_blacklist, removeFromBlacklist, as_address.
    destruct a; [congruence|]. reflexivity.
Qed.

Lemma admin_router_guarded_witness :
  let auth := Some "Bearer wrong-key" in
  requireAdmin "admin-secret-key-2024" auth <> Granted
  /\ admin_router "admin-secret-key-2024" auth (PostBlacklist (JStr "203.0.113.7")) initial
     = (None, initial)
  /\ "10.0.0.5" <> ""
  /\ status (fst (delete_blacklist "10.0.0.5" initial)) = 200%nat.
Proof.
  intros auth.
  assert (Hd : requireAdmin "admin-secret-key-2024" auth <> Granted)
    by (vm_compute; discriminate).
  assert (Hne : "10.0.0.5" <> "") by discriminate.
  split; [exact Hd|].
  split; [exact (proj1 (admin_router_guarded "admin-secret-key-2024" auth initial)
                   (PostBlacklist (JStr "203.0.113.7")) Hd)|].
  split; [exact Hne|].
  exact (proj2 (proj2 (admin_router_guarded "admin-secret-key-2024" auth initial))
           "10.0.0.5" Hne).
Defined.

(** X25.  The order of the middleware.  A request the guard refuses
    leaves the rate store as it was, so it uses no quota.  A request that
    reaches the routes has passed the guard and the limiter, and its body,
    query and parameters are safe in the sense of X19.  A whitelisted
    client is rate limited like any other.  When [req.ip] is a non-empty
    string, the guard and the limiter both key on it. *)
Theorem pipeline_order (st : store) (cfg : config) (req : request)
  (body query params : value) (now : Z) (sweep : option Z)
  (rateStore : gmap (option string) clientData) :
  (ipBlacklist st req = Forbidden ->
   pipeline st cfg req body query params now sweep rateStore = (rateStore, Reply403))
  /\ (forall h p,
        snd (pipeline st cfg req body query params now sweep rateStore) = Handled h p ->
        ipBlacklist st req = IpBlacklist.Next
        /\ snd (rateLimiter cfg req now sweep rateStore) = RateLimiter.Next h
        /\ safe_output (Sanitizer.body p) = true
        /\ safe_output (Sanitizer.query p) = true
        /\ safe_output (Sanitizer.params p) = true)
  /\ (forall k,
        getClientIP req ∈ whitelistedIPs st ->
        client_key req = Some k ->
        (maxRequests cfg <= length (in_window cfg now (held rateStore k)))%nat ->
        exists r, snd (pipeline st cfg req body query params now sweep rateStore)
                  = Reply429 r)
  /\ (forall s, ip req = Some s -> s <> "" ->
        getClientIP req = s /\ client_key req = Some (Some s)).
Proof.
  split; [|split; [|split]].
  - intros Hf. unfold pipeline. rewrite Hf. reflexivity.
  - intros h p. unfold pipeline.
    destruct (ipBlacklist st req); [|discriminate].
    destruct (rateLimiter cfg req now sweep rateStore) as [rs [| r | h']]; cbn [snd];
      try discriminate.
    intros [= <- <-]. split; [reflexivity|]. split; [reflexivity|].
    unfold sanitizer. cbn [Sanitizer.body Sanitizer.query Sanitizer.params].
    repeat split; apply sanitize_part_safe.
  - intros k Hw Hk Hfull. unfold pipeline, ipBlacklist.
    destruct (decide (getClientIP req ∈ whitelistedIPs st)); [|contradiction].
    rewrite (rateLimiter_unfold cfg req now sweep rateStore k Hk). cbv zeta.
    apply Nat.leb_le in Hfull. rewrite Hfull. eexists. reflexivity.
  - intros s Hs Hne. unfold getClientIP, client_key. rewrite Hs.
    destruct s as [|c s]; [congruence|]. split; reflexivity.
Qed.

Lemma pipeline_order_witness :
  let req := from_ip "127.0.0.1" in
  let rateStore := run two_per_second [Call req 100 None; Call req 600 None] in
  getClientIP req ∈ whitelistedIPs initial
  /\ client_key req = Some (Some "127.0.0.1")
  /\ (maxRequests two_per_second
      <= length (in_window two_per_second 700 (held rateStore (Some "127.0.0.1"))))%nat
  /\ exists r, snd (pipeline initial two_per_second req JNull JNull JNull 700 None rateStore)
               = Reply429 r.
Proof.
  intros req rateStore.
  assert (Hw : getClientIP req ∈ whitelistedIPs initial) by decide_it.
  assert (Hk : client_key req = Some (Some "127.0.0.1")) by reflexivity.
  assert (Hfull : (maxRequests two_per_second
                   <= length (in_window two_per_second 700
                                (held rateStore (Some "127.0.0.1"))))%nat)
    by (vm_compute; lia).
  split; [exact Hw|]. split; [exact Hk|]. split; [exact Hfull|].
  exact (proj1 (proj2 (proj2 (pipeline_order initial two_per_second req JNull JNull JNull
                                700%Z None rateStore)))
           (Some "127.0.0.1") Hw Hk Hfull).
Defined.

End RoutesFacts.
